(** * Philly Events Calendar: the client-side state layer, verified

    A shallow embedding of the calendar front end ([app.js]: date parsing,
    the filter pipeline and its controls, day grouping, escaped text,
    bookmarks, saves, the login by one-time code and its migration) and
    of the offline cache worker ([sw.js]).

    Conventions of the embedding.
    - A JavaScript string is a Rocq [string]; its characters are read as
      UTF-16 code units below 256 (ASCII and Latin-1).
    - [null] and [undefined] are [None].
    - A JavaScript object used as a lookup table is a finite map of its own
      properties.
    - Handlers run to completion: what an [await] receives is supplied by an
      explicit model of the server. *)

From Stdlib Require Import ZArith QArith Qround Ascii String List Lia Bool.
From stdpp Require Import base option list sorting gmap strings.

Local Open Scope string_scope.
Local Open Scope Z_scope.

(** ** JavaScript strings *)

Module JsString.

Definition code (c : ascii) : N := N_of_ascii c.

(** [\d] *)
Definition is_digit (c : ascii) : bool :=
  ((48 <=? code c) && (code c <=? 57))%N.

(** [[A-Za-z]] *)
Definition is_alpha (c : ascii) : bool :=
  (((65 <=? code c) && (code c <=? 90)) || ((97 <=? code c) && (code c <=? 122)))%N.

(** [\s], and the characters [trim] strips: white space and line
    terminators (tab, LF, VT, FF, CR, space, NBSP). *)
Definition is_space (c : ascii) : bool :=
  (((9 <=? code c) && (code c <=? 13)) || (code c =? 32) || (code c =? 160))%N.

(** One code unit of [toLowerCase]: A-Z, and the Latin-1 capitals
    (U+00C0..U+00DE except the multiplication sign U+00D7). *)
Definition lower_char (c : ascii) : ascii :=
  let n := code c in
  if (((65 <=? n) && (n <=? 90))
      || ((192 <=? n) && (n <=? 222) && negb (n =? 215)))%N
  then ascii_of_N (n + 32) else c.

Fixpoint toLowerCase (s : string) : string :=
  match s with
  | EmptyString => EmptyString
  | String c s' => String (lower_char c) (toLowerCase s')
  end.

Fixpoint trimStart (s : string) : string :=
  match s with
  | String c s' => if is_space c then trimStart s' else s
  | EmptyString => EmptyString
  end.

(** [trimEnd], by recursion from the right: a character is kept when it is
    not white space or something is kept after it. *)
Fixpoint trimEnd (s : string) : string :=
  match s with
  | EmptyString => EmptyString
  | String c s' =>
      match trimEnd s' with
      | EmptyString => if is_space c then EmptyString else String c EmptyString
      | t => String c t
      end
  end.

Definition trim (s : string) : string := trimEnd (trimStart s).

(** [hay.includes(needle)] *)
Fixpoint includes (hay needle : string) : bool :=
  String.prefix needle hay
  || match hay with
     | EmptyString => false
     | String _ hay' => includes hay' needle
     end.

(** [s.split(sep)] for a separator of one character: never empty. *)
Fixpoint split (sep : ascii) (s : string) : list string :=
  match s with
  | EmptyString => [EmptyString]
  | String c s' =>
      if Ascii.eqb c sep then EmptyString :: split sep s'
      else match split sep s' with
           | w :: ws => String c w :: ws
           | [] => [String c EmptyString]
           end
  end.

(** [s.replace(pat, by)] for a pattern that is a string of one character:
    only the first occurrence is replaced. *)
Fixpoint replace (pat : ascii) (by_ : string) (s : string) : string :=
  match s with
  | EmptyString => EmptyString
  | String c s' =>
      if Ascii.eqb c pat then by_ ++ s' else String c (replace pat by_ s')
  end.

(** [s.replace(/c/g, by)]: every occurrence. *)
Fixpoint replaceAll (pat : ascii) (by_ : string) (s : string) : string :=
  match s with
  | EmptyString => EmptyString
  | String c s' =>
      if Ascii.eqb c pat then by_ ++ replaceAll pat by_ s'
      else String c (replaceAll pat by_ s')
  end.

(** [s.padStart(2, '0')] *)
Definition padStart2 (s : string) : string :=
  match s with
  | EmptyString => "00"
  | String c EmptyString => String "0" s
  | _ => s
  end.

(** [v || ''] for a value that is a string, [null] or [undefined]. *)
Definition or_empty (v : option string) : string := default "" v.

(** Truthiness of such a value: neither missing nor empty. *)
Definition truthy (v : option string) : bool :=
  match v with
  | Some (String _ _) => true
  | _ => false
  end.

(** Every character of [s] satisfies [p]. *)
Fixpoint all_chars (p : ascii -> bool) (s : string) : bool :=
  match s with
  | EmptyString => true
  | String c s' => p c && all_chars p s'
  end.

(** The longest prefix of [s] whose characters satisfy [p], and the rest. *)
Fixpoint span (p : ascii -> bool) (s : string) : string * string :=
  match s with
  | String c s' =>
      if p c then let '(a, b) := span p s' in (String c a, b)
      else (EmptyString, s)
  | EmptyString => (EmptyString, EmptyString)
  end.

(** [c] does not occur in [s]. *)
Definition lacks (c : ascii) (s : string) : bool :=
  all_chars (fun x => negb (Ascii.eqb x c)) s.

(** The first character of [s] satisfies [q]. *)
Definition head_is (q : ascii -> bool) (s : string) : bool :=
  match s with
  | String c _ => q c
  | EmptyString => false
  end.

(** [s] is empty or starts with a character that fails [p]. *)
Definition stops (p : ascii -> bool) (s : string) : bool :=
  match s with
  | String c _ => negb (p c)
  | EmptyString => true
  end.

End JsString.

(** ** JavaScript numbers *)

Module JsNumber.
Import JsString.

(** A number: [NaN], an infinity, or a finite value, held exactly (the
    rounding of a literal to a double is not represented). *)
Inductive jsnum : Type :=
| JNaN
| JInf (negative : bool)
| JFin (q : Q).

Definition of_Z (z : Z) : jsnum := JFin (inject_Z z).

(** [ToIntegerOrInfinity] of a finite value: truncation towards zero. *)
Definition trunc (q : Q) : Z := Z.quot (Qnum q) (Zpos (Qden q)).

Definition is_finite (n : jsnum) : bool :=
  match n with JFin _ => true | _ => false end.

(** [ToNumber] of a value that may be [undefined]. *)
Definition of_undefined (v : option jsnum) : jsnum := default JNaN v.

(** [v || 0]: [undefined], [NaN] and zero are falsy. *)
Definition or_zero (v : option jsnum) : jsnum :=
  match v with
  | Some (JFin q) => if Qnum q =? 0 then of_Z 0 else JFin q
  | Some (JInf s) => JInf s
  | Some JNaN | None => of_Z 0
  end.

(** [v - 1] *)
Definition minus_one (v : option jsnum) : jsnum :=
  match v with
  | Some (JFin q) => JFin (Qminus q (inject_Z 1))
  | Some (JInf s) => JInf s
  | Some JNaN | None => JNaN
  end.

Definition digit_val (c : ascii) : Z := Z.of_N (code c) - 48.

(** Value of a run of decimal digits, most significant first. *)
Fixpoint digits_val (acc : Z) (s : string) : Z :=
  match s with
  | EmptyString => acc
  | String c s' => digits_val (10 * acc + digit_val c) s'
  end.

(** [parseInt(s, 10)]: leading white space, an optional sign, then the
    longest run of digits; [NaN] when there is no digit. *)
Definition parseInt10 (s : string) : jsnum :=
  let t := trimStart s in
  let '(neg, t) :=
    match t with
    | String "-" t' => (true, t')
    | String "+" t' => (false, t')
    | _ => (false, t)
    end in
  match span is_digit t with
  | (EmptyString, _) => JNaN
  | (ds, _) => of_Z (if neg then - digits_val 0 ds else digits_val 0 ds)
  end.

Definition radix_digit (radix : Z) (c : ascii) : option Z :=
  let n := Z.of_N (code c) in
  let v := if is_digit c then n - 48
           else if (97 <=? n) && (n <=? 102) then n - 87
           else if (65 <=? n) && (n <=? 70) then n - 55
           else radix in
  if v <? radix then Some v else None.

Fixpoint radix_val (radix acc : Z) (s : string) : option Z :=
  match s with
  | EmptyString => Some acc
  | String c s' =>
      match radix_digit radix c with
      | Some v => radix_val radix (radix * acc + v) s'
      | None => None
      end
  end.

(** [0x..], [0o..], [0b..] literals (no sign, at least one digit). *)
Definition radix_literal (radix : Z) (ds : string) : jsnum :=
  match ds with
  | EmptyString => JNaN
  | _ => match radix_val radix 0 ds with
         | Some v => of_Z v
         | None => JNaN
         end
  end.

(** The exponent part [e[+-]ddd] of a decimal literal, if that is all that
    is left. *)
Definition exponent_part (s : string) : option Z :=
  match s with
  | EmptyString => Some 0
  | String c s' =>
      if Ascii.eqb c "e" || Ascii.eqb c "E" then
        let '(neg, ds) :=
          match s' with
          | String "-" t => (true, t)
          | String "+" t => (false, t)
          | _ => (false, s')
          end in
        match ds with
        | EmptyString => None
        | _ => if all_chars is_digit ds
               then Some (if neg then - digits_val 0 ds else digits_val 0 ds)
               else None
        end
      else None
  end.

Definition scale10 (q : Q) (e : Z) : Q :=
  if 0 <=? e then Qmult q (inject_Z (10 ^ e))
  else Qdiv q (inject_Z (10 ^ (- e))).

(** An unsigned decimal literal: digits, an optional fraction, an
    optional exponent, with a digit on at least one side of the point. *)
Definition decimal_literal (s : string) : option Q :=
  let '(ip, r1) := span is_digit s in
  let '(fp, r2) :=
    match r1 with
    | String "." r => span is_digit r
    | _ => (EmptyString, r1)
    end in
  match ip, fp with
  | EmptyString, EmptyString => None
  | _, _ =>
      match exponent_part r2 with
      | Some e =>
          let m := Qplus (inject_Z (digits_val 0 ip))
                         (Qmake (digits_val 0 fp)
                                (Z.to_pos (10 ^ Z.of_nat (String.length fp)))) in
          Some (scale10 m e)
      | None => None
      end
  end.

Definition signed_literal (neg : bool) (s : string) : jsnum :=
  if String.eqb s "Infinity" then JInf neg
  else match decimal_literal s with
       | Some q => JFin (if neg then Qopp q else q)
       | None => JNaN
       end.

(** [Number(s)], the conversion of a string to a number. *)
Definition Number (s : string) : jsnum :=
  match trim s with
  | EmptyString => of_Z 0
  | String "0" (String "x" ds) | String "0" (String "X" ds) => radix_literal 16 ds
  | String "0" (String "o" ds) | String "0" (String "O" ds) => radix_literal 8 ds
  | String "0" (String "b" ds) | String "0" (String "B" ds) => radix_literal 2 ds
  | String "-" t => signed_literal true t
  | String "+" t => signed_literal false t
  | t => signed_literal false t
  end.

(** Decimal digits of a positive integer, least significant first. *)
Fixpoint pos_digits (fuel : nat) (z : Z) (acc : string) : string :=
  match fuel with
  | O => acc
  | S fuel' =>
      let acc' := String (ascii_of_N (Z.to_N (48 + z mod 10))) acc in
      if z <? 10 then acc' else pos_digits fuel' (z / 10) acc'
  end.

(** [String(z)] for an integer. *)
Definition Z_to_string (z : Z) : string :=
  if z <? 0 then String "-" (pos_digits (Z.to_nat (Z.log2 (- z)) + 1) (- z) "")
  else pos_digits (Z.to_nat (Z.log2 z) + 1) z "".

(** An integer-valued number or [NaN], as the [Date] getters return. *)
Definition jsint := option Z.

(** [String(n)] and [`${n}`] for such a value. *)
Definition int_to_string (n : jsint) : string :=
  match n with
  | Some z => Z_to_string z
  | None => "NaN"
  end.

(** [n + 1] *)
Definition int_succ (n : jsint) : jsint := (λ z, z + 1) <$> n.

(** [n !== 0] *)
Definition int_nonzero (n : jsint) : bool :=
  match n with
  | Some 0 => false
  | _ => true
  end.

Definition Q_eqb (a b : Q) : bool :=
  (Qnum a =? Qnum b) && (Qden a =? Qden b)%positive.

(** Equality of numbers as values of the model ([NaN] included). *)
Definition jsnum_eqb (a b : jsnum) : bool :=
  match a, b with
  | JNaN, JNaN => true
  | JInf x, JInf y => Bool.eqb x y
  | JFin p, JFin q => Q_eqb p q
  | _, _ => false
  end.

End JsNumber.

(** ** The built-in [Date] *)

Module JsDate.
Import JsString JsNumber.

(** A [Date] object: its time value, milliseconds since the epoch in UTC,
    or [NaN] ("Invalid Date"). *)
Inductive date : Type :=
| DateValue (t : Z)
| InvalidDate.

(** What the page takes from its surroundings: the clock, the time zone
    of the browser (the conversions [UTC(t)] and [LocalTime(t)] of
    ECMA-262), the browser's own parser behind [new Date(string)], and
    the locale formatting of a time of day. *)
Record Env : Type := {
  now : Z;
  utc_of_local : Z -> Z;
  local_of_utc : Z -> Z;
  native_parse : string -> date;
  toLocaleTimeString : date -> string
}.

Definition msPerDay : Z := 86400000.
Definition msPerHour : Z := 3600000.
Definition msPerMinute : Z := 60000.
Definition msPerSecond : Z := 1000.

Definition DayFromYear (y : Z) : Z :=
  365 * (y - 1970) + (y - 1969) / 4 - (y - 1901) / 100 + (y - 1601) / 400.

Definition InLeapYear (y : Z) : bool :=
  ((y mod 4 =? 0) && negb (y mod 100 =? 0)) || (y mod 400 =? 0).

(** Days of the year before month [mn] (0 = January). *)
Definition DaysBeforeMonth (mn : Z) (leap : bool) : Z :=
  nth (Z.to_nat mn) [0; 31; 59; 90; 120; 151; 181; 212; 243; 273; 304; 334] 0
  + (if leap && (2 <=? mn) then 1 else 0).

(** The number of days of month [mn] (0 = January). *)
Definition DaysInMonth (mn : Z) (leap : bool) : Z :=
  nth (Z.to_nat mn) [31; 28; 31; 30; 31; 30; 31; 31; 30; 31; 30; 31] 0
  + (if leap && (mn =? 1) then 1 else 0).

Definition MakeDay (year month dt : Z) : Z :=
  let ym := year + month / 12 in
  let mn := month mod 12 in
  DayFromYear ym + DaysBeforeMonth mn (InLeapYear ym) + dt - 1.

Definition MakeTime (hour min sec ms : Z) : Z :=
  hour * msPerHour + min * msPerMinute + sec * msPerSecond + ms.

Definition MakeDate (day time : Z) : Z := day * msPerDay + time.

Definition MakeFullYear (y : Z) : Z :=
  if (0 <=? y) && (y <=? 99) then 1900 + y else y.

Definition TimeClip (t : Z) : date :=
  if Z.abs t <=? 8640000000000000 then DateValue t else InvalidDate.

Definition Day (t : Z) : Z := t / msPerDay.

(** The year [y] with [DayFromYear y <= Day t < DayFromYear (y + 1)]:
    an estimate from the mean length of a year, corrected by one. *)
Definition YearFromTime (t : Z) : Z :=
  let d := Day t in
  let y0 := 1970 + (d * 400) / 146097 in
  if d <? DayFromYear y0 then y0 - 1
  else if DayFromYear (y0 + 1) <=? d then y0 + 1
  else y0.

Definition DayWithinYear (t : Z) : Z := Day t - DayFromYear (YearFromTime t).

(** The month of day [d] of a year: the number of months that have
    begun by then, January apart. *)
Definition MonthFromDay (d : Z) (leap : bool) : Z :=
  Z.of_nat (List.length
    (List.filter (fun mn => DaysBeforeMonth mn leap <=? d)
                 [1; 2; 3; 4; 5; 6; 7; 8; 9; 10; 11])).

Definition MonthFromTime (t : Z) : Z :=
  MonthFromDay (DayWithinYear t) (InLeapYear (YearFromTime t)).

(** A check of the month tables over a whole year: wherever day [d]
    lies within month [mn], [MonthFromDay] says so. *)
Definition month_tables_agree (leap : bool) : bool :=
  forallb (fun d =>
    forallb (fun mn =>
      implb ((DaysBeforeMonth mn leap <=? d)
             && (d <? DaysBeforeMonth mn leap + DaysInMonth mn leap))
            (MonthFromDay d leap =? mn))
      (List.map Z.of_nat (seq 0 12)))
    (List.map Z.of_nat (seq 0 366)).

Definition DateFromTime (t : Z) : Z :=
  DayWithinYear t
  - DaysBeforeMonth (MonthFromTime t) (InLeapYear (YearFromTime t)) + 1.

Definition HourFromTime (t : Z) : Z := (t / msPerHour) mod 24.
Definition MinFromTime (t : Z) : Z := (t / msPerMinute) mod 60.
Definition SecFromTime (t : Z) : Z := (t / msPerSecond) mod 60.

Section WithEnv.
Variable env : Env.

(** [new Date()] *)
Definition Date_now : date := DateValue (now env).

(** [new Date(year, month, day, hours, minutes, seconds)]: the
    arguments are fields of a local time. *)
Definition Date_of_fields (year month day hours minutes seconds : jsnum) : date :=
  match year, month, day, hours, minutes, seconds with
  | JFin y, JFin m, JFin dt, JFin h, JFin mi, JFin s =>
      let yr := MakeFullYear (trunc y) in
      let final := MakeDate (MakeDay yr (trunc m) (trunc dt))
                            (MakeTime (trunc h) (trunc mi) (trunc s) 0) in
      TimeClip (utc_of_local env final)
  | _, _, _, _, _, _ => InvalidDate
  end.

Definition local_field (f : Z -> Z) (d : date) : jsint :=
  match d with
  | DateValue t => Some (f (local_of_utc env t))
  | InvalidDate => None
  end.

Definition getFullYear : date -> jsint := local_field YearFromTime.
Definition getMonth : date -> jsint := local_field MonthFromTime.
Definition getDate : date -> jsint := local_field DateFromTime.
Definition getHours : date -> jsint := local_field HourFromTime.
Definition getMinutes : date -> jsint := local_field MinFromTime.
Definition getSeconds : date -> jsint := local_field SecFromTime.

(** The zone takes the local time [t] to an instant within the range
    of [Date] and back to [t]: [t] does not fall into a gap of the
    zone's clock (as the hour skipped at the start of daylight saving
    time does). *)
Definition zone_faithful_at (t : Z) : Prop :=
  Z.abs (utc_of_local env t) <= 8640000000000000
  /\ local_of_utc env (utc_of_local env t) = t.

(** The six local fields of a date, as the getters report them. *)
Definition local_fields (d : date) : list jsint :=
  [getFullYear d; getMonth d; getDate d; getHours d; getMinutes d; getSeconds d].

End WithEnv.

End JsDate.

(** ** [parseLocalDate] *)

Module DateParsing.
Import JsString JsNumber JsDate.

(** At most [n] leading characters of [s] that satisfy [p], and the rest. *)
Fixpoint take_upto (p : ascii -> bool) (n : nat) (s : string) : string * string :=
  match n, s with
  | S n', String c s' =>
      if p c then let '(a, b) := take_upto p n' s' in (String c a, b)
      else (EmptyString, s)
  | _, _ => (EmptyString, s)
  end.

(** A greedy [[class]{lo,hi}]. *)
Definition take_class (p : ascii -> bool) (lo hi : nat) (s : string)
  : option (string * string) :=
  let '(a, b) := take_upto p hi s in
  if (lo <=? String.length a)%nat then Some (a, b) else None.

(** A literal character. *)
Definition expect (c : ascii) (s : string) : option string :=
  match s with
  | String c' s' => if Ascii.eqb c' c then Some s' else None
  | EmptyString => None
  end.

(** [\s+] *)
Definition spaces1 (s : string) : option string :=
  match s with
  | String c s' => if is_space c then Some (trimStart s') else None
  | EmptyString => None
  end.

(** The capture groups of the pattern [rfc2822]. *)
Record rfc_groups : Type := {
  g_day : string; g_month : string; g_year : string;
  g_hour : string; g_min : string; g_sec : string
}.

(** [dateStr.match(rfc2822)] for
    [/^[A-Za-z]{3},\s+(\d{1,2})\s+([A-Za-z]{3})\s+(\d{4})\s+(\d{2}):(\d{2}):(\d{2})\s+GMT$/].
    Each class is disjoint from what follows it, so the greedy reading
    needs no backtracking. *)
Definition match_rfc2822 (s : string) : option rfc_groups :=
  '(_, s) ← take_class is_alpha 3 3 s;
  s ← expect "," s;
  s ← spaces1 s;
  '(d, s) ← take_class is_digit 1 2 s;
  s ← spaces1 s;
  '(mo, s) ← take_class is_alpha 3 3 s;
  s ← spaces1 s;
  '(y, s) ← take_class is_digit 4 4 s;
  s ← spaces1 s;
  '(h, s) ← take_class is_digit 2 2 s;
  s ← expect ":" s;
  '(mi, s) ← take_class is_digit 2 2 s;
  s ← expect ":" s;
  '(se, s) ← take_class is_digit 2 2 s;
  s ← spaces1 s;
  if String.eqb s "GMT"
  then Some {| g_day := d; g_month := mo; g_year := y;
               g_hour := h; g_min := mi; g_sec := se |}
  else None.

(** The table [months] inside [parseLocalDate]. It is looked up with
    the three letters that the pattern matched, and no name that an
    object literal inherits has three letters: the own properties are
    all a lookup can find. *)
Definition months : gmap string Z :=
  list_to_map
    [("Jan", 0); ("Feb", 1); ("Mar", 2); ("Apr", 3); ("May", 4); ("Jun", 5);
     ("Jul", 6); ("Aug", 7); ("Sep", 8); ("Oct", 9); ("Nov", 10); ("Dec", 11)].

(** What the ISO branch takes for the year: the text before the first
    [-] of the date part. *)
Definition iso_date_part (dateStr : string) : string :=
  List.hd ""
    (split "T" (replace "Z" "" (List.hd "" (split "+" (replace " " "T" dateStr))))).

Definition iso_year_text (dateStr : string) : string :=
  List.hd "" (split "-" (iso_date_part dateStr)).

Section WithEnv.
Variable env : Env.

(** The ISO branch: ["2026-02-18T19:30:00"] or ["2026-02-18 19:30:00"]. *)
Definition parse_iso (dateStr : string) : date :=
  let clean :=
    replace "Z" "" (List.hd "" (split "+" (replace " " "T" dateStr))) in
  let parts := split "T" clean in
  let datePart := parts !! 0%nat in
  let timePart := parts !! 1%nat in
  if negb (truthy datePart) then native_parse env dateStr
  else
    let ymd := List.map Number (split "-" (or_empty datePart)) in
    let year := ymd !! 0%nat in
    let month := ymd !! 1%nat in
    let day := ymd !! 2%nat in
    if truthy timePart then
      let hms := List.map Number (split ":" (or_empty timePart)) in
      let hour := hms !! 0%nat in
      let minute := hms !! 1%nat in
      let second := hms !! 2%nat in
      Date_of_fields env (of_undefined year) (minus_one month) (of_undefined day)
                     (or_zero hour) (or_zero minute) (or_zero second)
    else
      Date_of_fields env (of_undefined year) (minus_one month) (of_undefined day)
                     (of_Z 0) (of_Z 0) (of_Z 0).

Definition parseLocalDate (dateStr : option string) : date :=
  match dateStr with
  | None | Some EmptyString => Date_now env
  | Some s =>
      match match_rfc2822 s with
      | Some m =>
          let day := parseInt10 (g_day m) in
          let month := of_Z <$> (months !! g_month m) in
          let year := parseInt10 (g_year m) in
          let hour := parseInt10 (g_hour m) in
          let min := parseInt10 (g_min m) in
          let sec := parseInt10 (g_sec m) in
          Date_of_fields env year (of_undefined month) day hour min sec
      | None => parse_iso s
      end
  end.

End WithEnv.

End DateParsing.

(** ** Exceptions *)

Module Exn.

(** What a handler can throw, a [TypeError] either way: reading a
    property of [null] or [undefined], or calling something that is
    no function ([callee] is not a function). *)
Inductive exn : Type :=
| TypeError (reading : string)
| NotAFunction (callee : string).

(** The outcome of a computation that may throw. *)
Inductive result (A : Type) : Type :=
| Ok (a : A)
| Throw (e : exn).
Arguments Ok {A} a.
Arguments Throw {A} e.

#[global] Instance result_ret : MRet result := fun A a => Ok a.
#[global] Instance result_bind : MBind result := fun A B f r =>
  match r with
  | Ok a => f a
  | Throw e => Throw e
  end.

(** [Array.prototype.filter] with a callback that may throw: the callback
    runs on each element in order and the first exception ends the call. *)
Fixpoint filterM {A : Type} (p : A -> result bool) (l : list A) : result (list A) :=
  match l with
  | [] => Ok []
  | x :: l' =>
      b ← p x;
      r ← filterM p l';
      mret (if b : bool then x :: r else r)
  end.

(** The value of a test that did not throw. *)
Definition ok_true (r : result bool) : bool :=
  match r with
  | Ok b => b
  | Throw _ => false
  end.

(** A handler that assigns globals and then calls something that may
    throw: the globals it leaves, and the exception that ended it, if
    one did. An exception leaves what was assigned [before] it. *)
Definition settle {S : Type} (before : S) (r : result S) : S * option exn :=
  match r with
  | Ok after => (after, None)
  | Throw e => (before, Some e)
  end.

End Exn.

(** ** Object literals *)

Module JsObject.

(** The names that every object literal inherits from
    [Object.prototype] in a browser. Behind each of them is a function,
    except [__proto__], which gives the prototype object itself: all
    are truthy, and none is an array. *)
Definition Object_prototype_keys : list string :=
  ["constructor"; "__defineGetter__"; "__defineSetter__"; "hasOwnProperty";
   "__lookupGetter__"; "__lookupSetter__"; "isPrototypeOf";
   "propertyIsEnumerable"; "toString"; "valueOf"; "__proto__";
   "toLocaleString"].

(** What [obj[key]] finds. *)
Inductive Property (A : Type) : Type :=
| OwnValue (a : A)
| Inherited
| Undefined.
Arguments OwnValue {A} a.
Arguments Inherited {A}.
Arguments Undefined {A}.

(** [obj[key]] for an object literal with the own properties [own]: an
    own property first, then the prototype chain. *)
Definition get_property {A : Type} (own : gmap string A) (key : string)
  : Property A :=
  match own !! key with
  | Some a => OwnValue a
  | None =>
      if bool_decide (key ∈ Object_prototype_keys) then Inherited
      else Undefined
  end.

End JsObject.

(** ** The event store and the filter state *)

Module Store.
Import JsString JsNumber JsDate DateParsing Exn.

(** An event of [GET /events/upcoming]. A field that the server sends as
    [null] is [None]. *)
Record Event : Type := {
  ev_id : Z;
  ev_title : option string;
  ev_description : option string;
  ev_start_date : option string;
  ev_end_date : option string;
  ev_location : option string;
  ev_category : option string;
  ev_price : option string;
  ev_source : option string;
  ev_source_url : option string;
  ev_registration_deadline : option string
}.

Record User : Type := {
  user_id : Z;
  email : string;
  display_name : option string
}.

(** The globals of [app.js], and [localStorage]. [bookmarkedIds] and
    [savedEventIds] are [Set]s: their elements in insertion order. *)
Record AppState : Type := {
  allEvents : list Event;
  filteredEvents : list Event;
  currentCategory : string;
  currentMonth : string;
  currentSource : string;
  currentNeighborhood : string;
  bookmarkedIds : list Z;
  currentUser : option User;
  savedEventIds : list Z;
  localStorage : gmap string string
}.

Definition set_filteredEvents (l : list Event) (st : AppState) : AppState :=
  {| allEvents := allEvents st; filteredEvents := l;
     currentCategory := currentCategory st; currentMonth := currentMonth st;
     currentSource := currentSource st;
     currentNeighborhood := currentNeighborhood st;
     bookmarkedIds := bookmarkedIds st; currentUser := currentUser st;
     savedEventIds := savedEventIds st; localStorage := localStorage st |}.

Definition set_bookmarkedIds (l : list Z) (st : AppState) : AppState :=
  {| allEvents := allEvents st; filteredEvents := filteredEvents st;
     currentCategory := currentCategory st; currentMonth := currentMonth st;
     currentSource := currentSource st;
     currentNeighborhood := currentNeighborhood st;
     bookmarkedIds := l; currentUser := currentUser st;
     savedEventIds := savedEventIds st; localStorage := localStorage st |}.

Definition set_currentUser (u : option User) (st : AppState) : AppState :=
  {| allEvents := allEvents st; filteredEvents := filteredEvents st;
     currentCategory := currentCategory st; currentMonth := currentMonth st;
     currentSource := currentSource st;
     currentNeighborhood := currentNeighborhood st;
     bookmarkedIds := bookmarkedIds st; currentUser := u;
     savedEventIds := savedEventIds st; localStorage := localStorage st |}.

Definition set_savedEventIds (l : list Z) (st : AppState) : AppState :=
  {| allEvents := allEvents st; filteredEvents := filteredEvents st;
     currentCategory := currentCategory st; currentMonth := currentMonth st;
     currentSource := currentSource st;
     currentNeighborhood := currentNeighborhood st;
     bookmarkedIds := bookmarkedIds st; currentUser := currentUser st;
     savedEventIds := l; localStorage := localStorage st |}.

Definition set_localStorage (m : gmap string string) (st : AppState) : AppState :=
  {| allEvents := allEvents st; filteredEvents := filteredEvents st;
     currentCategory := currentCategory st; currentMonth := currentMonth st;
     currentSource := currentSource st;
     currentNeighborhood := currentNeighborhood st;
     bookmarkedIds := bookmarkedIds st; currentUser := currentUser st;
     savedEventIds := savedEventIds st; localStorage := m |}.

(** Keyword mapping: neighbourhood pill label to the location substrings
    to match. These are the own properties of the literal; what a
    lookup finds is [get_property NEIGHBORHOOD_KEYWORDS]. *)
Definition NEIGHBORHOOD_KEYWORDS : gmap string (list string) :=
  list_to_map
    [("Rittenhouse", ["rittenhouse"; "sansom"; "walnut street"]);
     ("Fairmount Park",
       ["fairmount"; "kelly drive"; "west river drive"; "schuylkill"; "wissahickon"]);
     ("Old City", ["old city"; "independence"; "2nd st"; "old city arts"]);
     ("Northern Liberties", ["northern liberties"; "liberty"]);
     ("Queen Village", ["queen village"; "south street"]);
     ("Graduate Hospital", ["graduate hospital"]);
     ("Kensington", ["kensington"]);
     ("Fishtown", ["fishtown"; "frankford ave"; "johnny brenda"]);
     ("Manayunk", ["manayunk"]);
     ("Brewerytown", ["brewerytown"; "yards brewing"]);
     ("Point Breeze", ["point breeze"; "passyunk"; "grays ferry"]);
     ("Chestnut Hill", ["chestnut hill"]);
     ("West Philly",
       ["west philly"; "clark park"; "43rd"; "university of pennsylvania";
        "franklin field"]);
     ("Passyunk", ["passyunk"; "east passyunk"])].

End Store.

(** ** The filter pipeline *)

Module Filter.
Import JsString JsNumber JsDate DateParsing Exn JsObject Store.

Section WithEnv.
Variable env : Env.

(** The [YYYY-MM] text the filter builds from a date. *)
Definition monthYear (d : date) : string :=
  int_to_string (getFullYear env d) ++ "-"
  ++ padStart2 (int_to_string (int_succ (getMonth env d))).

Definition matchesCategory (st : AppState) (event : Event) : bool :=
  String.eqb (currentCategory st) "all"
  || match ev_category event with
     | Some c => String.eqb c (currentCategory st)
     | None => false
     end.

Definition matchesMonth (st : AppState) (event : Event) : bool :=
  if negb (String.eqb (currentMonth st) "all") then
    let eventDate := parseLocalDate env (ev_start_date event) in
    String.eqb (monthYear eventDate) (currentMonth st)
  else true.

Definition matchesSource (st : AppState) (event : Event) : bool :=
  String.eqb (currentSource st) "all"
  || String.eqb (trim (or_empty (ev_source event))) (currentSource st).

(** [NEIGHBORHOOD_KEYWORDS[currentNeighborhood] || []], then
    [keywords.some(...)]: a name of the table gives its keywords, a
    name found nowhere gives the empty list, and a name inherited from
    [Object.prototype] gives something truthy that has no [some], so
    the call throws. *)
Definition matchesNeighborhood (st : AppState) (event : Event) : result bool :=
  if negb (String.eqb (currentNeighborhood st) "all") then
    let loc := toLowerCase (or_empty (ev_location event)) in
    match get_property NEIGHBORHOOD_KEYWORDS (currentNeighborhood st) with
    | OwnValue keywords => Ok (existsb (fun kw => includes loc kw) keywords)
    | Undefined => Ok (existsb (fun kw => includes loc kw) [])
    | Inherited => Throw (NotAFunction "keywords.some")
    end
  else Ok true.

(** The callback of [applyFilters]: the four predicates are computed
    one after the other, then combined. Only the last can throw. *)
Definition passesFilters (st : AppState) (event : Event) : result bool :=
  let category := matchesCategory st event in
  let month := matchesMonth st event in
  let source := matchesSource st event in
  neighborhood ← matchesNeighborhood st event;
  mret (category && month && source && neighborhood).

(** [applyFilters()]; the rendering that follows reads the new
    [filteredEvents]. An exception leaves [filteredEvents] as it
    was. *)
Definition applyFilters (st : AppState) : result AppState :=
  l ← filterM (passesFilters st) (allEvents st);
  mret (set_filteredEvents l st).

(** [v.toLowerCase()] on a value that may be [null]. *)
Definition toLowerCase_of (field : string) (v : option string) : result string :=
  match v with
  | Some s => Ok (toLowerCase s)
  | None => Throw (TypeError field)
  end.

(** [matchesSearch] inside [handleSearch]: the three fields are read
    without a guard, left to right, until one contains the query. *)
Definition matchesSearch (query : string) (event : Event) : result bool :=
  if String.eqb query "" then Ok true
  else
    t ← toLowerCase_of "title" (ev_title event);
    if includes t query then Ok true
    else
      d ← toLowerCase_of "description" (ev_description event);
      if includes d query then Ok true
      else
        l ← toLowerCase_of "location" (ev_location event);
        Ok (includes l query).

(** [handleSearch(e)], with [value] the text of the search box: the
    callback computes the four predicates of [applyFilters], then the
    search. An exception leaves [filteredEvents] as it was. *)
Definition handleSearch (value : string) (st : AppState) : result AppState :=
  let query := toLowerCase value in
  l ← filterM (fun event =>
         passes ← passesFilters st event;
         b ← matchesSearch query event;
         mret (passes && b)) (allEvents st);
  mret (set_filteredEvents l st).

End WithEnv.

End Filter.

(** ** Rendering: event rows and day groups *)

Module Render.
Import JsString JsNumber JsDate DateParsing Store.

(** [escapeHtml(str)]: ampersand first, then the angle brackets and the
    two quotes. *)
Definition escapeHtml (str : option string) : string :=
  if negb (truthy str) then ""
  else
    replaceAll "'" "&#39;"
      (replaceAll "034" "&quot;"
        (replaceAll ">" "&gt;"
          (replaceAll "<" "&lt;"
            (replaceAll "&" "&amp;" (or_empty str))))).

(** The time column of a row: the formatted start time, or the
    ["Time TBD"] label. *)
Inductive TimeCol : Type :=
| EventTime (text : string)
| EventTimeTbd.

(** One event row of the list, as the data its template is filled with
    (the category badge and the styling are left out). [row_index] is the
    [data-event-index] attribute; a location or price that is empty or
    missing gets no element. *)
Record EventRow : Type := {
  row_index : nat;
  row_time : TimeCol;
  row_title : string;
  row_location : option string;
  row_price : option string
}.

(** One day of the grouped list (the header's weekday and date text come
    from the locale formatter and are left out). *)
Record DayGroup : Type := {
  dg_key : string;
  dg_today : bool;
  dg_count : nat;
  dg_rows : list EventRow
}.

Section WithEnv.
Variable env : Env.

(** [hasTime] in [createEventRow]. *)
Definition hasTime (startDate : date) : bool :=
  int_nonzero (getHours env startDate) || int_nonzero (getMinutes env startDate).

Definition createEventRow (event : Event) (index : nat) : EventRow :=
  let startDate := parseLocalDate env (ev_start_date event) in
  let timeStr :=
    if hasTime startDate then toLocaleTimeString env startDate else "" in
  let location := or_empty (ev_location event) in
  let price := or_empty (ev_price event) in
  {| row_index := index;
     row_time := if hasTime startDate
                 then EventTime (escapeHtml (Some timeStr))
                 else EventTimeTbd;
     row_title := escapeHtml (ev_title event);
     row_location :=
       if truthy (Some location) then Some (escapeHtml (Some location)) else None;
     row_price :=
       if truthy (Some price) then Some (escapeHtml (Some price)) else None |}.

(** The [YYYY-MM-DD] key of a date. *)
Definition dateKey (d : date) : string :=
  int_to_string (getFullYear env d) ++ "-"
  ++ padStart2 (int_to_string (int_succ (getMonth env d))) ++ "-"
  ++ padStart2 (int_to_string (getDate env d)).

Definition eventKey (event : Event) : string :=
  dateKey (parseLocalDate env (ev_start_date event)).

Definition todayKey : string := dateKey (Date_now env).

(** The body of the [forEach] in [renderGroupedByDay]: [byDay] maps a
    key to its items, [dayOrder] lists the keys as they first appear.
    Every key holds a [-], which no name that an object literal
    inherits does: the own properties are all a lookup in [byDay] can
    find. *)
Definition addToDay (acc : gmap string (list (Event * nat)) * list string)
           (item : Event * nat)
  : gmap string (list (Event * nat)) * list string :=
  let '(byDay, dayOrder) := acc in
  let key := eventKey item.1 in
  match byDay !! key with
  | None => (<[key := [item]]> byDay, (dayOrder ++ [key])%list)
  | Some items => (<[key := (items ++ [item])%list]> byDay, dayOrder)
  end.

(** What the [forEach] has built after the items [seen]: the keys in
    [dayOrder] are those of [byDay], none twice; each bucket holds the
    seen items of its day in the order they came. *)
Record buckets_ok (seen : list (Event * nat))
       (acc : gmap string (list (Event * nat)) * list string) : Prop := {
  order_nodup : NoDup acc.2;
  order_keys : forall k, k ∈ acc.2 <-> is_Some (acc.1 !! k);
  bucket_items : forall k its, acc.1 !! k = Some its ->
    its = filter (fun it => eventKey it.1 = k) seen /\ its <> [];
  seen_keys : forall it, it ∈ seen -> eventKey it.1 ∈ acc.2
}.

(** The events with their positions in [filteredEvents]. *)
Definition indexed (events : list Event) : list (Event * nat) :=
  imap (fun index event => (event, index)) events.

(** [renderGroupedByDay()]: bucket the filtered events by day, sort the
    keys ([Array.prototype.sort] without a comparator: code unit
    order), and render each day's rows. *)
Definition renderGroupedByDay (st : AppState) : list DayGroup :=
  let '(byDay, dayOrder) :=
    foldl addToDay (∅, []) (indexed (filteredEvents st)) in
  let sorted := merge_sort String.le dayOrder in
  List.map (fun key =>
    let items := default [] (byDay !! key) in
    {| dg_key := key;
       dg_today := String.eqb key todayKey;
       dg_count := List.length items;
       dg_rows := List.map (fun it => createEventRow it.1 it.2) items |})
    sorted.

End WithEnv.

End Render.

(** ** Bookmarks, saves and the login migration *)

Module Saves.
Import JsString JsNumber Store.

(** *** [Set] of event ids, in insertion order *)

Definition set_has (ids : list Z) (eventId : Z) : bool :=
  existsb (Z.eqb eventId) ids.

Definition set_add (ids : list Z) (eventId : Z) : list Z :=
  if set_has ids eventId then ids else (ids ++ [eventId])%list.

Definition set_delete (ids : list Z) (eventId : Z) : list Z :=
  List.filter (fun x => negb (Z.eqb eventId x)) ids.

(** [new Set(array)] *)
Definition set_of_array (a : list Z) : list Z := foldl set_add [] a.

(** The set with the membership of [x] flipped. *)
Definition flip_member (ids : list Z) (x : Z) : list Z :=
  if set_has ids x then set_delete ids x else set_add ids x.

(** *** Requests and what comes back *)

Inductive Method : Type := GET | POST | DELETE.

(** A call of [fetch]; every call here carries [credentials: 'include']. *)
Record Request : Type := {
  rq_method : Method;
  rq_url : string;
  rq_body : option string
}.

(** The JSON of a [/profile/saves] answer, as far as the page reads it:
    whether [success] is truthy, and [event_ids]. *)
Record SavesData : Type := {
  success : bool;
  event_ids : list Z
}.

(** How a [fetch] ends: the promise rejects (no connection), or a
    response arrives whose body is that JSON, or is not JSON at all
    ([res.json()] rejects). The HTTP status is never read. *)
Inductive FetchOutcome : Type :=
| NetworkFailure
| Responded (data : option SavesData).

(** What the user or the console gets to see, and the traffic. *)
Inductive Effect : Type :=
| Fetched (rq : Request)
| Toast (message : string) (type : string)
| ConsoleError (message : string).

Definition is_fetch (e : Effect) : option Request :=
  match e with Fetched rq => Some rq | _ => None end.

Definition is_error_toast (e : Effect) : bool :=
  match e with Toast _ type => String.eqb type "error" | _ => false end.

Definition API_BASE : string := "".

(** [JSON.stringify({ event_id: eventId })] *)
Definition save_body (eventId : Z) : string :=
  "{" ++ String "034" "event_id" ++ String "034" ":" ++ Z_to_string eventId ++ "}".

(** [POST /profile/saves] for one event. *)
Definition save_request (eventId : Z) : Request :=
  {| rq_method := POST; rq_url := API_BASE ++ "/profile/saves";
     rq_body := Some (save_body eventId) |}.

(** [DELETE /profile/saves/:id] *)
Definition unsave_request (eventId : Z) : Request :=
  {| rq_method := DELETE;
     rq_url := API_BASE ++ "/profile/saves/" ++ Z_to_string eventId;
     rq_body := None |}.

Definition saves_request : Request :=
  {| rq_method := GET; rq_url := API_BASE ++ "/profile/saves"; rq_body := None |}.

(** What [toggleSave] asks of the server for a signed-in user. *)
Definition toggle_request (saved : list Z) (eventId : Z) : Request :=
  if set_has saved eventId then unsave_request eventId
  else save_request eventId.

(** The server confirmed: a JSON answer whose [success] is truthy. *)
Definition confirmed (out : FetchOutcome) : bool :=
  match out with
  | Responded (Some data) => success data
  | _ => false
  end.

(** [JSON.stringify([...ids])] *)
Definition stringify_ids (ids : list Z) : string :=
  "[" ++ String.concat "," (List.map Z_to_string ids) ++ "]".

Definition BOOKMARKS_KEY : string := "philly_bookmarks".

(** A run of digits that is a JSON integer: not empty, and without a
    leading zero unless it is ["0"]. *)
Definition is_json_digits (s : string) : bool :=
  all_chars is_digit s
  && match s with
     | EmptyString => false
     | String "0" r => String.eqb r ""
     | String _ _ => true
     end.

(** The integer that a JSON number written without fraction or
    exponent denotes ([-0] is left out: it is no integer of the
    model). *)
Definition json_int (s : string) : option Z :=
  match s with
  | String "-" r =>
      if is_json_digits r && negb (String.eqb r "0")
      then Some (- digits_val 0 r) else None
  | _ => if is_json_digits s then Some (digits_val 0 s) else None
  end.

(** [s] without the [c] it ends with. *)
Fixpoint drop_last (c : ascii) (s : string) : option string :=
  match s with
  | EmptyString => None
  | String x EmptyString => if Ascii.eqb x c then Some EmptyString else None
  | String x r => String x <$> drop_last c r
  end.

(** [JSON.parse(raw)] for a text that is an array of such integers,
    written without white space: the integers. Every other text,
    whether JSON or not, is outside this model: [None]. *)
Definition ids_of_json (raw : string) : option (list Z) :=
  match raw with
  | String "[" r =>
      body ← drop_last "]" r;
      if String.eqb body "" then Some [] else mapM json_int (split "," body)
  | _ => None
  end.

(** [loadBookmarks()]: the state afterwards, for a mirror that is
    missing, empty, or a text that [ids_of_json] covers; [None] for a
    mirror that it does not cover. *)
Definition loadBookmarks (st : AppState) : option AppState :=
  match localStorage st !! BOOKMARKS_KEY with
  | None => Some (set_bookmarkedIds [] st)
  | Some raw =>
      if truthy (Some raw) then
        ids ← ids_of_json raw;
        Some (set_bookmarkedIds (set_of_array ids) st)
      else Some (set_bookmarkedIds [] st)
  end.

(** The mirror in [localStorage] agrees with the set in memory: it holds
    the set's JSON, or nothing was ever stored and the set is empty. *)
Definition mirror_synced (st : AppState) : Prop :=
  match localStorage st !! BOOKMARKS_KEY with
  | Some raw => raw = stringify_ids (bookmarkedIds st)
  | None => bookmarkedIds st = []
  end.

Section WithServer.
(** The server, as far as the page can tell: some state, and an answer
    to each request. *)
Variable Server : Type.
Variable serve : Server -> Request -> FetchOutcome * Server.

Record World : Type := {
  w_app : AppState;
  w_server : Server;
  w_log : list Effect
}.

(** Handlers are state transformers over the world. *)
Definition M (A : Type) : Type := World -> A * World.

Definition ret {A : Type} (a : A) : M A := fun w => (a, w).

Definition bind {A B : Type} (c : M A) (k : A -> M B) : M B :=
  fun w => let '(a, w') := c w in k a w'.

Notation "x <- c ;; k" := (bind c (fun x => k))
  (at level 100, c at next level, right associativity).
Notation "c ;; k" := (bind c (fun _ => k))
  (at level 100, right associativity).

Definition get_app : M AppState := fun w => (w_app w, w).

Definition modify_app (f : AppState -> AppState) : M unit :=
  fun w => (tt, {| w_app := f (w_app w); w_server := w_server w;
                   w_log := w_log w |}).

Definition emit (e : Effect) : M unit :=
  fun w => (tt, {| w_app := w_app w; w_server := w_server w;
                   w_log := (w_log w ++ [e])%list |}).

(** [await fetch(...)] *)
Definition fetch (rq : Request) : M FetchOutcome :=
  fun w => let '(out, srv) := serve (w_server w) rq in
           (out, {| w_app := w_app w; w_server := srv;
                    w_log := (w_log w ++ [Fetched rq])%list |}).

Definition showToast (message type : string) : M unit :=
  emit (Toast message type).

(** [saveBookmarks()] *)
Definition saveBookmarks : M unit :=
  modify_app (fun st =>
    set_localStorage
      (<[BOOKMARKS_KEY := stringify_ids (bookmarkedIds st)]> (localStorage st)) st).

(** [toggleBookmark(eventId)] (the refresh of the open modal is left
    out). *)
Definition toggleBookmark (eventId : Z) : M unit :=
  st <- get_app ;;
  (if set_has (bookmarkedIds st) eventId then
     modify_app (set_bookmarkedIds (set_delete (bookmarkedIds st) eventId)) ;;
     showToast "Bookmark removed." "success"
   else
     modify_app (set_bookmarkedIds (set_add (bookmarkedIds st) eventId)) ;;
     showToast "Event bookmarked!" "success") ;;
  saveBookmarks.

(** [loadUserSaves()] *)
Definition loadUserSaves : M unit :=
  st <- get_app ;;
  match currentUser st with
  | None => ret tt
  | Some _ =>
      out <- fetch saves_request ;;
      match out with
      | Responded (Some data) =>
          if success data
          then modify_app (set_savedEventIds (set_of_array (event_ids data)))
          else ret tt
      | _ => emit (ConsoleError "Could not load saved events:")
      end
  end.

(** An [async] handler at its first [await fetch(...)]: it has ended
    without awaiting, or it waits for the answer to [rq] and goes on
    with [resume]. The world at this point is what the rest of the
    page sees while the request is out. *)
Inductive Suspended (A : Type) : Type :=
| Finished (a : A)
| Awaiting (rq : Request) (resume : FetchOutcome -> M A).
Arguments Finished {A} a.
Arguments Awaiting {A} rq resume.

(** The handler run to its end: the request is sent and answered, and
    the handler goes on with the answer. *)
Definition complete {A : Type} (s : Suspended A) : M A :=
  match s with
  | Finished a => ret a
  | Awaiting rq resume => out <- fetch rq ;; resume out
  end.

(** [toggleSave(eventId)] up to its [await] (the refresh of the open
    modal is left out). [isSaved] is read before the request goes out;
    the set is read again when the answer is there. *)
Definition toggleSave_start (eventId : Z) : M (Suspended unit) :=
  st <- get_app ;;
  match currentUser st with
  | None => toggleBookmark eventId ;; ret (Finished tt)
  | Some _ =>
      let isSaved := set_has (savedEventIds st) eventId in
      if isSaved then
        ret (Awaiting (unsave_request eventId) (fun out =>
          match out with
          | Responded (Some data) =>
              if success data then
                st <- get_app ;;
                modify_app
                  (set_savedEventIds (set_delete (savedEventIds st) eventId)) ;;
                showToast "Removed from saves." "success"
              else ret tt
          | _ => showToast "Could not update saves. Try again." "error"
          end))
      else
        ret (Awaiting (save_request eventId) (fun out =>
          match out with
          | Responded (Some data) =>
              if success data then
                st <- get_app ;;
                modify_app
                  (set_savedEventIds (set_add (savedEventIds st) eventId)) ;;
                showToast "Event saved! ❤️" "success"
              else ret tt
          | _ => showToast "Could not update saves. Try again." "error"
          end))
  end.

(** [toggleSave(eventId)], awaited. *)
Definition toggleSave (eventId : Z) : M unit :=
  s <- toggleSave_start eventId ;;
  complete s.

(** The loop of the migration: one request per id, its outcome
    discarded, an exception swallowed. *)
Fixpoint migrate (ids : list Z) : M unit :=
  match ids with
  | [] => ret tt
  | eventId :: ids' => _ <- fetch (save_request eventId) ;; migrate ids'
  end.

Definition firstName (user : User) : string :=
  if truthy (display_name user)
  then List.hd "" (split " " (or_empty (display_name user)))
  else List.hd "" (split "@" (email user)).

(** [onLoginSuccess(user)] (closing the profile modal and redrawing the
    profile button are left out). *)
Definition onLoginSuccess (user : User) : M unit :=
  modify_app (set_currentUser (Some user)) ;;
  st <- get_app ;;
  (if (0 <? List.length (bookmarkedIds st))%nat then
     let ids := bookmarkedIds st in
     migrate ids ;;
     modify_app (set_bookmarkedIds []) ;;
     saveBookmarks
   else ret tt) ;;
  loadUserSaves ;;
  showToast ("Welcome, " ++ firstName user ++ "! 🎉") "success".

End WithServer.

Arguments w_app {Server} _.
Arguments w_server {Server} _.
Arguments w_log {Server} _.
Arguments ret {Server A} a _.
Arguments bind {Server A B} c k _.
Arguments get_app {Server} _.
Arguments modify_app {Server} f _.
Arguments emit {Server} e _.
Arguments fetch {Server} serve rq _.
Arguments showToast {Server} message type _.
Arguments saveBookmarks {Server} _.
Arguments toggleBookmark {Server} eventId _.
Arguments loadUserSaves {Server} serve _.
Arguments Finished {Server A} a.
Arguments Awaiting {Server A} rq resume.
Arguments complete {Server} serve {A} s _.
Arguments toggleSave_start {Server} eventId _.
Arguments toggleSave {Server} serve eventId _.
Arguments migrate {Server} serve ids _.
Arguments onLoginSuccess {Server} serve user _.

End Saves.

(** ** The offline cache worker ([sw.js]) *)

Module ServiceWorker.
Import JsString.

Definition CACHE_NAME : string := "philly-calendar-v14".

Definition urlsToCache : list string :=
  ["/"; "/static/styles.css?v=14"; "/static/app.js?v=9"].

(** The part of the Cache API the fetch handler calls. [caches_match] is
    [caches.match(request)] over every cache; [cache_put name] is
    [caches.open(name)] followed by [cache.put(request, response)]. *)
Class CacheApi (Caches Rq Rs : Type) : Type := {
  request_url : Rq -> string;
  caches_match : Caches -> Rq -> option Rs;
  cache_put : string -> Rq -> Rs -> Caches -> Caches
}.

Section Handler.
Context {Caches Rq Rs : Type} `{CacheApi Caches Rq Rs}.

(** The network: [fetch(request)] resolves to a response, or rejects. *)
Variable network : Rq -> option Rs.

(** The test the handler applies to a request before caching its
    response. *)
Definition events_bearing (request : Rq) : bool :=
  includes (request_url request) "/events".

(** The [fetch] listener: the response handed to [respondWith] ([None]
    when the promise rejects) and the cache storage afterwards. *)
Definition onFetch (request : Rq) (caches : Caches) : option Rs * Caches :=
  match caches_match caches request with
  | Some response => (Some response, caches)
  | None =>
      match network request with
      | Some fetchResponse =>
          if events_bearing request
          then (Some fetchResponse,
                cache_put CACHE_NAME request fetchResponse caches)
          else (Some fetchResponse, caches)
      | None => (None, caches)
      end
  end.

End Handler.

(** A plain cache storage to run the handler on: named caches, oldest
    first, each a list of (url, body) entries, newest first. *)
Definition SimpleCaches : Type := list (string * list (string * string)).

Definition simple_lookup (url : string) (entries : list (string * string))
  : option string :=
  snd <$> List.find (fun e => String.eqb (fst e) url) entries.

Fixpoint simple_match (caches : SimpleCaches) (url : string) : option string :=
  match caches with
  | [] => None
  | (_, entries) :: rest =>
      match simple_lookup url entries with
      | Some body => Some body
      | None => simple_match rest url
      end
  end.

Fixpoint simple_put (name url body : string) (caches : SimpleCaches) : SimpleCaches :=
  match caches with
  | [] => [(name, [(url, body)])]
  | (n, entries) :: rest =>
      if String.eqb n name then (n, (url, body) :: entries) :: rest
      else (n, entries) :: simple_put name url body rest
  end.

#[global] Instance simple_cache_api : CacheApi SimpleCaches string string := {|
  request_url := fun url => url;
  caches_match := simple_match;
  cache_put := simple_put
|}.

End ServiceWorker.

(** ** The two wire encodings of a timestamp *)

Module Wire.
Import JsString JsNumber.

Inductive Weekday : Type := Sun | Mon | Tue | Wed | Thu | Fri | Sat.

Inductive Month : Type :=
| Jan | Feb | Mar | Apr | May | Jun | Jul | Aug | Sep | Oct | Nov | Dec.

Definition weekday_abbr (wd : Weekday) : string :=
  match wd with
  | Sun => "Sun" | Mon => "Mon" | Tue => "Tue" | Wed => "Wed"
  | Thu => "Thu" | Fri => "Fri" | Sat => "Sat"
  end.

Definition month_abbr (mo : Month) : string :=
  match mo with
  | Jan => "Jan" | Feb => "Feb" | Mar => "Mar" | Apr => "Apr"
  | May => "May" | Jun => "Jun" | Jul => "Jul" | Aug => "Aug"
  | Sep => "Sep" | Oct => "Oct" | Nov => "Nov" | Dec => "Dec"
  end.

(** The month's number, 1 to 12. *)
Definition month_number (mo : Month) : Z :=
  match mo with
  | Jan => 1 | Feb => 2 | Mar => 3 | Apr => 4 | May => 5 | Jun => 6
  | Jul => 7 | Aug => 8 | Sep => 9 | Oct => 10 | Nov => 11 | Dec => 12
  end.

Fixpoint zeros (k : nat) : string :=
  match k with
  | O => EmptyString
  | S k' => String "0" (zeros k')
  end.

(** [n] in decimal, padded with zeros on the left to [width] digits. *)
Definition zero_pad (width : nat) (n : Z) : string :=
  let s := Z_to_string n in
  zeros (width - String.length s) ++ s.

(** The fields of a wall-clock timestamp. *)
Record Stamp : Type := {
  st_year : Z; st_month : Month; st_day : Z;
  st_hour : Z; st_min : Z; st_sec : Z
}.

(** Four digits for the year, at most two for the other numbers. *)
Definition stamp_ok (t : Stamp) : Prop :=
  0 <= st_year t <= 9999 /\ 0 <= st_day t <= 99 /\ 0 <= st_hour t <= 99
  /\ 0 <= st_min t <= 99 /\ 0 <= st_sec t <= 99.

(** ["Ddd, D Mon YYYY HH:MM:SS GMT"]; [pad_day] writes the day with two
    digits, as Flask does. *)
Definition rfc2822_encode (wd : Weekday) (pad_day : bool) (t : Stamp) : string :=
  weekday_abbr wd ++ ", "
  ++ (if pad_day then zero_pad 2 (st_day t) else Z_to_string (st_day t)) ++ " "
  ++ month_abbr (st_month t) ++ " "
  ++ zero_pad 4 (st_year t) ++ " "
  ++ zero_pad 2 (st_hour t) ++ ":"
  ++ zero_pad 2 (st_min t) ++ ":"
  ++ zero_pad 2 (st_sec t) ++ " GMT".

(** ["YYYY-MM-DDTHH:MM:SS"], or with a space for the [T]. *)
Definition iso_encode (space_sep : bool) (t : Stamp) : string :=
  zero_pad 4 (st_year t) ++ "-"
  ++ zero_pad 2 (month_number (st_month t)) ++ "-"
  ++ zero_pad 2 (st_day t) ++ (if space_sep then " " else "T")
  ++ zero_pad 2 (st_hour t) ++ ":"
  ++ zero_pad 2 (st_min t) ++ ":"
  ++ zero_pad 2 (st_sec t).

(** The time value of these fields read as a local time. *)
Definition stamp_local_time (t : Stamp) : Z :=
  JsDate.MakeDate
    (JsDate.MakeDay (JsDate.MakeFullYear (st_year t))
                    (month_number (st_month t) - 1) (st_day t))
    (JsDate.MakeTime (st_hour t) (st_min t) (st_sec t) 0).

(** A day of the calendar: the day exists in its month. *)
Definition calendar_ok (t : Stamp) : Prop :=
  1 <= st_day t
    <= JsDate.DaysInMonth (month_number (st_month t) - 1)
         (JsDate.InLeapYear (JsDate.MakeFullYear (st_year t))).

(** A time of day on the clock. *)
Definition clock_ok (t : Stamp) : Prop :=
  0 <= st_hour t <= 23 /\ 0 <= st_min t <= 59 /\ 0 <= st_sec t <= 59.

(** The day of the month as the RFC form writes it. *)
Definition day_text (pad_day : bool) (t : Stamp) : string :=
  if pad_day then zero_pad 2 (st_day t) else Z_to_string (st_day t).

(** The date and the time halves of the ISO form. *)
Definition iso_date (t : Stamp) : string :=
  zero_pad 4 (st_year t) ++ "-"
  ++ zero_pad 2 (month_number (st_month t)) ++ "-" ++ zero_pad 2 (st_day t).

Definition iso_time (t : Stamp) : string :=
  zero_pad 2 (st_hour t) ++ ":" ++ zero_pad 2 (st_min t) ++ ":"
  ++ zero_pad 2 (st_sec t).

(** [s] is between [lo] and [hi] digits that read back as [n], by
    [parseInt] and by [Number]. *)
Definition digit_token (lo hi : nat) (n : Z) (s : string) : bool :=
  (lo <=? String.length s)%nat && (String.length s <=? hi)%nat
  && all_chars is_digit s
  && jsnum_eqb (parseInt10 s) (of_Z n) && jsnum_eqb (Number s) (of_Z n).

(** [s] is one of the two wire forms of some timestamp. *)
Definition wire_encoded (s : string) : Prop :=
  exists t, stamp_ok t
    /\ ((exists wd pad_day, s = rfc2822_encode wd pad_day t)
        \/ (exists space_sep, s = iso_encode space_sep t)).

(** The same fields as the arguments of the [Date] constructor. *)
Definition stamp_date (env : JsDate.Env) (t : Stamp) : JsDate.date :=
  JsDate.Date_of_fields env
    (of_Z (st_year t)) (of_Z (month_number (st_month t) - 1)) (of_Z (st_day t))
    (of_Z (st_hour t)) (of_Z (st_min t)) (of_Z (st_sec t)).

End Wire.

(** ** The predicates of the filter pipeline, in the words of the
    specification *)

Module FilterSpec.
Import JsString JsNumber JsDate DateParsing JsObject Store Filter.

(** [needle] occurs in [hay]. *)
Definition substring_of (needle hay : string) : Prop :=
  exists before after : string, hay = before ++ needle ++ after.

(** A name that is no pill of the table but is found on
    [Object.prototype]. *)
Definition inherited_name (name : string) : Prop :=
  NEIGHBORHOOD_KEYWORDS !! name = None /\ name ∈ Object_prototype_keys.

(** A capital letter: [A]..[Z], or a capital of Latin-1. *)
Definition is_capital (c : ascii) : bool :=
  (((65 <=? code c) && (code c <=? 90))
   || ((192 <=? code c) && (code c <=? 222) && negb (code c =? 215)))%N.

(** [written] is [kw] with some of its letters [a]..[z] written as
    capitals; [kw] itself holds no capital. *)
Fixpoint spelled_as (kw written : string) : bool :=
  match kw, written with
  | EmptyString, EmptyString => true
  | String k kw', String w written' =>
      ((Ascii.eqb w k && negb (is_capital k))
       || (((97 <=? code k) && (code k <=? 122))%N
           && (code w =? code k - 32)%N))
      && spelled_as kw' written'
  | _, _ => false
  end.

Section WithEnv.
Variable env : Env.

(** Category equals the selected category, or the selection is 'all'. *)
Definition category_ok (st : AppState) (e : Event) : Prop :=
  currentCategory st = "all" \/ ev_category e = Some (currentCategory st).

(** The YYYY-MM month derived from [parseLocalDate(start_date)] equals
    the selected month, or the selection is 'all'. *)
Definition month_ok (st : AppState) (e : Event) : Prop :=
  currentMonth st = "all"
  \/ monthYear env (parseLocalDate env (ev_start_date e)) = currentMonth st.

(** The trimmed source equals the selected source exactly, or 'all'. *)
Definition source_ok (st : AppState) (e : Event) : Prop :=
  currentSource st = "all"
  \/ trim (or_empty (ev_source e)) = currentSource st.

(** The lowercased location contains at least one keyword of the
    selected neighbourhood, or 'all'. *)
Definition neighborhood_ok (st : AppState) (e : Event) : Prop :=
  currentNeighborhood st = "all"
  \/ exists keywords kw,
       NEIGHBORHOOD_KEYWORDS !! currentNeighborhood st = Some keywords
       /\ In kw keywords
       /\ substring_of kw (toLowerCase (or_empty (ev_location e))).

Definition satisfies_filters (st : AppState) (e : Event) : Prop :=
  category_ok st e /\ month_ok st e /\ source_ok st e /\ neighborhood_ok st e.

(** The lowercased query occurs in the (lowercased) title, description
    or location, or the query is empty. *)
Definition search_ok (value : string) (e : Event) : Prop :=
  toLowerCase value = ""
  \/ exists text,
       In (Some text) [ev_title e; ev_description e; ev_location e]
       /\ substring_of (toLowerCase value) (toLowerCase text).

(** Every field the search reads is a string. *)
Definition searchable (e : Event) : Prop :=
  is_Some (ev_title e) /\ is_Some (ev_description e) /\ is_Some (ev_location e).

End WithEnv.

End FilterSpec.

(** ** The filter controls and their options *)

Module Controls.
Import JsString JsNumber JsDate DateParsing Exn Store Filter.

(** What a click leaves behind: the globals, and the exception that
    ended the handler, if one did. *)
Definition Outcome : Type := AppState * option exn.

(** What a click leaves [after] a search, beside what it leaves
    [before] one: the same exception, if any; the same state when
    there is none; and when the click throws, states that differ only
    in [filteredEvents], which the one keeps from the [searched]
    state. *)
Definition same_but_for_search (searched : AppState) (after before : Outcome)
  : Prop :=
  after.2 = before.2
  /\ (before.2 = None -> after.1 = before.1)
  /\ (before.2 <> None ->
      after.1 = set_filteredEvents (filteredEvents searched) before.1).

Definition set_currentCategory (v : string) (st : AppState) : AppState :=
  {| allEvents := allEvents st; filteredEvents := filteredEvents st;
     currentCategory := v; currentMonth := currentMonth st;
     currentSource := currentSource st;
     currentNeighborhood := currentNeighborhood st;
     bookmarkedIds := bookmarkedIds st; currentUser := currentUser st;
     savedEventIds := savedEventIds st; localStorage := localStorage st |}.

Definition set_currentMonth (v : string) (st : AppState) : AppState :=
  {| allEvents := allEvents st; filteredEvents := filteredEvents st;
     currentCategory := currentCategory st; currentMonth := v;
     currentSource := currentSource st;
     currentNeighborhood := currentNeighborhood st;
     bookmarkedIds := bookmarkedIds st; currentUser := currentUser st;
     savedEventIds := savedEventIds st; localStorage := localStorage st |}.

Definition set_currentSource (v : string) (st : AppState) : AppState :=
  {| allEvents := allEvents st; filteredEvents := filteredEvents st;
     currentCategory := currentCategory st; currentMonth := currentMonth st;
     currentSource := v;
     currentNeighborhood := currentNeighborhood st;
     bookmarkedIds := bookmarkedIds st; currentUser := currentUser st;
     savedEventIds := savedEventIds st; localStorage := localStorage st |}.

Definition set_currentNeighborhood (v : string) (st : AppState) : AppState :=
  {| allEvents := allEvents st; filteredEvents := filteredEvents st;
     currentCategory := currentCategory st; currentMonth := currentMonth st;
     currentSource := currentSource st;
     currentNeighborhood := v;
     bookmarkedIds := bookmarkedIds st; currentUser := currentUser st;
     savedEventIds := savedEventIds st; localStorage := localStorage st |}.

Definition set_allEvents (l : list Event) (st : AppState) : AppState :=
  {| allEvents := l; filteredEvents := filteredEvents st;
     currentCategory := currentCategory st; currentMonth := currentMonth st;
     currentSource := currentSource st;
     currentNeighborhood := currentNeighborhood st;
     bookmarkedIds := bookmarkedIds st; currentUser := currentUser st;
     savedEventIds := savedEventIds st; localStorage := localStorage st |}.

(** [Set.prototype.add] on a [Set] of strings, in insertion order. *)
Definition add_option (options : list string) (value : string) : list string :=
  if bool_decide (value ∈ options) then options else (options ++ [value])%list.

Section WithEnv.
Variable env : Env.

(** The selection is assigned, then [applyFilters()] runs: when it
    throws, the selection stays assigned and [filteredEvents] is as it
    was. *)
Definition select_and_filter (selected : AppState) : Outcome :=
  settle selected (applyFilters env selected).

(** [handleFilter(category)]: a click on a category button (the
    buttons' highlighting is left out, here and below). *)
Definition handleFilter (category : string) (st : AppState) : Outcome :=
  select_and_filter (set_currentCategory category st).

(** [handleMonthFilter(e)], with [value] the chosen option. *)
Definition handleMonthFilter (value : string) (st : AppState) : Outcome :=
  select_and_filter (set_currentMonth value st).

(** [handleSourceFilter(e)] *)
Definition handleSourceFilter (value : string) (st : AppState) : Outcome :=
  select_and_filter (set_currentSource value st).

(** [handleNeighborhoodFilter(neighborhood)]: a click on the active
    pill switches the filter off. *)
Definition handleNeighborhoodFilter (neighborhood : string) (st : AppState)
  : Outcome :=
  select_and_filter
    (set_currentNeighborhood
       (if String.eqb (currentNeighborhood st) neighborhood
        then "all" else neighborhood) st).

(** [clearFilters()] *)
Definition clearFilters (st : AppState) : Outcome :=
  select_and_filter
    (set_currentNeighborhood "all"
       (set_currentSource "all"
          (set_currentMonth "all" (set_currentCategory "all" st)))).

(** The option values that [populateMonthFilter] puts after "All
    Months": the [YYYY-MM] of every event, each once, sorted
    ([Array.prototype.sort] without a comparator). *)
Definition monthOptions (st : AppState) : list string :=
  merge_sort String.le
    (foldl (fun months event =>
              add_option months
                (monthYear env (parseLocalDate env (ev_start_date event))))
           [] (allEvents st)).

(** The option values that [populateSourceFilter] puts after "All
    Sources": the trimmed source of every event that has one, each
    once, sorted. *)
Definition sourceOptions (st : AppState) : list string :=
  merge_sort String.le
    (foldl (fun sources event =>
              if truthy (ev_source event)
                 && truthy (Some (trim (or_empty (ev_source event))))
              then add_option sources (trim (or_empty (ev_source event)))
              else sources)
           [] (allEvents st)).

(** What [populateSourceFilter] does to the state: the selection goes
    back to "All Sources". *)
Definition populateSourceFilter (st : AppState) : AppState :=
  set_currentSource "all" st.

End WithEnv.

End Controls.

(** ** The event form *)

Module EventForm.
Import JsString JsNumber JsDate DateParsing.

(** [pad] inside [toDatetimeLocal]. *)
Definition pad (n : jsint) : string := padStart2 (int_to_string n).

(** [toDatetimeLocal(date)]: the value of a [datetime-local] input,
    [YYYY-MM-DDTHH:MM]. *)
Definition toDatetimeLocal (env : Env) (date : date) : string :=
  int_to_string (getFullYear env date) ++ "-"
  ++ pad (int_succ (getMonth env date)) ++ "-"
  ++ pad (getDate env date) ++ "T"
  ++ pad (getHours env date) ++ ":"
  ++ pad (getMinutes env date).

End EventForm.

(** ** Checks of the calendar tables *)

Module Calendar.
Import JsDate.

(** The month that [MonthFromDay] gives for day [d] of a year contains
    that day, for every day of the year. *)
Definition month_contains_day (leap : bool) : bool :=
  forallb (fun d =>
    let mn := MonthFromDay d leap in
    (0 <=? mn) && (mn <=? 11)
    && (DaysBeforeMonth mn leap <=? d)
    && (d <? DaysBeforeMonth mn leap + DaysInMonth mn leap))
    (List.map Z.of_nat (seq 0 (if leap then 366 else 365))).

(** A month ends before the later months begin. *)
Definition months_in_order (leap : bool) : bool :=
  forallb (fun mn =>
    forallb (fun mn' =>
      implb (mn <? mn')
            (DaysBeforeMonth mn leap + DaysInMonth mn leap
             <=? DaysBeforeMonth mn' leap))
      (List.map Z.of_nat (seq 0 12)))
    (List.map Z.of_nat (seq 0 12)).

(** The local time [t] cut back to the minute. *)
Definition minute_floor (t : Z) : Z := t - t mod msPerMinute.

End Calendar.

(** ** More shapes of a timestamp on the wire *)

Module WireForms.
Import JsString JsNumber Wire.

(** A run of digits that reads as [n]. *)
Definition reads_as (n : Z) (s : string) : Prop :=
  all_chars is_digit s = true /\ (0 < String.length s)%nat
  /\ digits_val 0 s = n.

(** Three letters. *)
Definition word3 (w : string) : Prop :=
  all_chars is_alpha w = true /\ String.length w = 3%nat.

(** The RFC-2822-style form with any words for the weekday and the
    month. *)
Definition rfc2822_words (weekday month : string) (pad_day : bool) (t : Stamp)
  : string :=
  weekday ++ ", "
  ++ (if pad_day then zero_pad 2 (st_day t) else Z_to_string (st_day t)) ++ " "
  ++ month ++ " "
  ++ zero_pad 4 (st_year t) ++ " "
  ++ zero_pad 2 (st_hour t) ++ ":"
  ++ zero_pad 2 (st_min t) ++ ":"
  ++ zero_pad 2 (st_sec t) ++ " GMT".

(** The same day at 00:00:00. *)
Definition at_midnight (t : Stamp) : Stamp :=
  {| st_year := st_year t; st_month := st_month t; st_day := st_day t;
     st_hour := 0; st_min := 0; st_sec := 0 |}.

(** The same time with the seconds at zero. *)
Definition on_the_minute (t : Stamp) : Stamp :=
  {| st_year := st_year t; st_month := st_month t; st_day := st_day t;
     st_hour := st_hour t; st_min := st_min t; st_sec := 0 |}.

(** A zone offset [+hh:mm] or [-hh:mm]. *)
Definition zone_offset (negative : bool) (hh mm : Z) : string :=
  (if negative then "-" else "+") ++ zero_pad 2 hh ++ ":" ++ zero_pad 2 mm.

(** The ISO form written with a [T]. *)
Definition iso_T (t : Stamp) : string := iso_date t ++ String "T" (iso_time t).

(** [clean] inside [parseLocalDate]: the first space turned into a
    [T], what follows the first [+] dropped, the first [Z] dropped. *)
Definition iso_clean (dateStr : string) : string :=
  replace "Z" "" (List.hd "" (split "+" (replace " " "T" dateStr))).

End WireForms.

(** ** When the search cannot read an event *)

Module SearchSpec.
Import JsString Store FilterSpec.

(** The search for [query] runs into a missing field of [e]: the title
    is missing; or the title does not contain the query and the
    description is missing; or neither contains it and the location is
    missing. *)
Definition unreadable (query : string) (e : Event) : Prop :=
  match ev_title e with
  | None => True
  | Some title =>
      ~ substring_of query (toLowerCase title)
      /\ match ev_description e with
         | None => True
         | Some description =>
             ~ substring_of query (toLowerCase description)
             /\ ev_location e = None
         end
  end.

End SearchSpec.

(** ** Escaped text *)

Module Markup.
Import JsString Store Render.

(** The five replacements of [escapeHtml], in its order. *)
Definition escape_chain (s : string) : string :=
  replaceAll "'" "&#39;"
    (replaceAll "034" "&quot;"
      (replaceAll ">" "&gt;"
        (replaceAll "<" "&lt;"
          (replaceAll "&" "&amp;" s)))).

(** What [escapeHtml] makes of one character. *)
Definition entity (c : ascii) : string :=
  if Ascii.eqb c "&" then "&amp;"
  else if Ascii.eqb c "<" then "&lt;"
  else if Ascii.eqb c ">" then "&gt;"
  else if Ascii.eqb c "034" then "&quot;"
  else if Ascii.eqb c "'" then "&#39;"
  else String c "".

(** Every character replaced by its entity, in one pass. *)
Fixpoint escape_each (s : string) : string :=
  match s with
  | EmptyString => EmptyString
  | String c s' => entity c ++ escape_each s'
  end.

(** [s] holds none of the characters that open or close a tag or an
    attribute value. *)
Definition markup_free (s : string) : bool :=
  lacks "<" s && lacks ">" s && lacks "034" s && lacks "'" s.

(** The first character of an escaped text, decoded, and the rest. *)
Definition unescape_head (s : string) : option (ascii * string) :=
  match s with
  | String "&" (String "a" (String "m" (String "p" (String ";" r)))) =>
      Some ("&"%char, r)
  | String "&" (String "l" (String "t" (String ";" r))) => Some ("<"%char, r)
  | String "&" (String "g" (String "t" (String ";" r))) => Some (">"%char, r)
  | String "&" (String "q" (String "u" (String "o" (String "t" (String ";" r))))) =>
      Some ("034"%char, r)
  | String "&" (String "#" (String "3" (String "9" (String ";" r)))) =>
      Some ("'"%char, r)
  | String c r => Some (c, r)
  | EmptyString => None
  end.

(** [s.replace(/pat/g, by)] for a pattern that is a literal text:
    the matches are taken from the left and do not overlap. [skip]
    counts the characters of a match that are still to be passed
    over. *)
Fixpoint replaceAllText_from (skip : nat) (pat by_ : string) (s : string)
  : string :=
  match s with
  | EmptyString => EmptyString
  | String c s' =>
      match skip with
      | S k => replaceAllText_from k pat by_ s'
      | O =>
          if String.prefix pat s
          then by_ ++ replaceAllText_from (String.length pat - 1) pat by_ s'
          else String c (replaceAllText_from 0 pat by_ s')
      end
  end.

Definition replaceAllText (pat by_ : string) (s : string) : string :=
  replaceAllText_from 0 pat by_ s.

(** [s.replace(/<[^>]*>/g, ' ')], read from the right. The first
    component is the result for [s]; the second is the result for what
    follows the first [>] of [s], if there is one: that is what is
    left of [s] when a tag was opened before it. A [<] with no [>]
    after it opens no tag and stays. *)
Fixpoint strip_tags_scan (s : string) : string * option string :=
  match s with
  | EmptyString => (EmptyString, None)
  | String c s' =>
      let '(out, closed) := strip_tags_scan s' in
      (if Ascii.eqb c "<" then
         match closed with
         | Some rest => String " " rest
         | None => String c out
         end
       else String c out,
       if Ascii.eqb c ">" then Some out else closed)
  end.

Definition strip_tags (s : string) : string := (strip_tags_scan s).1.

(** [s.replace(/\s+/g, ' ')]; [in_run] says that the character before
    was white space. *)
Fixpoint collapse_from (in_run : bool) (s : string) : string :=
  match s with
  | EmptyString => EmptyString
  | String c s' =>
      if is_space c then
        if in_run then collapse_from true s'
        else String " " (collapse_from true s')
      else String c (collapse_from false s')
  end.

(** [stripHtml(str)]: the tags out, the common entities decoded, the
    white space collapsed and trimmed. *)
Definition stripHtml (str : option string) : string :=
  if negb (truthy str) then ""
  else
    let stripped := strip_tags (or_empty str) in
    let decoded :=
      replaceAllText "&nbsp;" " "
        (replaceAllText "&#39;" "'"
          (replaceAllText "&quot;" (String "034" "")
            (replaceAllText "&gt;" ">"
              (replaceAllText "&lt;" "<"
                (replaceAllText "&amp;" "&" stripped))))) in
    trim (collapse_from false decoded).

(** Every white space character of [s] is a space that does not follow
    another ([after_space] says that [s] comes after one, or at the
    start), and [s] does not end in one. *)
Fixpoint single_spaced_from (after_space : bool) (s : string) : bool :=
  match s with
  | EmptyString => negb after_space
  | String c s' =>
      if is_space c
      then Ascii.eqb c " " && negb after_space && single_spaced_from true s'
      else single_spaced_from false s'
  end.

(** The same without the condition on the end of [s]. *)
Fixpoint loose_from (after_space : bool) (s : string) : bool :=
  match s with
  | EmptyString => true
  | String c s' =>
      if is_space c
      then Ascii.eqb c " " && negb after_space && loose_from true s'
      else loose_from false s'
  end.

(** [s] holds no tag: no [<] with a [>] somewhere after it. *)
Fixpoint tagless (s : string) : bool :=
  match s with
  | EmptyString => true
  | String c s' =>
      (if Ascii.eqb c "<" then lacks ">" s' else true) && tagless s'
  end.

(** The white space of [s] is single spaces between other characters. *)
Definition single_spaced (s : string) : bool :=
  match s with
  | EmptyString => true
  | _ => single_spaced_from true s
  end.

(** The texts of an event row. *)
Definition row_texts (r : EventRow) : list string :=
  match row_time r with
  | EventTime text => [text]
  | EventTimeTbd => []
  end ++ [row_title r] ++ option_list (row_location r)
  ++ option_list (row_price r).

End Markup.

(** ** Signing out, and sequences of actions *)

Module Accounts.
Import JsString JsNumber Store Saves.

(** [POST /auth/logout] *)
Definition logout_request : Request :=
  {| rq_method := POST; rq_url := API_BASE ++ "/auth/logout"; rq_body := None |}.

(** What the visitor can do to the bookmarks and the saves. *)
Inductive Action : Type :=
| ToggleBookmark (eventId : Z)
| ToggleSave (eventId : Z)
| LogIn (user : User)
| LogOut
| LoadSaves.

Section WithServer.
Variable Server : Type.
Variable serve : Server -> Request -> FetchOutcome * Server.

Notation "c ;; k" := (bind c (fun _ => k))
  (at level 100, right associativity).

(** [logoutUser()]: the answer to the request is not looked at, a
    failure of the request is swallowed (redrawing the profile button
    and closing the modal are left out). *)
Definition logoutUser : M Server unit :=
  fetch serve logout_request ;;
  modify_app (set_currentUser None) ;;
  modify_app (set_savedEventIds []) ;;
  showToast "Signed out." "success".

(** One action, run to completion. *)
Definition perform (a : Action) : M Server unit :=
  match a with
  | ToggleBookmark eventId => toggleBookmark eventId
  | ToggleSave eventId => toggleSave serve eventId
  | LogIn user => onLoginSuccess serve user
  | LogOut => logoutUser
  | LoadSaves => loadUserSaves serve
  end.

(** The world after a sequence of actions. *)
Definition perform_all (actions : list Action) (w : World Server) : World Server :=
  foldl (fun w a => (perform a w).2) w actions.

End WithServer.

Arguments logoutUser {Server} serve _.
Arguments perform {Server} serve a _.
Arguments perform_all {Server} serve actions w.

(** An anonymous visitor holds no saves. *)
Definition anonymous_without_saves (st : AppState) : Prop :=
  currentUser st = None -> savedEventIds st = [].

End Accounts.

(** ** The worker's life cycle: install and activate *)

Module WorkerLife.
Import JsString ServiceWorker.

(** [caches.keys()]: the names, oldest first. *)
Definition simple_keys (caches : SimpleCaches) : list string := fst <$> caches.

(** [caches.open(name)]: the cache is created when it is not there. *)
Definition simple_open (name : string) (caches : SimpleCaches) : SimpleCaches :=
  if existsb (String.eqb name) (simple_keys caches) then caches
  else (caches ++ [(name, [])])%list.

(** [caches.delete(name)] *)
Definition simple_delete (name : string) (caches : SimpleCaches) : SimpleCaches :=
  List.filter (fun c => negb (String.eqb (fst c) name)) caches.

(** The entries of the cache called [name] (none when it is not
    there). *)
Definition simple_entries (name : string) (caches : SimpleCaches)
  : list (string * string) :=
  default [] (snd <$> List.find (fun c => String.eqb (fst c) name) caches).

Section Handlers.
(** The network: a body for a URL, or no usable answer. *)
Variable network : string -> option string.

(** What [cache.addAll(urls)] fetches: every response, or nothing when
    one of the requests fails. *)
Definition fetch_all (urls : list string) : option (list (string * string)) :=
  mapM (fun url => (fun body => (url, body)) <$> network url) urls.

(** The [install] listener: whether the installation succeeds, and
    the storage afterwards. [addAll] stores all the responses or
    none. *)
Definition onInstall (caches : SimpleCaches) : bool * SimpleCaches :=
  let opened := simple_open CACHE_NAME caches in
  match fetch_all urlsToCache with
  | Some entries =>
      (true,
       foldl (fun c entry => simple_put CACHE_NAME entry.1 entry.2 c)
             opened entries)
  | None => (false, opened)
  end.

End Handlers.

(** The [activate] listener: every cache whose name is not
    [CACHE_NAME] is deleted. *)
Definition onActivate (caches : SimpleCaches) : SimpleCaches :=
  foldl (fun c cacheName =>
           if negb (String.eqb cacheName CACHE_NAME)
           then simple_delete cacheName c else c)
        caches (simple_keys caches).

End WorkerLife.

(** ** The session: one-time codes, the session check, loading events *)

Module Session.
Import JsString JsNumber Store Saves Controls.

(** *** [JSON.stringify] of a string *)

Definition hex_digit (n : N) : ascii :=
  ascii_of_N (if (n <? 10)%N then 48 + n else 87 + n).

(** One code unit inside a JSON string: the quote and the backslash
    are escaped, the control characters are written as [\b], [\t],
    [\n], [\f], [\r] or [\u00XX]. *)
Definition json_char (c : ascii) : string :=
  let n := code c in
  if (n =? 34)%N then String "\" (String "034" "")
  else if (n =? 92)%N then "\\"
  else if (n =? 8)%N then "\b"
  else if (n =? 9)%N then "\t"
  else if (n =? 10)%N then "\n"
  else if (n =? 12)%N then "\f"
  else if (n =? 13)%N then "\r"
  else if (n <? 32)%N
       then "\u00" ++ String (hex_digit (n / 16)) (String (hex_digit (n mod 16)) "")
  else String c "".

Fixpoint json_chars (s : string) : string :=
  match s with
  | EmptyString => EmptyString
  | String c s' => json_char c ++ json_chars s'
  end.

Definition json_quote (s : string) : string :=
  String "034" (json_chars s ++ String "034" "").

(** [JSON.stringify({ email })] *)
Definition otp_body (email : string) : string :=
  "{" ++ json_quote "email" ++ ":" ++ json_quote email ++ "}".

(** [JSON.stringify({ email, code })] *)
Definition verify_body (email code : string) : string :=
  "{" ++ json_quote "email" ++ ":" ++ json_quote email ++ ","
  ++ json_quote "code" ++ ":" ++ json_quote code ++ "}".

(** *** Requests and answers *)

Definition send_otp_request (email : string) : Request :=
  {| rq_method := POST; rq_url := API_BASE ++ "/auth/send-otp";
     rq_body := Some (otp_body email) |}.

Definition verify_otp_request (email code : string) : Request :=
  {| rq_method := POST; rq_url := API_BASE ++ "/auth/verify-otp";
     rq_body := Some (verify_body email code) |}.

Definition me_request : Request :=
  {| rq_method := GET; rq_url := API_BASE ++ "/auth/me"; rq_body := None |}.

(** The event list and the statistics are asked for without
    credentials. *)
Definition events_request : Request :=
  {| rq_method := GET; rq_url := API_BASE ++ "/events/upcoming";
     rq_body := None |}.

Definition stats_request : Request :=
  {| rq_method := GET; rq_url := API_BASE ++ "/stats"; rq_body := None |}.

(** The JSON of an answer, as far as the page reads it: whether
    [success] and [logged_in] are truthy, [user], [error] (a string,
    when the key is there), [events], [event_ids], and whether there
    is a [stats] object. *)
Record Body : Type := {
  b_success : bool;
  b_logged_in : bool;
  b_user : option User;
  b_error : option string;
  b_events : list Event;
  b_event_ids : list Z;
  b_has_stats : bool
}.

(** How a [fetch] ends: no connection, or an answer with a status and
    a body that is this JSON, or is not JSON. *)
Inductive Reply : Type :=
| Unreachable
| Answered (status : Z) (body : option Body).

(** What the handlers of the saves read of an answer. *)
Definition saves_view (r : Reply) : FetchOutcome :=
  match r with
  | Unreachable => NetworkFailure
  | Answered _ body =>
      Responded ((fun b => {| success := b_success b;
                              event_ids := b_event_ids b |}) <$> body)
  end.

(** The value of a text input that may not be on the page, trimmed. *)
Definition input_value (el : option string) : string :=
  match el with
  | Some value => trim value
  | None => ""
  end.

(** [data.error || fallback] *)
Definition error_or (data : Body) (fallback : string) : string :=
  if truthy (b_error data) then or_empty (b_error data) else fallback.

(** The answer says [success]. *)
Definition accepted (r : Reply) : bool :=
  match r with
  | Answered _ (Some data) => b_success data
  | _ => false
  end.

(** The answer to the session check says [logged_in]. *)
Definition session_found (r : Reply) : bool :=
  match r with
  | Answered _ (Some data) => b_logged_in data
  | _ => false
  end.

(** The body of an answer that has one. *)
Definition body_of (r : Reply) : option Body :=
  match r with
  | Answered _ body => body
  | Unreachable => None
  end.

(** The toast of a refused code or address. *)
Definition refusal (r : Reply) (fallback : string) : string :=
  match r with
  | Answered _ (Some data) => error_or data fallback
  | _ => "Could not connect to server."
  end.

Section WithServer.
Variable Server : Type.
Variable respond : Server -> Request -> Reply * Server.

Notation "x <- c ;; k" := (bind c (fun x => k))
  (at level 100, c at next level, right associativity).
Notation "c ;; k" := (bind c (fun _ => k))
  (at level 100, right associativity).

(** The server as the handlers of the saves see it. *)
Definition serve (srv : Server) (rq : Request) : FetchOutcome * Server :=
  let '(r, srv') := respond srv rq in (saves_view r, srv').

(** [await fetch(...)], with the whole answer. *)
Definition ask (rq : Request) : M Server Reply :=
  fun w => let '(r, srv) := respond (w_server w) rq in
           (r, {| w_app := w_app w; w_server := srv;
                  w_log := (w_log w ++ [Fetched rq])%list |}).

(** The world once [rq] has been sent and answered. *)
Definition asked (rq : Request) (w : World Server) : World Server :=
  {| w_app := w_app w; w_server := (respond (w_server w) rq).2;
     w_log := (w_log w ++ [Fetched rq])%list |}.

(** [sendOtp(resend)], with [emailEl] the e-mail input (switching the
    modal to its second step is left out). *)
Definition sendOtp (resend : bool) (emailEl : option string) : M Server unit :=
  let email := input_value emailEl in
  if negb (truthy (Some email)) || negb (includes email "@") then
    showToast "Please enter a valid email address." "error"
  else
    r <- ask (send_otp_request email) ;;
    match r with
    | Answered _ (Some data) =>
        if b_success data then
          if resend then showToast "New code sent!" "success" else ret tt
        else showToast (error_or data "Could not send code. Try again.") "error"
    | _ => showToast "Could not connect to server." "error"
    end.

(** [onLoginSuccess(data.user)] as [verifyOtp] awaits it. Without a
    [user] in the answer the handler still runs up to the greeting,
    where reading [user.display_name] throws; [verifyOtp] catches
    that. *)
Definition login_with (user : option User) : M Server unit :=
  match user with
  | Some u => onLoginSuccess serve u
  | None =>
      modify_app (set_currentUser None) ;;
      st <- get_app ;;
      (if (0 <? List.length (bookmarkedIds st))%nat then
         migrate serve (bookmarkedIds st) ;;
         modify_app (set_bookmarkedIds []) ;;
         saveBookmarks
       else ret tt) ;;
      loadUserSaves serve ;;
      showToast "Could not connect to server." "error"
  end.

(** [verifyOtp()], with the e-mail and the code inputs. *)
Definition verifyOtp (emailEl codeEl : option string) : M Server unit :=
  let email := input_value emailEl in
  let code := input_value codeEl in
  if negb (truthy (Some code)) || negb (String.length code =? 6)%nat then
    showToast "Please enter the 6-digit code." "error"
  else
    r <- ask (verify_otp_request email code) ;;
    match r with
    | Answered _ (Some data) =>
        if b_success data then login_with (b_user data)
        else showToast (error_or data "Invalid or expired code.") "error"
    | _ => showToast "Could not connect to server." "error"
    end.

(** [initUserSession()]: any failure leaves the page anonymous, without
    a word. *)
Definition initUserSession : M Server unit :=
  r <- ask me_request ;;
  match r with
  | Answered _ (Some data) =>
      if b_logged_in data then
        modify_app (set_currentUser (b_user data)) ;;
        loadUserSaves serve
      else ret tt
  | _ => ret tt
  end.

(** [updateStats()] (the counters on the page are left out). *)
Definition updateStats : M Server unit :=
  r <- ask stats_request ;;
  match r with
  | Answered _ (Some data) =>
      if b_success data && negb (b_has_stats data)
      then emit (ConsoleError "Error loading stats:")
      else ret tt
  | _ => emit (ConsoleError "Error loading stats:")
  end.

(** [loadEvents()], for an answer whose [events] is a list (the
    loading indicator, the menus' options and the redrawing are left
    out). [updateStats()] is started and not awaited: its request goes
    out here, what it does with the answer comes after [loadEvents]
    has returned. *)
Definition loadEvents : M Server unit :=
  r <- ask events_request ;;
  match r with
  | Answered _ (Some data) =>
      if b_success data then
        modify_app (set_allEvents (b_events data)) ;;
        modify_app (set_filteredEvents (b_events data)) ;;
        modify_app populateSourceFilter ;;
        ask stats_request ;;
        ret tt
      else ret tt
  | _ => emit (ConsoleError "Error loading events:")
  end.

(** [refreshEvents()] *)
Definition refreshEvents : M Server unit :=
  loadEvents ;;
  showToast "Events refreshed!" "success".

End WithServer.

Arguments serve {Server} respond srv rq.
Arguments ask {Server} respond rq _.
Arguments asked {Server} respond rq w.
Arguments sendOtp {Server} respond resend emailEl _.
Arguments login_with {Server} respond user _.
Arguments verifyOtp {Server} respond emailEl codeEl _.
Arguments initUserSession {Server} respond _.
Arguments updateStats {Server} respond _.
Arguments loadEvents {Server} respond _.
Arguments refreshEvents {Server} respond _.

End Session.

(** ** Sample surroundings and data *)

Module Samples.
Import JsString JsNumber JsDate DateParsing Store Saves ServiceWorker Wire.

(** Eastern Standard Time as a fixed offset of five hours. *)
Definition est_offset : Z := 5 * msPerHour.

(** [toLocaleTimeString('en-US', { hour: 'numeric', minute: '2-digit' })]
    for that zone. *)
Definition est_time_text (d : date) : string :=
  match d with
  | InvalidDate => "Invalid Date"
  | DateValue t =>
      let h := HourFromTime (t - est_offset) in
      let m := MinFromTime (t - est_offset) in
      Z_to_string (if h mod 12 =? 0 then 12 else h mod 12) ++ ":"
      ++ zero_pad 2 m ++ (if h <? 12 then " AM" else " PM")
  end.

(** A browser in Philadelphia, on 18 February 2026 at 11:00; its own
    parser is taken to reject whatever it is given. *)
Definition eastern : Env := {|
  now := 1771430400000;
  utc_of_local := fun t => t + est_offset;
  local_of_utc := fun t => t - est_offset;
  native_parse := fun _ => InvalidDate;
  toLocaleTimeString := est_time_text
|}.

(** 18 February 2026, 19:30:00. *)
Definition feb18 : Stamp := {|
  st_year := 2026; st_month := Feb; st_day := 18;
  st_hour := 19; st_min := 30; st_sec := 0
|}.

(** 1 March 2026, midnight and 45 seconds. *)
Definition mar1_midnight : Stamp := {|
  st_year := 2026; st_month := Mar; st_day := 1;
  st_hour := 0; st_min := 0; st_sec := 45
|}.

Definition jazz_night : Event := {|
  ev_id := 1; ev_title := Some "Jazz Night";
  ev_description := Some "Live music at Johnny Brenda's";
  ev_start_date := Some "2026-03-01T00:00:00"; ev_end_date := None;
  ev_location := Some "Johnny Brenda's, Fishtown";
  ev_category := Some "music"; ev_price := Some "$15";
  ev_source := Some " Eventbrite "; ev_source_url := None;
  ev_registration_deadline := None
|}.

(** A set that starts 45 seconds after midnight. *)
Definition late_set : Event := {|
  ev_id := 4; ev_title := Some "Late Set";
  ev_description := Some "After hours";
  ev_start_date := Some "2026-03-01T00:00:45"; ev_end_date := None;
  ev_location := Some "South Street";
  ev_category := Some "music"; ev_price := None;
  ev_source := Some "User Added"; ev_source_url := None;
  ev_registration_deadline := None
|}.

(** An event the server sent without a location. *)
Definition broad_street_run : Event := {|
  ev_id := 2; ev_title := Some "Broad Street Run";
  ev_description := Some "Ten miles down Broad Street";
  ev_start_date := Some "Sun, 03 May 2026 08:00:00 GMT"; ev_end_date := None;
  ev_location := None;
  ev_category := Some "running"; ev_price := None;
  ev_source := Some "Visit Philly"; ev_source_url := None;
  ev_registration_deadline := None
|}.

Definition gallery_walk : Event := {|
  ev_id := 3; ev_title := Some "First Friday Gallery Walk";
  ev_description := Some "Old City galleries stay open late";
  ev_start_date := Some "2026-03-01 18:00:00"; ev_end_date := None;
  ev_location := Some "Old City Arts District";
  ev_category := Some "artsAndCulture"; ev_price := None;
  ev_source := None; ev_source_url := None;
  ev_registration_deadline := None
|}.

Definition initial_state (events : list Event) : AppState := {|
  allEvents := events; filteredEvents := events;
  currentCategory := "all"; currentMonth := "all"; currentSource := "all";
  currentNeighborhood := "all";
  bookmarkedIds := []; currentUser := None; savedEventIds := [];
  localStorage := ∅
|}.

Definition select_neighborhood (name : string) (st : AppState) : AppState := {|
  allEvents := allEvents st; filteredEvents := filteredEvents st;
  currentCategory := currentCategory st; currentMonth := currentMonth st;
  currentSource := currentSource st; currentNeighborhood := name;
  bookmarkedIds := bookmarkedIds st; currentUser := currentUser st;
  savedEventIds := savedEventIds st; localStorage := localStorage st
|}.

Definition select_category (name : string) (st : AppState) : AppState := {|
  allEvents := allEvents st; filteredEvents := filteredEvents st;
  currentCategory := name; currentMonth := currentMonth st;
  currentSource := currentSource st;
  currentNeighborhood := currentNeighborhood st;
  bookmarkedIds := bookmarkedIds st; currentUser := currentUser st;
  savedEventIds := savedEventIds st; localStorage := localStorage st
|}.

Definition calendar : AppState :=
  initial_state [jazz_night; broad_street_run; gallery_walk].

(** A visitor with the bookmarks 1, 2 and 3, mirrored in storage. *)
Definition visitor : AppState :=
  set_localStorage {[ BOOKMARKS_KEY := "[1,2,3]" ]}
    (set_bookmarkedIds [1; 2; 3] calendar).

Definition ada : User :=
  {| user_id := 7; email := "ada@example.org"; display_name := None |}.

(** [ada] signed in, with event 3 among her saves. *)
Definition member : AppState :=
  set_savedEventIds [3] (set_currentUser (Some ada) calendar).

Definition request_eqb (a b : Request) : bool :=
  match rq_method a, rq_method b with
  | GET, GET | POST, POST | DELETE, DELETE =>
      String.eqb (rq_url a) (rq_url b)
      && match rq_body a, rq_body b with
         | Some x, Some y => String.eqb x y
         | None, None => true
         | _, _ => false
         end
  | _, _ => false
  end.

(** A server that knows the events 1 to 3 and refuses to save event 2:
    its state is the list of saved ids. *)
Definition picky_server (saved : list Z) (rq : Request) : FetchOutcome * list Z :=
  let refused := {| success := false; event_ids := [] |} in
  let accepted := {| success := true; event_ids := [] |} in
  match rq_method rq with
  | GET => (Responded (Some {| success := true; event_ids := saved |}), saved)
  | POST =>
      match List.find (fun i => request_eqb rq (save_request i)) [1; 2; 3] with
      | Some 2 => (Responded (Some refused), saved)
      | Some i => (Responded (Some accepted), set_add saved i)
      | None => (Responded None, saved)
      end
  | DELETE =>
      match List.find (fun i => request_eqb rq (unsave_request i)) [1; 2; 3] with
      | Some i => (Responded (Some accepted), set_delete saved i)
      | None => (Responded None, saved)
      end
  end.

(** A server that cannot be reached. *)
Definition offline_server (s : unit) (rq : Request) : FetchOutcome * unit :=
  (NetworkFailure, s).

Definition start {Server : Type} (st : AppState) (srv : Server) : World Server :=
  {| w_app := st; w_server := srv; w_log := [] |}.

(** The worker's storage after installation, and a network that serves
    the event list and the script. *)
Definition installed : SimpleCaches :=
  [(CACHE_NAME, [("/", "<html>"); ("/static/styles.css?v=14", "body{}")])].

Definition online (url : string) : option string :=
  if String.eqb url "/events/upcoming" then Some "{events}"
  else if String.eqb url "/static/app.js?v=9" then Some "script"
  else None.

Import Session.

(** An event announced for a day, without a time. *)
Definition street_fair : Event := {|
  ev_id := 5; ev_title := Some "Street Fair";
  ev_description := Some "<p>Food &amp; crafts on <b>South Street</b></p>";
  ev_start_date := Some "2026-03-01"; ev_end_date := None;
  ev_location := Some "South Street";
  ev_category := Some "foodAndDrink"; ev_price := Some "Free";
  ev_source := Some "Visit Philly"; ev_source_url := None;
  ev_registration_deadline := None
|}.

(** An event whose start cannot be read. *)
Definition pop_up : Event := {|
  ev_id := 6; ev_title := Some "Pop-up <Market>";
  ev_description := None;
  ev_start_date := Some "to be announced"; ev_end_date := None;
  ev_location := Some "Fishtown";
  ev_category := Some "community"; ev_price := None;
  ev_source := Some "User Added"; ev_source_url := None;
  ev_registration_deadline := None
|}.

(** An event the server sent without a start. *)
Definition open_mic : Event := {|
  ev_id := 7; ev_title := Some "Open Mic";
  ev_description := Some "Bring a song";
  ev_start_date := None; ev_end_date := None;
  ev_location := Some "West Philly";
  ev_category := Some "music"; ev_price := None;
  ev_source := None; ev_source_url := None;
  ev_registration_deadline := None
|}.

(** A store in which every event has its title, description and
    location. *)
Definition weekend : AppState := initial_state [jazz_night; gallery_walk].

(** 18 February 2026, 11:12:34.321 in Philadelphia. *)
Definition late_morning : Z := 1771430400000 + 754321.

(** 1 March 2026, 00:00:45 in Philadelphia. *)
Definition mar1_utc : Z := 1772341245000.

(** A server that signs [ada] in for the code 123456 and knows the
    events of the sample calendar; its state counts the codes it has
    refused. *)
Definition front_desk (refused : nat) (rq : Request) : Reply * nat :=
  let body := {| b_success := false; b_logged_in := false; b_user := None;
                 b_error := None; b_events := []; b_event_ids := [];
                 b_has_stats := false |} in
  if request_eqb rq (verify_otp_request "ada@example.org" "123456") then
    (Answered 200 (Some {| b_success := true; b_logged_in := false;
                           b_user := Some ada; b_error := None;
                           b_events := []; b_event_ids := [];
                           b_has_stats := false |}), refused)
  else if String.eqb (rq_url rq) (API_BASE ++ "/auth/verify-otp") then
    (Answered 400 (Some {| b_success := false; b_logged_in := false;
                           b_user := None;
                           b_error := Some "Invalid or expired code.";
                           b_events := []; b_event_ids := [];
                           b_has_stats := false |}), S refused)
  else if request_eqb rq events_request then
    (Answered 200 (Some {| b_success := true; b_logged_in := false;
                           b_user := None; b_error := None;
                           b_events := [jazz_night; gallery_walk];
                           b_event_ids := []; b_has_stats := false |}),
     refused)
  else if request_eqb rq saves_request then
    (Answered 200 (Some {| b_success := true; b_logged_in := false;
                           b_user := None; b_error := None;
                           b_events := []; b_event_ids := [3];
                           b_has_stats := false |}), refused)
  else (Answered 200 (Some body), refused).

End Samples.

(** * Facts about the embedding *)

#[local] Arguments String.append !_ _ / : simpl nomatch.

Module StringFacts.
Import JsString JsNumber.

Lemma append_assoc' (a b c : string) : (a ++ b) ++ c = a ++ (b ++ c).
Proof. induction a as [|x a IH]; simpl; [done | by rewrite IH]. Qed.

Lemma all_chars_app p (a b : string) :
  all_chars p (a ++ b) = all_chars p a && all_chars p b.
Proof.
  induction a as [|x a IH]; simpl; [done |].
  by rewrite IH, andb_assoc.
Qed.

Lemma all_chars_weaken (p q : ascii -> bool) (s : string) :
  (forall c, p c = true -> q c = true) ->
  all_chars p s = true -> all_chars q s = true.
Proof.
  intros Hpq. induction s as [|x s IH]; simpl; [done |].
  intros [Hx Hs]%andb_true_iff. rewrite (Hpq _ Hx). simpl. auto.
Qed.

Lemma lacks_app c (a b : string) : lacks c (a ++ b) = lacks c a && lacks c b.
Proof. apply all_chars_app. Qed.

Lemma replace_lacks c by_ (s : string) : lacks c s = true -> replace c by_ s = s.
Proof.
  induction s as [|x s IH]; simpl; [done |].
  intros [Hx Hs]%andb_true_iff.
  apply negb_true_iff in Hx. rewrite Hx. by rewrite IH.
Qed.

Lemma split_lacks c (s : string) : lacks c s = true -> split c s = [s].
Proof.
  induction s as [|x s IH]; simpl; [done |].
  intros [Hx Hs]%andb_true_iff.
  apply negb_true_iff in Hx. rewrite Hx. by rewrite IH.
Qed.

Lemma split_at c (a b : string) :
  lacks c a = true -> split c (a ++ String c b) = a :: split c b.
Proof.
  induction a as [|x a IH]; simpl.
  - intros _. by rewrite Ascii.eqb_refl.
  - intros [Hx Hs]%andb_true_iff.
    apply negb_true_iff in Hx. rewrite Hx. by rewrite IH.
Qed.

Lemma trimStart_keeps (a : ascii) (s : string) :
  is_space a = false -> trimStart (String a s) = String a s.
Proof. intros Ha. simpl. by rewrite Ha. Qed.

End StringFacts.

Module NumberFacts.
Import JsString JsNumber Wire StringFacts.

Lemma length_app (a b : string) :
  String.length (a ++ b) = (String.length a + String.length b)%nat.
Proof. induction a as [|x a IH]; simpl; [done | by rewrite IH]. Qed.

(** The value of a run of digits read after [acc]. *)
Lemma digits_val_acc acc (s : string) :
  digits_val acc s = acc * 10 ^ Z.of_nat (String.length s) + digits_val 0 s.
Proof.
  revert acc. induction s as [|c s IH]; intros acc.
  - simpl. lia.
  - cbn [digits_val String.length]. rewrite (IH (10 * acc + digit_val c)).
    rewrite (IH (10 * 0 + digit_val c)).
    rewrite Nat2Z.inj_succ, Z.pow_succ_r by lia. lia.
Qed.

Lemma digit_char_spec d :
  0 <= d <= 9 ->
  let c := ascii_of_N (Z.to_N (48 + d)) in
  is_digit c = true /\ digit_val c = d.
Proof.
  intros Hd.
  assert (d = 0 \/ d = 1 \/ d = 2 \/ d = 3 \/ d = 4 \/ d = 5 \/ d = 6 \/ d = 7
          \/ d = 8 \/ d = 9) as Hcases by lia.
  by repeat (destruct Hcases as [-> | Hcases]; [done |]); subst.
Qed.

(** [pos_digits] writes the decimal digits of [z] in front of [acc]. *)
Lemma pos_digits_spec fuel z (acc : string) :
  0 <= z < 2 ^ Z.of_nat fuel -> (0 < fuel)%nat ->
  all_chars is_digit acc = true ->
  let s := pos_digits fuel z acc in
  all_chars is_digit s = true
  /\ (String.length acc < String.length s)%nat
  /\ digits_val 0 s = z * 10 ^ Z.of_nat (String.length acc) + digits_val 0 acc
  /\ forall k, (0 < k)%nat -> z < 10 ^ Z.of_nat k ->
       (String.length s <= k + String.length acc)%nat.
Proof.
  revert z acc. induction fuel as [|fuel IH]; intros z acc Hz Hfuel Hacc.
  { lia. }
  cbn [pos_digits]. cbv zeta.
  destruct (digit_char_spec (z mod 10)) as [Hd Hv];
    [pose proof (Z.mod_pos_bound z 10); lia |].
  set (c := ascii_of_N (Z.to_N (48 + z mod 10))) in *.
  assert (digits_val 0 (String c acc)
          = z mod 10 * 10 ^ Z.of_nat (String.length acc) + digits_val 0 acc)
    as Hval.
  { cbn [digits_val]. rewrite digits_val_acc, Hv. lia. }
  destruct (Z.ltb_spec z 10) as [Hsmall | Hbig].
  - rewrite Z.mod_small in Hval by lia.
    split; [by simpl; rewrite Hd |]. split; [simpl; lia |].
    split; [done |]. intros k Hk _. simpl. lia.
  - assert (0 <= z / 10 < 2 ^ Z.of_nat fuel) as Hz'.
    { rewrite Nat2Z.inj_succ, Z.pow_succ_r in Hz by lia.
      split; [apply Z.div_pos; lia |].
      apply Z.div_lt_upper_bound; lia. }
    destruct (IH (z / 10) (String c acc) Hz') as (Ha & Hl & Hvs & Hk).
    { destruct fuel; [| lia]. simpl in Hz'.
      assert (1 <= z / 10) by (apply Z.div_le_lower_bound; lia). lia. }
    { by simpl; rewrite Hd. }
    split; [done |]. split; [simpl in Hl; lia |]. split.
    + rewrite Hvs, Hval. cbn [String.length].
      rewrite Nat2Z.inj_succ, Z.pow_succ_r by lia.
      pose proof (Z.div_mod z 10). lia.
    + intros k Hk0 Hzk. destruct k as [|k]; [lia |].
      destruct k as [|k]; [simpl in Hzk; lia |].
      specialize (Hk (S k)). cbn [String.length] in Hk.
      assert (z / 10 < 10 ^ Z.of_nat (S k)).
      { rewrite (Nat2Z.inj_succ (S k)), Z.pow_succ_r in Hzk by lia.
        apply Z.div_lt_upper_bound; lia. }
      lia.
Qed.

Lemma Z_to_string_spec n :
  0 <= n ->
  let s := Z_to_string n in
  all_chars is_digit s = true
  /\ (0 < String.length s)%nat
  /\ digits_val 0 s = n
  /\ forall k, (0 < k)%nat -> n < 10 ^ Z.of_nat k -> (String.length s <= k)%nat.
Proof.
  intros Hn. unfold Z_to_string.
  destruct (Z.ltb_spec n 0) as [? | _]; [lia |].
  destruct (pos_digits_spec (Z.to_nat (Z.log2 n) + 1) n "") as (Ha & Hl & Hv & Hk).
  - split; [done |]. rewrite Nat2Z.inj_add, Z2Nat.id by apply Z.log2_nonneg.
    destruct (Z.eq_dec n 0) as [-> | ?]; [done |].
    replace (Z.log2 n + Z.of_nat 1) with (Z.succ (Z.log2 n)) by lia.
    apply Z.log2_spec. lia.
  - lia.
  - done.
  - split; [done |]. split; [simpl in Hl; lia |]. split.
    + rewrite Hv. simpl. lia.
    + intros k Hk0 Hnk. specialize (Hk k Hk0 Hnk). simpl in Hk. lia.
Qed.

Lemma digits_val_zeros k (s : string) :
  digits_val 0 (zeros k ++ s) = digits_val 0 s.
Proof. induction k as [|k IH]; [done |]. simpl. apply IH. Qed.

Lemma zeros_spec k :
  all_chars is_digit (zeros k) = true /\ String.length (zeros k) = k.
Proof. induction k as [|k [IHa IHl]]; [done |]. simpl. by rewrite IHa, IHl. Qed.

Lemma zero_pad_spec w n :
  (0 < w)%nat -> 0 <= n < 10 ^ Z.of_nat w ->
  all_chars is_digit (zero_pad w n) = true
  /\ String.length (zero_pad w n) = w
  /\ digits_val 0 (zero_pad w n) = n.
Proof.
  intros Hw [Hn Hlt]. unfold zero_pad. cbv zeta.
  destruct (Z_to_string_spec n Hn) as (Ha & Hl & Hv & Hk).
  specialize (Hk w Hw Hlt).
  destruct (zeros_spec (w - String.length (Z_to_string n))) as [Za Zl].
  rewrite all_chars_app, length_app, digits_val_zeros, Za, Zl, Ha, Hv.
  split; [done |]. split; [lia | done].
Qed.

Lemma digit_cases c :
  is_digit c = true ->
  In c ["0"; "1"; "2"; "3"; "4"; "5"; "6"; "7"; "8"; "9"]%char.
Proof. destruct c as [[] [] [] [] [] [] [] []]; vm_compute; intuition congruence. Qed.

Lemma digit_is_not_space c : is_digit c = true -> is_space c = false.
Proof. destruct c as [[] [] [] [] [] [] [] []]; by vm_compute. Qed.

Lemma span_digits (s : string) :
  all_chars is_digit s = true -> span is_digit s = (s, "").
Proof.
  induction s as [|c s IH]; [done |]. simpl.
  intros [Hc Hs]%andb_true_iff. by rewrite Hc, IH.
Qed.

Lemma trimEnd_digits (s : string) :
  all_chars is_digit s = true -> trimEnd s = s.
Proof.
  induction s as [|c s IH]; [done |]. simpl.
  intros [Hc Hs]%andb_true_iff. rewrite IH by done.
  destruct s; [by rewrite (digit_is_not_space c Hc) | done].
Qed.

Lemma trim_digits (s : string) : all_chars is_digit s = true -> trim s = s.
Proof.
  intros Hs. unfold trim.
  assert (trimStart s = s) as ->; [| by apply trimEnd_digits].
  destruct s as [|c s]; [done |]. simpl in *.
  apply andb_true_iff in Hs as [Hc _]. by rewrite (digit_is_not_space c Hc).
Qed.

Lemma parseInt10_digits (s : string) :
  all_chars is_digit s = true -> (0 < String.length s)%nat ->
  parseInt10 s = of_Z (digits_val 0 s).
Proof.
  destruct s as [|c r]; [simpl; lia |]. intros Hs _.
  pose proof Hs as [Hc Hr]%andb_true_iff.
  unfold parseInt10.
  assert (trimStart (String c r) = String c r) as ->
    by (simpl; by rewrite (digit_is_not_space c Hc)).
  apply digit_cases in Hc. simpl in Hc.
  repeat (destruct Hc as [<- | Hc];
          [simpl; by rewrite (span_digits r Hr) |]).
  done.
Qed.

Lemma decimal_value v :
  scale10 (Qplus (inject_Z v) (Qmake 0 1)) 0 = inject_Z v.
Proof. unfold scale10, Qmult, Qplus, inject_Z. simpl. f_equal. lia. Qed.

Lemma signed_literal_digits (s : string) :
  all_chars is_digit s = true -> (0 < String.length s)%nat ->
  signed_literal false s = of_Z (digits_val 0 s).
Proof.
  destruct s as [|c r]; [simpl; lia |]. intros Hs _.
  unfold signed_literal, decimal_literal. rewrite (span_digits _ Hs).
  assert (String.eqb (String c r) "Infinity" = false) as ->.
  { apply andb_true_iff in Hs as [Hc _]. apply digit_cases in Hc.
    simpl in Hc. by repeat (destruct Hc as [<- | Hc]; [done |]). }
  cbn -[digits_val scale10 Qplus]. unfold of_Z. f_equal.
  apply decimal_value.
Qed.

Lemma Number_digits (s : string) :
  all_chars is_digit s = true -> (0 < String.length s)%nat ->
  Number s = of_Z (digits_val 0 s).
Proof.
  intros Hs Hlen. rewrite <- signed_literal_digits by done.
  unfold Number. rewrite trim_digits by done.
  destruct s as [|c r]; [simpl in Hlen; lia |].
  pose proof Hs as [Hc Hr]%andb_true_iff.
  apply digit_cases in Hc. simpl in Hc.
  destruct Hc as [<- | Hc].
  - destruct r as [|c2 r2]; [done |].
    apply andb_true_iff in Hr as [Hc2 _].
    apply digit_cases in Hc2. simpl in Hc2.
    by repeat (destruct Hc2 as [<- | Hc2]; [done |]).
  - by repeat (destruct Hc as [<- | Hc]; [done |]).
Qed.

Lemma jsnum_eqb_of_Z n : jsnum_eqb (of_Z n) (of_Z n) = true.
Proof.
  unfold jsnum_eqb, of_Z, Q_eqb. cbn [inject_Z Qnum Qden].
  by rewrite Z.eqb_refl, Pos.eqb_refl.
Qed.

(** A padded field is a digit token that reads back as its number. *)
Lemma zero_pad_token w n :
  (0 < w)%nat -> 0 <= n < 10 ^ Z.of_nat w ->
  digit_token w w n (zero_pad w n) = true.
Proof.
  intros Hw Hn. destruct (zero_pad_spec w n Hw Hn) as (Ha & Hl & Hv).
  unfold digit_token.
  rewrite parseInt10_digits, Number_digits, Hv, Ha, Hl by (done || lia).
  by rewrite Nat.leb_refl, jsnum_eqb_of_Z.
Qed.

Lemma Z_to_string_token n :
  0 <= n <= 99 -> digit_token 1 2 n (Z_to_string n) = true.
Proof.
  intros Hn. destruct (Z_to_string_spec n) as (Ha & Hl & Hv & Hk); [lia |].
  specialize (Hk 2%nat). unfold digit_token.
  rewrite parseInt10_digits, Number_digits, Hv, Ha by done.
  assert ((1 <=? String.length (Z_to_string n))%nat = true) as ->
    by (apply Nat.leb_le; lia).
  assert ((String.length (Z_to_string n) <=? 2)%nat = true) as ->
    by (apply Nat.leb_le, Hk; [lia | simpl; lia]).
  by rewrite jsnum_eqb_of_Z.
Qed.
End NumberFacts.

Module DateFacts.
Import JsString JsNumber JsDate.

Lemma year_length y :
  DayFromYear (y + 1) - DayFromYear y = if InLeapYear y then 366 else 365.
Proof.
  unfold DayFromYear, InLeapYear.
  destruct (Z.eqb_spec (y mod 4) 0), (Z.eqb_spec (y mod 100) 0),
    (Z.eqb_spec (y mod 400) 0); simpl;
    Z.to_euclidean_division_equations; lia.
Qed.

Lemma DayFromYear_lt y : DayFromYear y < DayFromYear (y + 1).
Proof. pose proof (year_length y). destruct (InLeapYear y); lia. Qed.

Lemma DayFromYear_mono y y' : y <= y' -> DayFromYear y <= DayFromYear y'.
Proof.
  intros H. unfold DayFromYear. Z.to_euclidean_division_equations. lia.
Qed.

Lemma YearFromTime_spec t :
  DayFromYear (YearFromTime t) <= Day t < DayFromYear (YearFromTime t + 1).
Proof.
  unfold YearFromTime. set (d := Day t). clearbody d. cbv zeta.
  set (y0 := 1970 + d * 400 / 146097).
  assert (DayFromYear (y0 - 1) <= d < DayFromYear (y0 + 2)) as Hest.
  { subst y0. unfold DayFromYear. Z.to_euclidean_division_equations. lia. }
  destruct (Z.ltb_spec d (DayFromYear y0)).
  - replace (y0 - 1 + 1) with y0 by lia. lia.
  - destruct (Z.leb_spec (DayFromYear (y0 + 1)) d).
    + replace (y0 + 1 + 1) with (y0 + 2) by lia. lia.
    + lia.
Qed.

Lemma YearFromTime_unique t y :
  DayFromYear y <= Day t < DayFromYear (y + 1) -> YearFromTime t = y.
Proof.
  intros Hy. pose proof (YearFromTime_spec t) as Hs.
  destruct (Z.lt_trichotomy (YearFromTime t) y) as [Hlt | [? | Hgt]]; [| done |].
  - pose proof (DayFromYear_mono (YearFromTime t + 1) y). lia.
  - pose proof (DayFromYear_mono (y + 1) (YearFromTime t)). lia.
Qed.

Lemma Day_MakeDate day time :
  0 <= time < msPerDay -> Day (MakeDate day time) = day.
Proof.
  intros Ht. unfold Day, MakeDate, msPerDay in *.
  Z.to_euclidean_division_equations. lia.
Qed.

Lemma in_range (k : nat) z : 0 <= z < Z.of_nat k -> In z (List.map Z.of_nat (seq 0 k)).
Proof.
  intros Hz. apply in_map_iff. exists (Z.to_nat z). split; [lia |].
  apply in_seq. lia.
Qed.

(** The month of a day of the year, as [MonthFromTime] counts it. *)
Lemma month_of_day mn leap d :
  0 <= mn <= 11 ->
  DaysBeforeMonth mn leap <= d < DaysBeforeMonth mn leap + DaysInMonth mn leap ->
  0 <= d < 366 ->
  MonthFromDay d leap = mn.
Proof.
  intros Hmn Hd Hyear.
  assert (month_tables_agree leap = true) as Hcheck
    by (destruct leap; by vm_compute).
  unfold month_tables_agree in Hcheck. rewrite forallb_forall in Hcheck.
  specialize (Hcheck d (in_range 366 d Hyear)).
  rewrite forallb_forall in Hcheck.
  specialize (Hcheck mn (in_range 12 mn ltac:(lia))).
  assert ((DaysBeforeMonth mn leap <=? d)
          && (d <? DaysBeforeMonth mn leap + DaysInMonth mn leap) = true) as Hin.
  { apply andb_true_iff. split; [apply Z.leb_le | apply Z.ltb_lt]; lia. }
  rewrite Hin in Hcheck. simpl in Hcheck. by apply Z.eqb_eq.
Qed.

Lemma month_cases mn :
  0 <= mn <= 11 ->
  In mn [0; 1; 2; 3; 4; 5; 6; 7; 8; 9; 10; 11].
Proof. intros H. simpl. lia. Qed.

(** A month lies within its year. *)
Lemma month_within_year mn leap :
  0 <= mn <= 11 ->
  0 <= DaysBeforeMonth mn leap
  /\ 1 <= DaysInMonth mn leap
  /\ DaysBeforeMonth mn leap + DaysInMonth mn leap
     <= (if leap then 366 else 365).
Proof.
  intros Hcases%month_cases. simpl in Hcases.
  destruct leap;
    repeat (destruct Hcases as [<- | Hcases]; [by vm_compute |]); done.
Qed.

(** The getters read back the day that [MakeDay] was given, for a day
    that exists in its month. *)
Lemma MakeDay_fields year mn dt time :
  0 <= mn <= 11 -> 1 <= dt <= DaysInMonth mn (InLeapYear year) ->
  0 <= time < msPerDay ->
  let t := MakeDate (MakeDay year mn dt) time in
  YearFromTime t = year /\ MonthFromTime t = mn /\ DateFromTime t = dt.
Proof.
  intros Hmn Hdt Htime t.
  assert (Day t = MakeDay year mn dt) as Hday by (by apply Day_MakeDate).
  assert (mn / 12 = 0 /\ mn mod 12 = mn) as [Hq Hr]
    by (Z.to_euclidean_division_equations; lia).
  assert (MakeDay year mn dt
          = DayFromYear year + DaysBeforeMonth mn (InLeapYear year) + dt - 1)
    as Hmk.
  { unfold MakeDay. cbv zeta. rewrite Hq, Hr, Z.add_0_r. done. }
  pose proof (year_length year) as Hlen.
  pose proof (month_within_year mn (InLeapYear year) Hmn) as (Hlo & Hone & Hhi).
  assert (YearFromTime t = year) as Hyear.
  { apply YearFromTime_unique. rewrite Hday, Hmk. lia. }
  split; [done |].
  assert (DayWithinYear t = DaysBeforeMonth mn (InLeapYear year) + dt - 1)
    as Hwithin.
  { unfold DayWithinYear. rewrite Hyear, Hday, Hmk. lia. }
  assert (MonthFromTime t = mn) as Hmonth.
  { unfold MonthFromTime. rewrite Hyear, Hwithin.
    apply month_of_day; [done | lia |].
    destruct (InLeapYear year); lia. }
  split; [done |].
  unfold DateFromTime. rewrite Hmonth, Hyear, Hwithin. lia.
Qed.
End DateFacts.

Module WireFacts.
Import JsString JsNumber JsDate DateParsing Wire StringFacts.

#[local] Arguments or_zero : simpl never.
#[local] Arguments minus_one : simpl never.

Lemma jsnum_eqb_eq a b : jsnum_eqb a b = true -> a = b.
Proof.
  destruct a as [|x|[pn pd]], b as [|y|[qn qd]]; simpl; try done.
  - intros ->%Bool.eqb_prop. done.
  - unfold Q_eqb. simpl. intros [->%Z.eqb_eq ->%Pos.eqb_eq]%andb_true_iff. done.
Qed.

Lemma head_is_app q (a b : string) : head_is q a = true -> head_is q (a ++ b) = true.
Proof. by destruct a. Qed.

Lemma take_upto_all p n (tok rest : string) :
  all_chars p tok = true -> (String.length tok <= n)%nat ->
  (String.length tok = n \/ stops p rest = true) ->
  take_upto p n (tok ++ rest) = (tok, rest).
Proof.
  revert n. induction tok as [|x tok IH]; intros n Hall Hlen Hstop.
  - simpl. destruct n as [|n]; [by destruct rest |].
    destruct Hstop as [? | Hstop]; [done |].
    destruct rest as [|c rest]; [done |]. simpl in *.
    apply negb_true_iff in Hstop. by rewrite Hstop.
  - simpl in *. apply andb_true_iff in Hall as [Hx Hall].
    destruct n as [|n]; [lia |]. simpl. rewrite Hx.
    rewrite IH; [done | done | lia |].
    destruct Hstop as [? | ?]; [left; lia | by right].
Qed.

Lemma take_class_token p lo hi (tok rest : string) :
  all_chars p tok = true ->
  (lo <= String.length tok <= hi)%nat ->
  (String.length tok = hi \/ stops p rest = true) ->
  take_class p lo hi (tok ++ rest) = Some (tok, rest).
Proof.
  intros Hall [Hlo Hhi] Hstop. unfold take_class.
  rewrite take_upto_all by done.
  by apply Nat.leb_le in Hlo as ->.
Qed.

Lemma spaces1_one (s : string) :
  head_is (fun c => negb (is_space c)) s = true ->
  spaces1 (String " " s) = Some s.
Proof.
  destruct s as [|c s]; [done |]. simpl.
  intros Hc%negb_true_iff. by rewrite Hc.
Qed.

Lemma digit_not_space c : is_digit c = true -> negb (is_space c) = true.
Proof. destruct c as [[] [] [] [] [] [] [] []]; by vm_compute. Qed.

Lemma alpha_not_space c : is_alpha c = true -> negb (is_space c) = true.
Proof. destruct c as [[] [] [] [] [] [] [] []]; by vm_compute. Qed.

Lemma digit_differs (c x : ascii) :
  is_digit c = false -> is_digit x = true -> negb (Ascii.eqb x c) = true.
Proof.
  intros Hc Hx. apply negb_true_iff.
  destruct (Ascii.eqb_spec x c) as [-> | ?]; [congruence | done].
Qed.

Lemma digits_lack (c : ascii) (s : string) :
  is_digit c = false -> all_chars is_digit s = true -> lacks c s = true.
Proof. intros Hc. apply all_chars_weaken. intros x. by apply digit_differs. Qed.

Lemma head_is_weaken (p q : ascii -> bool) (s : string) :
  (forall c, p c = true -> q c = true) -> head_is p s = true -> head_is q s = true.
Proof. intros Hpq. destruct s; simpl; auto. Qed.

Lemma all_head p (s : string) :
  all_chars p s = true -> (0 < String.length s)%nat -> head_is p s = true.
Proof.
  destruct s as [|c s]; simpl; [lia |]. by intros [? ?]%andb_true_iff.
Qed.

(** *** Digit tokens, checked over their whole range *)

Lemma pad2_token n : 0 <= n <= 99 -> digit_token 2 2 n (zero_pad 2 n) = true.
Proof. intros Hn. apply NumberFacts.zero_pad_token; simpl; lia. Qed.

Lemma pad4_token n : 0 <= n <= 9999 -> digit_token 4 4 n (zero_pad 4 n) = true.
Proof. intros Hn. apply NumberFacts.zero_pad_token; simpl; lia. Qed.

Lemma plain_token n : 0 <= n <= 99 -> digit_token 1 2 n (Z_to_string n) = true.
Proof. apply NumberFacts.Z_to_string_token. Qed.

Lemma digit_token_inv lo hi n s :
  digit_token lo hi n s = true ->
  (lo <= String.length s <= hi)%nat /\ all_chars is_digit s = true
  /\ parseInt10 s = of_Z n /\ Number s = of_Z n.
Proof.
  unfold digit_token. rewrite !andb_true_iff.
  intros [[[[Hlo%Nat.leb_le Hhi%Nat.leb_le] Hall] Hp%jsnum_eqb_eq] Hn%jsnum_eqb_eq].
  done.
Qed.

Lemma weekday_token wd :
  all_chars is_alpha (weekday_abbr wd) = true /\ String.length (weekday_abbr wd) = 3%nat.
Proof. by destruct wd. Qed.

Lemma month_token mo :
  all_chars is_alpha (month_abbr mo) = true /\ String.length (month_abbr mo) = 3%nat
  /\ months !! month_abbr mo = Some (month_number mo - 1).
Proof. by destruct mo; vm_compute. Qed.

Lemma day_text_token pad_day t :
  stamp_ok t -> digit_token 1 2 (st_day t) (day_text pad_day t) = true.
Proof.
  intros (_ & Hd & _). destruct pad_day; simpl; [| by apply plain_token].
  apply pad2_token in Hd. unfold digit_token in *.
  rewrite !andb_true_iff in *. destruct Hd as [[[[Hlo Hhi] ?] ?] ?].
  apply Nat.leb_le in Hlo. repeat split; try done. apply Nat.leb_le. lia.
Qed.

Lemma trimStart_head (s : string) :
  head_is (fun c => negb (is_space c)) s = true -> trimStart s = s.
Proof.
  destruct s as [|c s]; [done |]. simpl. intros Hc%negb_true_iff. by rewrite Hc.
Qed.

Lemma digits_head_nonspace (tok rest : string) :
  all_chars is_digit tok = true -> (0 < String.length tok)%nat ->
  head_is (fun c => negb (is_space c)) (tok ++ rest) = true.
Proof.
  intros Hall Hlen. apply head_is_app.
  eapply head_is_weaken; [apply digit_not_space |]. by apply all_head.
Qed.

Lemma alphas_head_nonspace (tok rest : string) :
  all_chars is_alpha tok = true -> (0 < String.length tok)%nat ->
  head_is (fun c => negb (is_space c)) (tok ++ rest) = true.
Proof.
  intros Hall Hlen. apply head_is_app.
  eapply head_is_weaken; [apply alpha_not_space |]. by apply all_head.
Qed.

Ltac token_step :=
  first
    [ rewrite take_class_token
        by (done || lia || (left; lia) || (right; reflexivity))
    | rewrite trimStart_head
        by first [ apply digits_head_nonspace; (done || lia)
                 | apply alphas_head_nonspace; (done || lia) ] ];
  simpl.

Lemma match_rfc2822_encode wd pad_day t :
  stamp_ok t ->
  match_rfc2822 (rfc2822_encode wd pad_day t)
  = Some {| g_day := day_text pad_day t; g_month := month_abbr (st_month t);
            g_year := zero_pad 4 (st_year t); g_hour := zero_pad 2 (st_hour t);
            g_min := zero_pad 2 (st_min t); g_sec := zero_pad 2 (st_sec t) |}.
Proof.
  intros Hok. pose proof Hok as (Hy & Hd & Hh & Hmi & Hs).
  destruct (weekday_token wd) as [Wa Wl].
  destruct (month_token (st_month t)) as (Ma & Ml & _).
  apply (day_text_token pad_day) in Hok.
  apply digit_token_inv in Hok as (Dl & Da & _).
  apply pad4_token, digit_token_inv in Hy as (Yl & Ya & _).
  apply pad2_token, digit_token_inv in Hh as (Hl & Ha & _).
  apply pad2_token, digit_token_inv in Hmi as (Il & Ia & _).
  apply pad2_token, digit_token_inv in Hs as (Sl & Sa & _).
  unfold rfc2822_encode, match_rfc2822. fold (day_text pad_day t).
  repeat token_step. done.
Qed.

Lemma digit_not_alpha c : is_digit c = true -> is_alpha c = false.
Proof. destruct c as [[] [] [] [] [] [] [] []]; by vm_compute. Qed.

Lemma match_rfc2822_digit_head (s : string) :
  head_is is_digit s = true -> match_rfc2822 s = None.
Proof.
  destruct s as [|c s]; [done |]. simpl. intros Hc%digit_not_alpha.
  unfold match_rfc2822, take_class. simpl. by rewrite Hc.
Qed.

Lemma lacks_cons c x (s : string) :
  lacks c (String x s) = negb (Ascii.eqb x c) && lacks c s.
Proof. done. Qed.

Lemma replace_at c by_ (a b : string) :
  lacks c a = true -> replace c by_ (a ++ String c b) = a ++ by_ ++ b.
Proof.
  induction a as [|x a IH]; simpl.
  - intros _. by rewrite Ascii.eqb_refl.
  - intros [Hx Hs]%andb_true_iff.
    apply negb_true_iff in Hx. rewrite Hx. by rewrite IH.
Qed.

Lemma or_zero_of_Z z : or_zero (Some (of_Z z)) = of_Z z.
Proof. unfold or_zero, of_Z. simpl. by destruct (Z.eqb_spec z 0) as [-> | ?]. Qed.

Lemma minus_one_month mo :
  minus_one (Some (of_Z (month_number mo))) = of_Z (month_number mo - 1).
Proof. by destruct mo. Qed.

Ltac solve_lacks :=
  rewrite ?lacks_app, ?lacks_cons;
  repeat (apply andb_true_intro; split);
  first [ assumption | reflexivity | by apply digits_lack ].

Lemma iso_date_eq t :
  iso_date t
  = zero_pad 4 (st_year t)
    ++ String "-" (zero_pad 2 (month_number (st_month t))
                   ++ String "-" (zero_pad 2 (st_day t))).
Proof. done. Qed.

Lemma iso_time_eq t :
  iso_time t
  = zero_pad 2 (st_hour t)
    ++ String ":" (zero_pad 2 (st_min t) ++ String ":" (zero_pad 2 (st_sec t))).
Proof. done. Qed.

Lemma truthy_head p (s : string) : head_is p s = true -> truthy (Some s) = true.
Proof. by destruct s. Qed.

Lemma iso_encode_halves space_sep t :
  iso_encode space_sep t
  = iso_date t ++ String (if space_sep then " " else "T")%char (iso_time t).
Proof.
  unfold iso_encode, iso_date, iso_time.
  rewrite !append_assoc'. by destruct space_sep.
Qed.

Section WithEnv.
Variable env : Env.

Lemma parseLocalDate_rfc2822 wd pad_day t :
  stamp_ok t ->
  parseLocalDate env (Some (rfc2822_encode wd pad_day t)) = stamp_date env t.
Proof.
  intros Hok. pose proof (match_rfc2822_encode wd pad_day t Hok) as Hm.
  pose proof Hok as (Hy & Hd & Hh & Hmi & Hs).
  destruct (month_token (st_month t)) as (_ & _ & Mv).
  pose proof (day_text_token pad_day t Hok) as Dt.
  apply digit_token_inv in Dt as (_ & _ & Dv & _).
  apply pad4_token, digit_token_inv in Hy as (_ & _ & Yv & _).
  apply pad2_token, digit_token_inv in Hh as (_ & _ & Hv & _).
  apply pad2_token, digit_token_inv in Hmi as (_ & _ & Iv & _).
  apply pad2_token, digit_token_inv in Hs as (_ & _ & Sv & _).
  unfold parseLocalDate.
  destruct (rfc2822_encode wd pad_day t) as [|c s] eqn:E.
  { by destruct wd. }
  rewrite Hm. simpl. rewrite Mv, Dv, Yv, Hv, Iv, Sv. done.
Qed.

Lemma parse_iso_encode space_sep t :
  stamp_ok t -> parse_iso env (iso_encode space_sep t) = stamp_date env t.
Proof.
  intros (Hy & Hd & Hh & Hmi & Hs).
  assert (0 <= month_number (st_month t) <= 99) as Hm
    by (destruct (st_month t); simpl; lia).
  apply pad4_token, digit_token_inv in Hy as (Yl & Ya & _ & Yv).
  apply pad2_token, digit_token_inv in Hm as (Ml & Ma & _ & Mv).
  apply pad2_token, digit_token_inv in Hd as (Dl & Da & _ & Dv).
  apply pad2_token, digit_token_inv in Hh as (Hl & Ha & _ & Hv).
  apply pad2_token, digit_token_inv in Hmi as (Il & Ia & _ & Iv).
  apply pad2_token, digit_token_inv in Hs as (Sl & Sa & _ & Sv).
  assert (forall c, is_digit c = false -> negb (Ascii.eqb "-" c) = true ->
            lacks c (iso_date t) = true) as Ldate.
  { intros c Hc Hdash. unfold iso_date. solve_lacks. }
  assert (forall c, is_digit c = false -> negb (Ascii.eqb ":" c) = true ->
            lacks c (iso_time t) = true) as Ltime.
  { intros c Hc Hcolon. unfold iso_time. solve_lacks. }
  unfold parse_iso.
  assert (replace " " "T" (iso_encode space_sep t)
          = iso_date t ++ String "T" (iso_time t)) as ->.
  { rewrite iso_encode_halves. destruct space_sep.
    - rewrite replace_at by (by apply Ldate). done.
    - apply replace_lacks. rewrite lacks_app, lacks_cons.
      rewrite Ldate, Ltime by done. done. }
  rewrite (split_lacks "+")
    by (rewrite lacks_app, lacks_cons, Ldate, Ltime by done; done).
  simpl List.hd.
  rewrite replace_lacks
    by (rewrite lacks_app, lacks_cons, Ldate, Ltime by done; done).
  rewrite split_at by (by apply Ldate).
  rewrite split_lacks by (by apply Ltime).
  assert (truthy (Some (iso_date t)) = true) as Tdate.
  { apply (truthy_head is_digit). unfold iso_date.
    apply head_is_app, all_head; [done | lia]. }
  assert (truthy (Some (iso_time t)) = true) as Ttime.
  { apply (truthy_head is_digit). unfold iso_time.
    apply head_is_app, all_head; [done | lia]. }
  simpl lookup. rewrite Tdate, Ttime. simpl negb. cbv iota.
  simpl or_empty.
  rewrite iso_date_eq, iso_time_eq.
  rewrite !split_at, !split_lacks by (by apply digits_lack).
  simpl. rewrite Yv, Mv, Dv, Hv, Iv, Sv.
  rewrite !or_zero_of_Z, minus_one_month. done.
Qed.

Lemma trunc_of_Z z : trunc (inject_Z z) = z.
Proof. unfold trunc. simpl. apply Z.quot_1_r. Qed.

Lemma stamp_date_value t :
  zone_faithful_at env (stamp_local_time t) ->
  stamp_date env t = DateValue (utc_of_local env (stamp_local_time t)).
Proof.
  intros [Hrange _]. unfold stamp_date, Date_of_fields, of_Z.
  rewrite !trunc_of_Z. fold (stamp_local_time t). unfold TimeClip.
  by apply Z.leb_le in Hrange as ->.
Qed.

Lemma stamp_date_clock t :
  zone_faithful_at env (stamp_local_time t) -> clock_ok t ->
  getHours env (stamp_date env t) = Some (st_hour t)
  /\ getMinutes env (stamp_date env t) = Some (st_min t)
  /\ getSeconds env (stamp_date env t) = Some (st_sec t).
Proof.
  intros Hz (Hh & Hm & Hs). rewrite (stamp_date_value t Hz).
  destruct Hz as [_ Hback].
  unfold getHours, getMinutes, getSeconds, local_field. rewrite Hback.
  unfold stamp_local_time, MakeDate, MakeTime.
  set (day := MakeDay _ _ _). clearbody day.
  unfold HourFromTime, MinFromTime, SecFromTime,
    msPerDay, msPerHour, msPerMinute, msPerSecond.
  repeat split; f_equal; Z.to_euclidean_division_equations; lia.
Qed.

Lemma clock_time_of_day t :
  clock_ok t ->
  0 <= MakeTime (st_hour t) (st_min t) (st_sec t) 0 < msPerDay.
Proof.
  intros (Hh & Hm & Hs).
  unfold MakeTime, msPerDay, msPerHour, msPerMinute, msPerSecond. lia.
Qed.

(** A timestamp of the calendar and the clock comes back from the getters
    as it was written (a year below 100 counts from 1900, as the [Date]
    constructor has it). *)
Lemma stamp_date_fields t :
  zone_faithful_at env (stamp_local_time t) -> calendar_ok t -> clock_ok t ->
  local_fields env (stamp_date env t)
  = [Some (MakeFullYear (st_year t)); Some (month_number (st_month t) - 1);
     Some (st_day t); Some (st_hour t); Some (st_min t); Some (st_sec t)].
Proof.
  intros Hz Hcal Hclock.
  destruct (stamp_date_clock t Hz Hclock) as (Hh & Hm & Hs).
  unfold local_fields. rewrite Hh, Hm, Hs.
  rewrite (stamp_date_value t Hz). destruct Hz as [_ Hback].
  unfold getFullYear, getMonth, getDate, local_field. rewrite Hback.
  destruct (DateFacts.MakeDay_fields (MakeFullYear (st_year t))
              (month_number (st_month t) - 1) (st_day t)
              (MakeTime (st_hour t) (st_min t) (st_sec t) 0))
    as (Hy & Hmo & Hd).
  - destruct (st_month t); simpl; lia.
  - exact Hcal.
  - by apply clock_time_of_day.
  - unfold stamp_local_time. by rewrite Hy, Hmo, Hd.
Qed.

Lemma parseLocalDate_iso space_sep t :
  stamp_ok t ->
  parseLocalDate env (Some (iso_encode space_sep t)) = stamp_date env t.
Proof.
  intros Hok. pose proof Hok as (Hy & _).
  apply pad4_token, digit_token_inv in Hy as (Yl & Ya & _).
  assert (head_is is_digit (iso_encode space_sep t) = true) as Hhead.
  { unfold iso_encode. apply head_is_app, all_head; [done | lia]. }
  unfold parseLocalDate.
  destruct (iso_encode space_sep t) as [|c s] eqn:E; [done |].
  rewrite match_rfc2822_digit_head by done.
  rewrite <- E. by apply parse_iso_encode.
Qed.

Lemma split_cons c (s : string) :
  exists first rest, split c s = first :: rest.
Proof.
  induction s as [|x s (first & rest & IH)]; simpl; [by eexists _, _ |].
  destruct (Ascii.eqb x c); [by eexists _, _ |]. rewrite IH. by eexists _, _.
Qed.

Lemma parse_iso_year_NaN (s : string) :
  iso_date_part s <> "" -> Number (iso_year_text s) = JNaN ->
  parse_iso env s = InvalidDate.
Proof.
  unfold iso_year_text, iso_date_part, parse_iso.
  set (clean := replace "Z" "" _).
  destruct (split_cons "T" clean) as (datePart & rest & ->).
  cbn [List.hd lookup list_lookup]. intros Hne.
  destruct datePart as [|d datePart]; [done |].
  cbn [truthy negb or_empty default from_option id].
  destruct (split_cons "-" (String d datePart)) as (year & rest' & ->).
  cbn [List.hd List.map lookup list_lookup of_undefined default from_option id].
  intros ->. by destruct (truthy _).
Qed.

(** C2. For a timestamp with a four-digit year and two-digit fields,
    the RFC-2822-style form and the ISO form parse to the same [Date]
    value, hence to the same local year, month, day, hour, minute and
    second: the value built from the numeric fields as a local time,
    the [GMT] suffix being ignored. For a day of the calendar and a
    time of the clock, in a zone without a gap at that time, the
    fields come back as written, not shifted; in particular
    ["Wed, 18 Feb 2026 19:30:00 GMT"] reads as 2026-02-18 19:30:00
    local time. *)
Theorem parseLocalDate_encodings_agree wd pad_day space_sep t :
  stamp_ok t ->
  let rfc := parseLocalDate env (Some (rfc2822_encode wd pad_day t)) in
  let iso := parseLocalDate env (Some (iso_encode space_sep t)) in
  rfc = iso
  /\ local_fields env rfc = local_fields env iso
  /\ rfc = stamp_date env t
  /\ (zone_faithful_at env (stamp_local_time t) ->
      calendar_ok t -> clock_ok t ->
      local_fields env rfc
      = [Some (MakeFullYear (st_year t));
         Some (month_number (st_month t) - 1); Some (st_day t);
         Some (st_hour t); Some (st_min t); Some (st_sec t)])
  /\ (zone_faithful_at env (stamp_local_time Samples.feb18) ->
      local_fields env
        (parseLocalDate env (Some "Wed, 18 Feb 2026 19:30:00 GMT"))
      = [Some 2026; Some 1; Some 18; Some 19; Some 30; Some 0]).
Proof.
  intros Hok rfc iso. subst rfc iso.
  rewrite parseLocalDate_rfc2822, parseLocalDate_iso by done.
  split; [done |]. split; [done |]. split; [done |]. split.
  - apply stamp_date_fields.
  - intros Hz.
    change "Wed, 18 Feb 2026 19:30:00 GMT"
      with (rfc2822_encode Wed false Samples.feb18).
    rewrite parseLocalDate_rfc2822 by (unfold stamp_ok; simpl; lia).
    rewrite stamp_date_fields; [done | done | |].
    + unfold calendar_ok. by vm_compute.
    + unfold clock_ok. simpl. lia.
Qed.

(** C7, as the code has it. A missing or empty input gives the current
    time, and the parser is total: it returns a [Date] for every
    string. An input that cannot be parsed is not mapped to the
    current time: when it lacks the RFC shape and the text that stands
    for its year is not a number, the result is an invalid date. *)
Theorem parseLocalDate_fallback :
  parseLocalDate env None = Date_now env
  /\ parseLocalDate env (Some "") = Date_now env
  /\ (forall s, s <> "" -> match_rfc2822 s = None ->
       iso_date_part s <> "" -> Number (iso_year_text s) = JNaN ->
       parseLocalDate env (Some s) = InvalidDate).
Proof.
  split; [done |]. split; [done |].
  intros s Hs Hrfc Hpart Hyear. unfold parseLocalDate.
  destruct s as [|c s]; [done |]. rewrite Hrfc.
  by apply parse_iso_year_NaN.
Qed.

End WithEnv.

Lemma garbage_not_wire_encoded : ~ wire_encoded "garbage".
Proof.
  intros (t & Hok & [(wd & pad_day & E) | (space_sep & E)]).
  - unfold rfc2822_encode in E. by destruct wd.
  - pose proof Hok as (Hy & _).
    apply pad4_token, digit_token_inv in Hy as (Yl & Ya & _).
    assert (head_is is_digit (iso_encode space_sep t) = true) as Hhead.
    { unfold iso_encode. apply head_is_app, all_head; [done | lia]. }
    by rewrite <- E in Hhead.
Qed.

(** C7, counterexample. ["garbage"] is in neither wire form, and what
    [parseLocalDate] returns for it is an invalid date, not the current
    time. *)
Lemma parseLocalDate_garbage_is_invalid :
  ~ wire_encoded "garbage"
  /\ parseLocalDate Samples.eastern (Some "garbage") = InvalidDate
  /\ parseLocalDate Samples.eastern (Some "garbage")
     <> Date_now Samples.eastern.
Proof.
  split; [apply garbage_not_wire_encoded |]. split; [by vm_compute |].
  by vm_compute.
Qed.

End WireFacts.

Module FilterFacts.
Import JsString JsNumber JsDate DateParsing Exn JsObject Store Filter FilterSpec.

Lemma prefix_spec (needle hay : string) :
  String.prefix needle hay = true <-> exists after, hay = needle ++ after.
Proof.
  revert needle. induction hay as [|h hay IH]; intros [|c needle]; simpl.
  - split; [intros _; by exists "" | done].
  - split; [done | intros [after ?]; done].
  - split; [intros _; by exists (String h hay) | done].
  - destruct (Ascii.ascii_dec c h) as [-> | Hne].
    + rewrite IH. split; intros [after ?]; exists after; congruence.
    + split; [done | intros [after ?]; congruence].
Qed.

Lemma includes_spec (hay needle : string) :
  includes hay needle = true <-> substring_of needle hay.
Proof.
  unfold substring_of. induction hay as [|h hay IH].
  - cbn [includes]. rewrite orb_false_r, prefix_spec. split.
    + intros [after ->]. by exists "", after.
    + intros ([|b before] & after & E); [by exists after | done].
  - cbn [includes]. rewrite orb_true_iff, IH, prefix_spec. split.
    + intros [[after ->] | (before & after & ->)].
      * by exists "", after.
      * by exists (String h before), after.
    + intros ([|b before] & after & E).
      * left. by exists after.
      * right. exists before, after. simpl in E. congruence.
Qed.

(** *** Lower case *)

Lemma toLowerCase_app (a b : string) :
  toLowerCase (a ++ b) = toLowerCase a ++ toLowerCase b.
Proof. induction a as [|c a IH]; simpl; [done | by rewrite IH]. Qed.

Lemma lower_char_spelled (k w : ascii) :
  (Ascii.eqb w k && negb (is_capital k))
  || (((97 <=? code k) && (code k <=? 122))%N && (code w =? code k - 32)%N)
  = true ->
  lower_char w = k.
Proof.
  intros [[->%Ascii.eqb_eq Hk]%andb_true_iff
         | [Hk Hw%N.eqb_eq]%andb_true_iff]%orb_true_iff.
  - unfold lower_char. unfold is_capital in Hk.
    apply negb_true_iff in Hk. by rewrite Hk.
  - assert (w = ascii_of_N (code k - 32)) as ->.
    { unfold code in *. rewrite <- Hw. by rewrite ascii_N_embedding. }
    clear Hw. destruct k as [[] [] [] [] [] [] [] []]; by vm_compute in Hk |- *.
Qed.

Lemma toLowerCase_spelled (kw written : string) :
  spelled_as kw written = true -> toLowerCase written = kw.
Proof.
  revert written. induction kw as [|k kw IH]; intros [|w written]; try done.
  cbn [spelled_as toLowerCase]. intros [Hc Hrest]%andb_true_iff.
  by rewrite (lower_char_spelled k w Hc), (IH written Hrest).
Qed.

Lemma substring_lower (needle hay : string) :
  substring_of needle hay -> substring_of (toLowerCase needle) (toLowerCase hay).
Proof.
  intros (before & after & ->). exists (toLowerCase before), (toLowerCase after).
  by rewrite !toLowerCase_app.
Qed.

(** *** The lookup in the table *)

Lemma all_not_inherited : ~ inherited_name "all".
Proof. intros [_ Hin]. by vm_compute in Hin; repeat (apply elem_of_cons in Hin as [? | Hin]; [done |]); apply elem_of_nil in Hin. Qed.

Lemma get_property_cases (name : string) :
  match get_property NEIGHBORHOOD_KEYWORDS name with
  | OwnValue keywords => NEIGHBORHOOD_KEYWORDS !! name = Some keywords
  | Inherited => inherited_name name
  | Undefined =>
      NEIGHBORHOOD_KEYWORDS !! name = None /\ ~ inherited_name name
  end.
Proof.
  unfold get_property, inherited_name.
  destruct (NEIGHBORHOOD_KEYWORDS !! name) as [keywords|]; [done |].
  destruct (bool_decide_reflect (name ∈ Object_prototype_keys)); [done |].
  split; [done | by intros [_ ?]].
Qed.

(** The inherited names are none of the keys that the other two
    object literals of the page are looked up with: three letters for
    [months], a text with a [-] for [byDay]. *)
Lemma inherited_keys_apart :
  Forall (fun key => String.length key <> 3%nat /\ lacks "-" key = true)
         Object_prototype_keys.
Proof. repeat constructor; by vm_compute. Qed.

Lemma get_property_inherited (name : string) :
  inherited_name name -> get_property NEIGHBORHOOD_KEYWORDS name = Inherited.
Proof.
  intros [Hnone Hin]. unfold get_property. rewrite Hnone.
  by rewrite bool_decide_eq_true_2.
Qed.

Section WithEnv.
Variable env : Env.

Lemma matchesCategory_spec st e :
  matchesCategory st e = true <-> category_ok st e.
Proof.
  unfold matchesCategory, category_ok. rewrite orb_true_iff, String.eqb_eq.
  destruct (ev_category e) as [c|].
  - rewrite String.eqb_eq. split; intros [? | ?]; auto; right; congruence.
  - split; intros [? | ?]; auto; done.
Qed.

Lemma matchesMonth_spec st e :
  matchesMonth env st e = true <-> month_ok env st e.
Proof.
  unfold matchesMonth, month_ok.
  destruct (String.eqb_spec (currentMonth st) "all") as [E | E]; cbn [negb].
  - split; auto.
  - rewrite String.eqb_eq. split; [auto | by intros [? | ?]].
Qed.

Lemma matchesSource_spec st e :
  matchesSource st e = true <-> source_ok st e.
Proof.
  unfold matchesSource, source_ok.
  by rewrite orb_true_iff, !String.eqb_eq.
Qed.

(** Under a name that the table inherits, the neighbourhood predicate
    throws, whatever the event. *)
Lemma matchesNeighborhood_throws st e :
  inherited_name (currentNeighborhood st) ->
  matchesNeighborhood st e = Throw (NotAFunction "keywords.some").
Proof.
  intros Hin. unfold matchesNeighborhood.
  destruct (String.eqb_spec (currentNeighborhood st) "all") as [E | E];
    cbn [negb].
  - rewrite E in Hin. by destruct all_not_inherited.
  - by rewrite get_property_inherited.
Qed.

Lemma matchesNeighborhood_spec st e :
  ~ inherited_name (currentNeighborhood st) ->
  exists b, matchesNeighborhood st e = Ok b
            /\ (b = true <-> neighborhood_ok st e).
Proof.
  intros Hnot. unfold matchesNeighborhood, neighborhood_ok.
  destruct (String.eqb_spec (currentNeighborhood st) "all") as [E | E];
    cbn [negb].
  - exists true. split; [done |]. split; auto.
  - pose proof (get_property_cases (currentNeighborhood st)) as Hcases.
    destruct (get_property NEIGHBORHOOD_KEYWORDS (currentNeighborhood st))
      as [keywords | |]; [| done |].
    + eexists. split; [done |]. rewrite existsb_exists. split.
      * intros (kw & Hin & Hkw). right. exists keywords, kw.
        by rewrite <- includes_spec.
      * intros [? | (kws & kw & Hk & Hin & Hkw)]; [done |].
        assert (kws = keywords) as -> by congruence.
        exists kw. by rewrite includes_spec.
    + destruct Hcases as [Hnone _]. exists false. split; [done |].
      split; [done |]. intros [? | (kws & kw & Hk & _)]; congruence.
Qed.

Lemma passesFilters_throws st e :
  inherited_name (currentNeighborhood st) ->
  passesFilters env st e = Throw (NotAFunction "keywords.some").
Proof.
  intros Hin. unfold passesFilters. by rewrite matchesNeighborhood_throws.
Qed.

Lemma passesFilters_spec st e :
  ~ inherited_name (currentNeighborhood st) ->
  exists b, passesFilters env st e = Ok b
            /\ (b = true <-> satisfies_filters env st e).
Proof.
  intros Hnot. destruct (matchesNeighborhood_spec st e Hnot) as (b & Hb & Hiff).
  unfold passesFilters, satisfies_filters. rewrite Hb. eexists.
  split; [done |].
  rewrite !andb_true_iff, matchesCategory_spec, matchesMonth_spec,
    matchesSource_spec, Hiff.
  tauto.
Qed.

Lemma passesFilters_ok st e :
  ~ inherited_name (currentNeighborhood st) ->
  passesFilters env st e = Ok (ok_true (passesFilters env st e)).
Proof.
  intros Hnot. by destruct (passesFilters_spec st e Hnot) as (b & -> & _).
Qed.

Lemma filterM_total {A} (p : A -> result bool) (q : A -> bool) (l : list A) :
  (forall x, In x l -> p x = Ok (q x)) ->
  filterM p l = Ok (List.filter q l).
Proof.
  induction l as [|x l IH]; intros Hp; [done |].
  simpl. rewrite (Hp x) by (by left). simpl.
  rewrite IH by (intros y Hy; apply Hp; by right). done.
Qed.

Lemma filterM_first_throws {A} (p : A -> result bool) (x : A) (l : list A) err :
  p x = Throw err -> filterM p (x :: l) = Throw err.
Proof. intros Hx. simpl. by rewrite Hx. Qed.

(** Without an inherited name selected, [applyFilters] goes through
    and keeps the events that pass. *)
Lemma applyFilters_ok st :
  ~ inherited_name (currentNeighborhood st) ->
  applyFilters env st
  = Ok (set_filteredEvents
          (List.filter (fun e => ok_true (passesFilters env st e)) (allEvents st))
          st).
Proof.
  intros Hnot. unfold applyFilters.
  rewrite (filterM_total _ (fun e => ok_true (passesFilters env st e)));
    [done |].
  intros e _. by apply passesFilters_ok.
Qed.

(** With an inherited name selected, it throws at the first event. *)
Lemma applyFilters_throws st :
  inherited_name (currentNeighborhood st) -> allEvents st <> [] ->
  applyFilters env st = Throw (NotAFunction "keywords.some").
Proof.
  intros Hin Hne. unfold applyFilters.
  destruct (allEvents st) as [|e l]; [done |].
  by rewrite (filterM_first_throws _ e l _ (passesFilters_throws st e Hin)).
Qed.

(** [applyFilters] keeps exactly the events that satisfy every active
    predicate, in the order of the store. *)
Lemma applyFilters_spec st :
  ~ inherited_name (currentNeighborhood st) ->
  exists st', applyFilters env st = Ok st'
    /\ forall e, In e (filteredEvents st')
         <-> In e (allEvents st) /\ satisfies_filters env st e.
Proof.
  intros Hnot. rewrite applyFilters_ok by done. eexists. split; [done |].
  intros e. cbn [filteredEvents set_filteredEvents]. rewrite filter_In.
  destruct (passesFilters_spec st e Hnot) as (b & -> & Hiff).
  cbn [ok_true]. by rewrite Hiff.
Qed.

Lemma matchesSearch_searchable value e :
  searchable e ->
  exists b, matchesSearch (toLowerCase value) e = Ok b
            /\ (b = true <-> search_ok value e).
Proof.
  intros ([t Ht] & [d Hd] & [l Hl]).
  unfold matchesSearch, search_ok. rewrite Ht, Hd, Hl.
  destruct (String.eqb_spec (toLowerCase value) "") as [E | E].
  { exists true. split; [done |]. split; auto. }
  simpl.
  destruct (includes (toLowerCase t) _) eqn:It.
  { exists true. split; [done |]. split; [| done]. intros _. right.
    exists t. split; [by left | by apply includes_spec]. }
  destruct (includes (toLowerCase d) _) eqn:Id.
  { exists true. split; [done |]. split; [| done]. intros _. right.
    exists d. split; [right; by left | by apply includes_spec]. }
  eexists. split; [done |]. split.
  - intros Il. right. exists l.
    split; [right; right; by left | by apply includes_spec].
  - intros [? | (text & Hin & Hsub)]; [done |].
    apply includes_spec in Hsub. simpl in Hin.
    destruct Hin as [[= <-] | [[= <-] | [[= <-] | []]]]; congruence.
Qed.

(** When every event carries the three searched fields (and no
    inherited name is selected), [handleSearch] completes and keeps
    exactly the events that satisfy the filters and the search. *)
Lemma handleSearch_spec value st :
  ~ inherited_name (currentNeighborhood st) ->
  (forall e, In e (allEvents st) -> searchable e) ->
  exists st', handleSearch env value st = Ok st'
    /\ forall e, In e (filteredEvents st')
         <-> In e (allEvents st) /\ satisfies_filters env st e
             /\ search_ok value e.
Proof.
  intros Hnot Hall.
  set (q := fun e => ok_true (passesFilters env st e)
              && ok_true (matchesSearch (toLowerCase value) e)).
  exists (set_filteredEvents (List.filter q (allEvents st)) st). split.
  - unfold handleSearch. erewrite filterM_total; [done |].
    intros e He. destruct (matchesSearch_searchable value e (Hall e He))
      as (b & Hb & _).
    unfold q. rewrite (passesFilters_ok st e Hnot), Hb. done.
  - intros e. simpl. rewrite filter_In. unfold q.
    rewrite andb_true_iff.
    destruct (passesFilters_spec st e Hnot) as (p & -> & Hp).
    cbn [ok_true]. rewrite Hp.
    split.
    + intros (He & Hf & Hs). split; [done |]. split; [done |].
      destruct (matchesSearch_searchable value e (Hall e He)) as (b & Hb & Hiff).
      rewrite Hb in Hs. by apply Hiff.
    + intros (He & Hf & Hs). split; [done |]. split; [done |].
      destruct (matchesSearch_searchable value e (Hall e He)) as (b & Hb & Hiff).
      rewrite Hb. by apply Hiff.
Qed.

Lemma filterM_all_false {A} (p : A -> result bool) (l r : list A) :
  (forall x b, p x = Ok b -> b = false) -> filterM p l = Ok r -> r = [].
Proof.
  intros Hp. revert r. induction l as [|x l IH]; intros r; simpl.
  - by intros [= <-].
  - destruct (p x) as [b | err] eqn:Hx; [| done]. simpl.
    destruct (filterM p l) as [r' | err]; [| done]. simpl.
    rewrite (Hp x b Hx), (IH r' eq_refl). by intros [= <-].
Qed.

(** C6. Under a neighbourhood that is not 'all': for a name that the
    table inherits from [Object.prototype] ('constructor', 'toString',
    ...) the neighbourhood predicate throws, and with it
    [applyFilters] and [handleSearch] on a store that is not empty;
    for a name found nowhere the predicate holds of no event and the
    filtered list is empty, whatever the event list; under a name of
    the table an event passes the predicate exactly when its
    lowercased location contains one of the neighbourhood's keywords,
    so a location that holds a keyword with some letters as capitals
    passes. *)
Theorem neighborhood_predicate st :
  currentNeighborhood st <> "all" ->
  (inherited_name (currentNeighborhood st) ->
     (forall e, matchesNeighborhood st e = Throw (NotAFunction "keywords.some"))
     /\ (allEvents st <> [] ->
         applyFilters env st = Throw (NotAFunction "keywords.some")
         /\ forall value,
              handleSearch env value st = Throw (NotAFunction "keywords.some")))
  /\ (NEIGHBORHOOD_KEYWORDS !! currentNeighborhood st = None ->
      ~ inherited_name (currentNeighborhood st) ->
      (forall e, matchesNeighborhood st e = Ok false)
      /\ applyFilters env st = Ok (set_filteredEvents [] st)
      /\ (forall value st', handleSearch env value st = Ok st' ->
            filteredEvents st' = []))
  /\ (forall keywords,
       NEIGHBORHOOD_KEYWORDS !! currentNeighborhood st = Some keywords ->
       (forall e, exists b,
          matchesNeighborhood st e = Ok b
          /\ (b = true
              <-> exists kw, In kw keywords
                    /\ substring_of kw (toLowerCase (or_empty (ev_location e)))))
       /\ (forall kw written location e,
             In kw keywords -> spelled_as kw written = true ->
             ev_location e = Some location -> substring_of written location ->
             matchesNeighborhood st e = Ok true)).
Proof.
  intros Hsel.
  assert (negb (String.eqb (currentNeighborhood st) "all") = true) as Hb.
  { apply negb_true_iff. by apply String.eqb_neq. }
  split; [| split].
  - intros Hin. split; [intros e; by apply matchesNeighborhood_throws |].
    intros Hne. split; [by apply applyFilters_throws |].
    intros value. unfold handleSearch.
    destruct (allEvents st) as [|e l]; [done |].
    rewrite (filterM_first_throws _ e l (NotAFunction "keywords.some"));
      [done |].
    by rewrite passesFilters_throws.
  - intros Hnone Hnot.
    assert (forall e, matchesNeighborhood st e = Ok false) as Hno.
    { intros e. unfold matchesNeighborhood. rewrite Hb.
      pose proof (get_property_cases (currentNeighborhood st)) as Hcases.
      destruct (get_property NEIGHBORHOOD_KEYWORDS (currentNeighborhood st))
        as [keywords | |]; [congruence | done | done]. }
    assert (forall e, passesFilters env st e = Ok false) as Hpass.
    { intros e. unfold passesFilters. rewrite Hno. cbn.
      by rewrite andb_false_r. }
    split; [done |]. split.
    + rewrite applyFilters_ok by done. do 2 f_equal.
      induction (allEvents st) as [|e l IH]; [done |].
      cbn [List.filter]. by rewrite Hpass.
    + intros value st'. unfold handleSearch.
      destruct (filterM _ (allEvents st)) as [l | err] eqn:Hl; [| done].
      simpl. intros [= <-]. cbn [filteredEvents set_filteredEvents].
      eapply filterM_all_false; [| exact Hl].
      intros e b. cbn beta. rewrite Hpass. cbn.
      destruct (matchesSearch _ e); [| done]. simpl. by intros [= <-].
  - intros keywords Hkw.
    assert (forall e,
              matchesNeighborhood st e
              = Ok (existsb
                      (fun kw => includes (toLowerCase (or_empty (ev_location e))) kw)
                      keywords)) as Hm.
    { intros e. unfold matchesNeighborhood, get_property. by rewrite Hb, Hkw. }
    split.
    + intros e. rewrite Hm. eexists. split; [done |].
      rewrite existsb_exists.
      split; intros (kw & Hin & Hinc); exists kw; (split; [done |]);
        by apply includes_spec.
    + intros kw written location e Hin Hsp Hloc Hsub. rewrite Hm. f_equal.
      apply existsb_exists. exists kw. split; [done |].
      apply includes_spec. rewrite Hloc. cbn [or_empty default from_option id].
      rewrite <- (toLowerCase_spelled kw written Hsp).
      by apply substring_lower.
Qed.

End WithEnv.

(** C1, the failing input. With a query typed into the search box,
    [handleSearch] reads [title], [description] and [location] without
    the guard that the neighbourhood predicate has: on an event sent
    without a location it throws, and no filtered list is produced
    (the same store passes through [applyFilters] without harm). *)
Theorem handleSearch_throws_without_location :
  handleSearch Samples.eastern "jazz" Samples.calendar
  = Throw (TypeError "location")
  /\ ev_location Samples.broad_street_run = None
  /\ In Samples.broad_street_run (allEvents Samples.calendar)
  /\ exists shown,
       applyFilters Samples.eastern Samples.calendar = Ok shown
       /\ ev_id <$> filteredEvents shown = [1; 2; 3].
Proof.
  split; [by vm_compute |]. split; [done |].
  split; [right; by left |].
  eexists. split; by vm_compute.
Qed.

End FilterFacts.

Module RenderFacts.
Import JsString JsNumber JsDate DateParsing Store Render Wire.

Lemma filter_none {A} (P : A -> Prop) `{!forall x, Decision (P x)} (l : list A) :
  (forall x, x ∈ l -> ~ P x) -> filter P l = [].
Proof.
  induction l as [|x l IH]; intros Hl; [done |].
  rewrite filter_cons_False by (apply Hl; left).
  apply IH. intros y Hy. apply Hl. by right.
Qed.

Section WithEnv.
Variable env : Env.

Lemma buckets_ok_empty : buckets_ok env [] (∅, []).
Proof.
  split; simpl.
  - constructor.
  - intros k. rewrite lookup_empty. split; [by intros ?%elem_of_nil | by intros [? ?]].
  - intros k its. by rewrite lookup_empty.
  - by intros it ?%elem_of_nil.
Qed.

Lemma buckets_ok_step seen acc item :
  buckets_ok env seen acc -> buckets_ok env (seen ++ [item]) (addToDay env acc item).
Proof.
  destruct acc as [byDay dayOrder]. intros [Hnd Hkeys Hitems Hseen].
  simpl in *. unfold addToDay.
  set (key := eventKey env item.1).
  destruct (byDay !! key) as [items|] eqn:Hlook.
  - (* the day already has a bucket *)
    split; simpl.
    + done.
    + intros k. rewrite Hkeys. destruct (decide (k = key)) as [-> | Hne].
      * rewrite lookup_insert_eq, Hlook. split; eauto.
      * by rewrite lookup_insert_ne.
    + intros k its. destruct (decide (k = key)) as [-> | Hne].
      * rewrite lookup_insert_eq. intros [= <-].
        destruct (Hitems key items Hlook) as [-> _].
        rewrite filter_app, filter_cons_True by done.
        split; [done |]. by intros [? ?]%app_eq_nil.
      * rewrite lookup_insert_ne by done. intros Hk.
        destruct (Hitems k its Hk) as [-> Hne'].
        rewrite filter_app, filter_cons_False by (fold key; congruence).
        rewrite filter_nil, app_nil_r. done.
    + intros it [Hit | ->%list_elem_of_singleton]%elem_of_app; [auto |].
      apply Hkeys. fold key. eauto.
  - (* the first event of its day *)
    assert (key ∉ dayOrder) as Hfresh.
    { rewrite Hkeys, Hlook. by intros [? ?]. }
    assert (filter (fun it => eventKey env it.1 = key) seen = []) as Hnone.
    { apply filter_none. intros it Hit Hk. apply Hfresh. rewrite <- Hk. auto. }
    split; simpl.
    + apply NoDup_app. split; [done |]. split; [| apply NoDup_singleton].
      intros k Hk ->%list_elem_of_singleton. done.
    + intros k. rewrite elem_of_app, list_elem_of_singleton, Hkeys.
      destruct (decide (k = key)) as [-> | Hne].
      * rewrite lookup_insert_eq. split; eauto.
      * rewrite lookup_insert_ne by done. split; [| auto]. by intros [? | ?].
    + intros k its. destruct (decide (k = key)) as [-> | Hne].
      * rewrite lookup_insert_eq. intros [= <-].
        rewrite filter_app, Hnone, filter_cons_True by done. done.
      * rewrite lookup_insert_ne by done. intros Hk.
        destruct (Hitems k its Hk) as [-> Hne'].
        rewrite filter_app, filter_cons_False by (fold key; congruence).
        rewrite filter_nil, app_nil_r. done.
    + intros it [Hit | ->%list_elem_of_singleton]%elem_of_app.
      * apply elem_of_app. left. auto.
      * apply elem_of_app. right. by apply list_elem_of_singleton.
Qed.

Lemma buckets_ok_foldl items :
  buckets_ok env items (foldl (addToDay env) (∅, []) items).
Proof.
  induction items as [|item items IH] using rev_ind.
  - apply buckets_ok_empty.
  - rewrite foldl_snoc. by apply buckets_ok_step.
Qed.

Lemma elem_of_indexed (events : list Event) e i :
  (e, i) ∈ indexed events <-> events !! i = Some e.
Proof.
  unfold indexed. rewrite elem_of_lookup_imap. split.
  - intros (j & y & [= -> ->] & Hy). done.
  - intros He. by exists i, e.
Qed.

(** The groups of [renderGroupedByDay]: keys in ascending order, none
    twice; the rows of a group are the events of that day, in the
    order of [filteredEvents]; and every event's day has a group. *)
Lemma renderGroupedByDay_groups st :
  let groups := renderGroupedByDay env st in
  let items := indexed (filteredEvents st) in
  Sorted String.le (dg_key <$> groups)
  /\ NoDup (dg_key <$> groups)
  /\ Forall (fun g =>
        dg_rows g
        = (fun it => createEventRow env it.1 it.2)
            <$> filter (fun it => eventKey env it.1 = dg_key g) items
        /\ dg_rows g <> []
        /\ dg_count g = List.length (dg_rows g)
        /\ dg_today g = bool_decide (dg_key g = todayKey env)) groups
  /\ forall it, it ∈ items -> eventKey env it.1 ∈ dg_key <$> groups.
Proof.
  intros groups items. subst groups. unfold renderGroupedByDay. fold items.
  pose proof (buckets_ok_foldl items) as Hok.
  destruct (foldl (addToDay env) (∅, []) items) as [byDay dayOrder].
  destruct Hok as [Hnd Hkeys Hitems Hseen]. simpl in *.
  set (sorted := merge_sort String.le dayOrder).
  assert (sorted ≡ₚ dayOrder) as Hperm by apply merge_sort_Permutation.
  set (mk := fun key : string => _).
  assert (dg_key <$> (List.map mk sorted) = sorted) as Hkeys_eq.
  { change (List.map mk sorted) with (mk <$> sorted).
    rewrite <- list_fmap_compose. apply list_fmap_id. }
  rewrite Hkeys_eq. split; [| split; [| split]].
  - apply Sorted_merge_sort. apply _.
  - by rewrite Hperm.
  - apply Forall_forall. intros g Hg.
    change (List.map mk sorted) with (mk <$> sorted) in Hg.
    apply list_elem_of_fmap in Hg as (key & -> & Hkey).
    rewrite Hperm in Hkey. apply Hkeys in Hkey as [its Hits].
    destruct (Hitems key its Hits) as [Hfilter Hne].
    subst mk. simpl. rewrite Hits. simpl. rewrite <- Hfilter.
    split; [done |]. split.
    { destruct its; [done | done]. }
    split; [by rewrite length_map |].
    destruct (String.eqb_spec key (todayKey env)) as [E | E].
    + by rewrite bool_decide_eq_true_2.
    + by rewrite bool_decide_eq_false_2.
  - intros it Hit. rewrite Hperm. auto.
Qed.

Lemma NoDup_fmap_eq {A B} (f : A -> B) (l : list A) x y :
  NoDup (f <$> l) -> x ∈ l -> y ∈ l -> f x = f y -> x = y.
Proof.
  intros Hnd [i Hi]%list_elem_of_lookup [j Hj]%list_elem_of_lookup Hf.
  assert (i = j) as ->.
  { apply (NoDup_lookup (f <$> l) i j (f x)); [done | |].
    - by rewrite list_lookup_fmap, Hi.
    - by rewrite list_lookup_fmap, Hj, Hf. }
  congruence.
Qed.

(** Day grouping is a partition: the event at position [i] of
    [filteredEvents] has its row in the group of its day and in no
    other group. *)
Lemma renderGroupedByDay_one_group st i e :
  filteredEvents st !! i = Some e ->
  exists g, g ∈ renderGroupedByDay env st
    /\ dg_key g = eventKey env e
    /\ createEventRow env e i ∈ dg_rows g
    /\ forall g', g' ∈ renderGroupedByDay env st ->
          (exists r, r ∈ dg_rows g' /\ row_index r = i) -> g' = g.
Proof.
  intros He.
  destruct (renderGroupedByDay_groups st) as (_ & Hnd & Hrows & Hall).
  rewrite Forall_forall in Hrows.
  assert ((e, i) ∈ indexed (filteredEvents st)) as Hit
    by (by apply elem_of_indexed).
  pose proof (Hall _ Hit) as Hg.
  apply list_elem_of_fmap in Hg as (g & Hkey & Hg).
  simpl in Hkey. exists g. split; [done |]. split; [done |]. split.
  - destruct (Hrows g Hg) as (-> & _).
    apply list_elem_of_fmap. exists (e, i). split; [done |].
    apply list_elem_of_filter. by split.
  - intros g' Hg' (r & Hr & Hri).
    destruct (Hrows g' Hg') as (Hrows' & _). rewrite Hrows' in Hr.
    apply list_elem_of_fmap in Hr as ([e' i'] & -> & Hin).
    apply list_elem_of_filter in Hin as [Hk' Hin]. simpl in *. subst i'.
    apply elem_of_indexed in Hin. assert (e' = e) as -> by congruence.
    apply (NoDup_fmap_eq dg_key (renderGroupedByDay env st)); [done..|].
    congruence.
Qed.

Lemma hasTime_false (d : date) :
  hasTime env d = false
  <-> getHours env d = Some 0 /\ getMinutes env d = Some 0.
Proof.
  unfold hasTime. rewrite orb_false_iff. unfold int_nonzero.
  destruct (getHours env d) as [[| |]|], (getMinutes env d) as [[| |]|];
    split; (intros [? ?]; done).
Qed.

(** C8. The row of an event shows the formatted local start time
    exactly when the hour and the minute of the parsed start time are
    not both zero; at 00:00 it shows the "Time TBD" label, whatever
    the seconds, so a start at midnight reads like a missing time. *)
Theorem createEventRow_time_or_tbd (event : Event) (index : nat) :
  let startDate := parseLocalDate env (ev_start_date event) in
  let midnight :=
    getHours env startDate = Some 0 /\ getMinutes env startDate = Some 0 in
  let row := createEventRow env event index in
  (row_time row = EventTimeTbd <-> midnight)
  /\ (row_time row
        = EventTime (escapeHtml (Some (toLocaleTimeString env startDate)))
      <-> ~ midnight)
  /\ (forall space_sep t,
        ev_start_date event = Some (iso_encode space_sep t) ->
        stamp_ok t -> clock_ok t ->
        zone_faithful_at env (stamp_local_time t) ->
        st_hour t = 0 -> st_min t = 0 ->
        row_time row = EventTimeTbd).
Proof.
  intros startDate midnight row.
  assert (row_time row = EventTimeTbd <-> midnight) as Htbd.
  { subst row midnight. unfold createEventRow. cbn [row_time].
    fold startDate. rewrite <- hasTime_false.
    by destruct (hasTime env startDate). }
  split; [done |]. split.
  - rewrite <- Htbd. subst row. unfold createEventRow. cbn [row_time].
    fold startDate. by destruct (hasTime env startDate).
  - intros space_sep t Hstart Hok Hclock Hzone Hh Hm.
    apply Htbd. subst midnight startDate. rewrite Hstart.
    rewrite WireFacts.parseLocalDate_iso by done.
    destruct (WireFacts.stamp_date_clock env t Hzone Hclock) as (-> & -> & _).
    by rewrite Hh, Hm.
Qed.

End WithEnv.
End RenderFacts.

Module SavesFacts.
Import JsString JsNumber Store Saves.

Lemma set_has_true ids x : set_has ids x = true <-> x ∈ ids.
Proof.
  unfold set_has. rewrite existsb_exists, list_elem_of_In. split.
  - intros (y & Hy & ->%Z.eqb_eq). done.
  - intros Hx. exists x. by rewrite Z.eqb_refl.
Qed.

Lemma set_has_app ids ids' x :
  set_has (ids ++ ids') x = set_has ids x || set_has ids' x.
Proof. apply existsb_app. Qed.

Lemma set_has_add ids x y :
  set_has (set_add ids x) y = set_has ids y || (y =? x).
Proof.
  unfold set_add. destruct (set_has ids x) eqn:Hx.
  - destruct (Z.eqb_spec y x) as [-> | ?]; [| by rewrite orb_false_r].
    by rewrite Hx.
  - rewrite set_has_app. simpl. by rewrite orb_false_r.
Qed.

Lemma set_has_delete ids x y :
  set_has (set_delete ids x) y = set_has ids y && negb (y =? x).
Proof.
  apply eq_true_iff_eq.
  rewrite andb_true_iff, negb_true_iff, !set_has_true, Z.eqb_neq.
  unfold set_delete. rewrite !list_elem_of_In, filter_In, negb_true_iff, Z.eqb_neq.
  intuition congruence.
Qed.

Lemma set_has_flip ids x y :
  set_has (flip_member ids x) y
  = if y =? x then negb (set_has ids x) else set_has ids y.
Proof.
  unfold flip_member. destruct (set_has ids x) eqn:Hx.
  - rewrite set_has_delete. destruct (Z.eqb_spec y x) as [-> | ?]; simpl.
    + by rewrite andb_false_r.
    + by rewrite andb_true_r.
  - rewrite set_has_add. destruct (Z.eqb_spec y x) as [-> | ?]; simpl.
    + by rewrite orb_true_r.
    + by rewrite orb_false_r.
Qed.

Lemma set_has_flip_flip ids x y :
  set_has (flip_member (flip_member ids x) x) y = set_has ids y.
Proof.
  rewrite !set_has_flip. destruct (Z.eqb_spec y x) as [-> | ?]; [| done].
  rewrite Z.eqb_refl. by rewrite negb_involutive.
Qed.

Lemma same_members (a b : list Z) :
  (forall x, set_has a x = set_has b x) ->
  (list_to_set a : gset Z) = list_to_set b.
Proof.
  intros H. apply set_eq. intros x. rewrite !elem_of_list_to_set.
  rewrite <- !set_has_true. by rewrite H.
Qed.

Section WithServer.
Context {Server : Type}.
Variable serve : Server -> Request -> FetchOutcome * Server.

(** [toggleBookmark] as one step on the world. *)
Lemma toggleBookmark_run eventId (w : World Server) :
  let ids := bookmarkedIds (w_app w) in
  let ids' := flip_member ids eventId in
  toggleBookmark eventId w
  = (tt, {| w_app :=
              set_localStorage
                (<[BOOKMARKS_KEY := stringify_ids ids']> (localStorage (w_app w)))
                (set_bookmarkedIds ids' (w_app w));
            w_server := w_server w;
            w_log := w_log w
              ++ [Toast (if set_has ids eventId then "Bookmark removed."
                         else "Event bookmarked!") "success"] |}).
Proof.
  unfold toggleBookmark, flip_member, bind, get_app. simpl.
  destruct (set_has (bookmarkedIds (w_app w)) eventId); reflexivity.
Qed.

Lemma migrate_run ids (w : World Server) :
  exists srv,
    migrate serve ids w
    = (tt, {| w_app := w_app w; w_server := srv;
              w_log := w_log w ++ (Fetched ∘ save_request <$> ids) |}).
Proof.
  revert w. induction ids as [|i ids IH]; intros w; simpl.
  - exists (w_server w). unfold ret. rewrite app_nil_r. by destruct w.
  - unfold bind, fetch.
    destruct (serve (w_server w) (save_request i)) as [out srv].
    destruct (IH {| w_app := w_app w; w_server := srv;
                    w_log := w_log w ++ [Fetched (save_request i)] |})
      as [srv' ->].
    exists srv'. simpl. by rewrite <- app_assoc.
Qed.

Lemma loadUserSaves_run (w : World Server) :
  is_Some (currentUser (w_app w)) ->
  exists saved srv shown,
    loadUserSaves serve w
    = (tt, {| w_app := set_savedEventIds saved (w_app w); w_server := srv;
              w_log := w_log w ++ Fetched saves_request :: shown |})
    /\ omap is_fetch shown = [] /\ existsb is_error_toast shown = false.
Proof.
  intros [u Hu]. unfold loadUserSaves, bind, get_app, fetch. rewrite Hu.
  destruct (serve (w_server w) saves_request) as [[|[data|]] srv]; simpl.
  - exists (savedEventIds (w_app w)), srv, [ConsoleError "Could not load saved events:"].
    unfold emit. simpl. rewrite <- app_assoc. by destruct (w_app w).
  - destruct (success data).
    + exists (set_of_array (event_ids data)), srv, []. done.
    + exists (savedEventIds (w_app w)), srv, []. unfold ret.
      by destruct (w_app w).
  - exists (savedEventIds (w_app w)), srv, [ConsoleError "Could not load saved events:"].
    unfold emit. simpl. rewrite <- app_assoc. by destruct (w_app w).
Qed.



Lemma stringify_ids_nil : stringify_ids [] = "[]".
Proof. done. Qed.

(** The migration at login, step by step. *)
Lemma onLoginSuccess_run user (w : World Server) :
  let ids := bookmarkedIds (w_app w) in
  exists saved srv shown,
    onLoginSuccess serve user w
    = (tt, {| w_app :=
                set_savedEventIds saved
                  (if (0 <? List.length ids)%nat
                   then set_localStorage
                          (<[BOOKMARKS_KEY := "[]"]> (localStorage (w_app w)))
                          (set_bookmarkedIds []
                             (set_currentUser (Some user) (w_app w)))
                   else set_currentUser (Some user) (w_app w));
              w_server := srv;
              w_log := w_log w ++ (Fetched ∘ save_request <$> ids)
                       ++ Fetched saves_request :: shown
                       ++ [Toast ("Welcome, " ++ firstName user ++ "! 🎉")
                                 "success"] |})
    /\ omap is_fetch shown = [] /\ existsb is_error_toast shown = false.
Proof.
  intros ids. unfold onLoginSuccess.
  unfold bind at 1. unfold modify_app at 1.
  unfold bind at 1. unfold get_app at 1. cbn [w_app w_server w_log].
  unfold bind at 1.
  change (bookmarkedIds (set_currentUser (Some user) (w_app w))) with ids.
  set (w0 := {| w_app := set_currentUser (Some user) (w_app w);
                w_server := w_server w; w_log := w_log w |}).
  destruct (0 <? List.length ids)%nat eqn:Hsize.
  - unfold bind at 1. destruct (migrate_run ids w0) as [srv1 ->].
    unfold bind at 1. unfold modify_app at 1. cbn [w_app w_server w_log].
    unfold saveBookmarks, modify_app. cbn [w_app w_server w_log].
    unfold bind at 1.
    match goal with |- context [loadUserSaves serve ?w1] =>
      destruct (loadUserSaves_run w1) as (saved & srv & shown & -> & Hf & He)
    end; [by eexists |].
    exists saved, srv, shown. split; [| done].
    unfold showToast, emit. cbn [w_app w_server w_log fst snd].
    subst w0. cbn [w_app w_server w_log].
    f_equal. f_equal; first [reflexivity | by rewrite <- !app_assoc].
  - unfold ret at 1. unfold bind at 1.
    destruct (loadUserSaves_run w0) as (saved & srv & shown & -> & Hf & He);
      [by eexists |].
    exists saved, srv, shown. split; [| done].
    unfold showToast, emit. cbn [w_app w_server w_log].
    assert (ids = []) as -> by (destruct ids; [done | discriminate]).
    subst w0. cbn [w_app w_server w_log fmap list_fmap app].
    f_equal. f_equal; first [reflexivity | by rewrite <- !app_assoc].
Qed.

Ltac finish_run :=
  split;
  [ unfold modify_app, showToast, emit, ret; cbn [w_app w_server w_log];
    rewrite <- ?app_assoc, ?app_nil_r; reflexivity
  | reflexivity ].

Lemma toggleSave_run_user (eventId : Z) (w : World Server) :
  is_Some (currentUser (w_app w)) ->
  let saved := savedEventIds (w_app w) in
  let answer := serve (w_server w) (toggle_request saved eventId) in
  exists shown,
    toggleSave serve eventId w
    = (tt, {| w_app := if confirmed answer.1
                       then set_savedEventIds (flip_member saved eventId) (w_app w)
                       else w_app w;
              w_server := answer.2;
              w_log := w_log w
                ++ Fetched (toggle_request saved eventId) :: shown |})
    /\ omap is_fetch shown = [].
Proof.
  intros [u Hu] saved answer. subst answer.
  unfold toggleSave, toggleSave_start, toggle_request, flip_member, bind,
    get_app.
  rewrite Hu. fold saved.
  destruct (set_has saved eventId) eqn:Hhas; unfold ret, complete, bind, fetch.
  - destruct (serve (w_server w) (unsave_request eventId))
      as [[|[data|]] srv]; cbn [fst snd confirmed].
    + exists [Toast "Could not update saves. Try again." "error"]. finish_run.
    + destruct (success data).
      * exists [Toast "Removed from saves." "success"]. finish_run.
      * exists []. finish_run.
    + exists [Toast "Could not update saves. Try again." "error"]. finish_run.
  - destruct (serve (w_server w) (save_request eventId))
      as [[|[data|]] srv]; cbn [fst snd confirmed].
    + exists [Toast "Could not update saves. Try again." "error"]. finish_run.
    + destruct (success data).
      * exists [Toast "Event saved! ❤️" "success"]. finish_run.
      * exists []. finish_run.
    + exists [Toast "Could not update saves. Try again." "error"]. finish_run.
Qed.

(** What [toggleSave] does with the answer, on the world as it is
    then. *)
Lemma toggleSave_resume (eventId : Z) (w : World Server) :
  is_Some (currentUser (w_app w)) ->
  let isSaved := set_has (savedEventIds (w_app w)) eventId in
  exists resume,
    toggleSave_start eventId w
    = (Awaiting (toggle_request (savedEventIds (w_app w)) eventId) resume, w)
    /\ forall out (w1 : World Server),
         exists shown,
           resume out w1
           = (tt, {| w_app :=
                       if confirmed out
                       then set_savedEventIds
                              ((if isSaved then set_delete else set_add)
                                 (savedEventIds (w_app w1)) eventId)
                              (w_app w1)
                       else w_app w1;
                     w_server := w_server w1;
                     w_log := w_log w1 ++ shown |})
           /\ omap is_fetch shown = []
           /\ (confirmed out = true -> existsb is_error_toast shown = false).
Proof.
  intros [u Hu] isSaved. subst isSaved.
  unfold toggleSave_start, toggle_request, bind, get_app. rewrite Hu.
  destruct (set_has (savedEventIds (w_app w)) eventId) eqn:Hhas;
    unfold ret; (eexists; split; [reflexivity |]);
    intros [|[data|]] w1; cbn [confirmed].
  - exists [Toast "Could not update saves. Try again." "error"].
    split; [| done]. unfold showToast, emit. by destruct w1.
  - destruct (success data).
    + exists [Toast "Removed from saves." "success"]. done.
    + exists []. split; [| done]. unfold ret. rewrite app_nil_r. by destruct w1.
  - exists [Toast "Could not update saves. Try again." "error"].
    split; [| done]. unfold showToast, emit. by destruct w1.
  - exists [Toast "Could not update saves. Try again." "error"].
    split; [| done]. unfold showToast, emit. by destruct w1.
  - destruct (success data).
    + exists [Toast "Event saved! ❤️" "success"]. done.
    + exists []. split; [| done]. unfold ret. rewrite app_nil_r. by destruct w1.
  - exists [Toast "Could not update saves. Try again." "error"].
    split; [| done]. unfold showToast, emit. by destruct w1.
Qed.

(** C5. Signed in, [toggleSave] sends one request, [DELETE
    /profile/saves/<id>] when the id is in the local mirror of the
    saves and [POST /profile/saves] with the id as [event_id] when it
    is not. While the request is out nothing has changed: the mirror
    is changed only when the answer is there and confirms, and then on
    the set as it is at that time. Signed out, it is [toggleBookmark],
    which sends nothing and always goes through. *)
Theorem toggleSave_by_identity (eventId : Z) (w : World Server) :
  let w' := (toggleSave serve eventId w).2 in
  let saved := savedEventIds (w_app w) in
  match currentUser (w_app w) with
  | Some _ =>
      let rq :=
        if set_has saved eventId
        then {| rq_method := DELETE;
                rq_url := "/profile/saves/" ++ Z_to_string eventId;
                rq_body := None |}
        else {| rq_method := POST; rq_url := "/profile/saves";
                rq_body := Some ("{" ++ String "034" "event_id"
                                 ++ String "034" ":"
                                 ++ Z_to_string eventId ++ "}") |} in
      let answer := serve (w_server w) rq in
      (exists resume,
         toggleSave_start eventId w = (Awaiting rq resume, w)
         /\ toggleSave serve eventId w = resume answer.1 (fetch serve rq w).2
         /\ forall out (w1 : World Server),
              let w2 := (resume out w1).2 in
              w_server w2 = w_server w1
              /\ savedEventIds (w_app w2)
                 = (if confirmed out
                    then (if set_has saved eventId then set_delete else set_add)
                           (savedEventIds (w_app w1)) eventId
                    else savedEventIds (w_app w1))
              /\ (confirmed out = false -> w_app w2 = w_app w1)
              /\ (confirmed out = true ->
                  (eventId ∈ savedEventIds (w_app w2) <-> eventId ∉ saved)
                  /\ forall other, other <> eventId ->
                       (other ∈ savedEventIds (w_app w2)
                        <-> other ∈ savedEventIds (w_app w1)))
              /\ bookmarkedIds (w_app w2) = bookmarkedIds (w_app w1)
              /\ localStorage (w_app w2) = localStorage (w_app w1)
              /\ exists shown, w_log w2 = (w_log w1 ++ shown)%list
                              /\ omap is_fetch shown = [])
      /\ (exists shown, w_log w' = (w_log w ++ Fetched rq :: shown)%list
                     /\ omap is_fetch shown = [])
      /\ w_server w' = answer.2
      /\ savedEventIds (w_app w')
         = (if confirmed answer.1 then flip_member saved eventId else saved)
      /\ bookmarkedIds (w_app w') = bookmarkedIds (w_app w)
      /\ localStorage (w_app w') = localStorage (w_app w)
  | None =>
      toggleSave serve eventId w = toggleBookmark eventId w
      /\ w_server w' = w_server w
      /\ (exists message, w_log w' = (w_log w ++ [Toast message "success"])%list)
      /\ bookmarkedIds (w_app w') = flip_member (bookmarkedIds (w_app w)) eventId
      /\ savedEventIds (w_app w') = saved
  end.
Proof.
  intros w' saved. subst w'.
  destruct (currentUser (w_app w)) as [u|] eqn:Hu.
  - assert ((if set_has saved eventId
             then {| rq_method := DELETE;
                     rq_url := "/profile/saves/" ++ Z_to_string eventId;
                     rq_body := None |}
             else {| rq_method := POST; rq_url := "/profile/saves";
                     rq_body := Some ("{" ++ String "034" "event_id"
                                      ++ String "034" ":"
                                      ++ Z_to_string eventId ++ "}") |})
            = toggle_request saved eventId) as ->.
    { unfold toggle_request. by destruct (set_has saved eventId). }
    split.
    + destruct (toggleSave_resume eventId w) as (resume & Hstart & Hresume);
        [by rewrite Hu |].
      exists resume. split; [done |]. split.
      { unfold toggleSave, bind. rewrite Hstart. cbn [complete].
        unfold bind, fetch. fold saved.
        by destruct (serve (w_server w) (toggle_request saved eventId)). }
      intros out w1. destruct (Hresume out w1) as (shown & -> & Hf & _).
      cbn [snd w_app w_server w_log]. fold saved.
      split; [done |]. split; [by destruct (confirmed out) |].
      split; [by intros -> |].
      split; [| split; [by destruct (confirmed out) |
                        split; [by destruct (confirmed out) | by exists shown]]].
      intros ->. cbn [savedEventIds set_savedEventIds].
      rewrite <- !set_has_true.
      destruct (set_has saved eventId) eqn:Hhas.
      * split.
        -- rewrite set_has_delete, Z.eqb_refl, andb_false_r. by split.
        -- intros other Hne. rewrite <- !set_has_true, set_has_delete.
           apply Z.eqb_neq in Hne. by rewrite Hne, andb_true_r.
      * split.
        -- rewrite set_has_add, Z.eqb_refl, orb_true_r. by split.
        -- intros other Hne. rewrite <- !set_has_true, set_has_add.
           apply Z.eqb_neq in Hne. by rewrite Hne, orb_false_r.
    + destruct (toggleSave_run_user eventId w) as (shown & -> & Hshown);
        [by rewrite Hu |].
      fold saved. cbn [snd w_app w_server w_log].
      split; [by exists shown |]. split; [done |].
      by destruct (confirmed _).
  - assert (toggleSave serve eventId w = toggleBookmark eventId w) as ->.
    { unfold toggleSave, toggleSave_start, bind, get_app. rewrite Hu.
      unfold ret, complete. by destruct (toggleBookmark eventId w) as [[] ?]. }
    rewrite toggleBookmark_run. cbn [snd w_app w_server w_log].
    repeat split; eauto.
Qed.


End WithServer.
End SavesFacts.

Module WorkerFacts.
Import JsString ServiceWorker.

Section Handler.
Context {Caches Rq Rs : Type} `{CacheApi Caches Rq Rs}.
Variable network : Rq -> option Rs.

(** C9. The fetch handler answers from the cache when the request has
    a cached response; otherwise the answer is the network's, and it
    is put into the cache named [CACHE_NAME] exactly when the
    request's URL contains ["/events"]: any other response is passed
    on with the cache storage untouched. *)
Theorem onFetch_cache_first (request : Rq) (caches : Caches) :
  (forall response, caches_match caches request = Some response ->
     onFetch network request caches = (Some response, caches))
  /\ (caches_match caches request = None ->
      forall fetchResponse, network request = Some fetchResponse ->
        (onFetch network request caches).1 = Some fetchResponse
        /\ (events_bearing request = true ->
             (onFetch network request caches).2
             = cache_put CACHE_NAME request fetchResponse caches)
        /\ (events_bearing request = false ->
             (onFetch network request caches).2 = caches))
  /\ (caches_match caches request = None -> network request = None ->
      onFetch network request caches = (None, caches)).
Proof.
  unfold onFetch. split; [| split].
  - by intros response ->.
  - intros -> fetchResponse ->.
    by destruct (events_bearing request).
  - by intros -> ->.
Qed.

End Handler.
End WorkerFacts.

(** * The form, the controls, escaped text, the session and the worker's life
    cycle *)

Module CalendarFacts.
Import JsString JsNumber JsDate Calendar DateFacts.

Lemma month_of_time_range (d : Z) (leap : bool) :
  0 <= d < (if leap then 366 else 365) ->
  let mn := MonthFromDay d leap in
  0 <= mn <= 11
  /\ DaysBeforeMonth mn leap <= d < DaysBeforeMonth mn leap + DaysInMonth mn leap.
Proof.
  intros Hd mn.
  assert (month_contains_day leap = true) as Hcheck
    by (destruct leap; by vm_compute).
  unfold month_contains_day in Hcheck. rewrite forallb_forall in Hcheck.
  assert (In d (List.map Z.of_nat (seq 0 (if leap then 366 else 365)))) as Hin
    by (destruct leap; apply in_range; lia).
  specialize (Hcheck d Hin).
  cbv zeta in Hcheck. fold mn in Hcheck.
  rewrite !andb_true_iff in Hcheck.
  destruct Hcheck as [[[?%Z.leb_le ?%Z.leb_le] ?%Z.leb_le] ?%Z.ltb_lt].
  lia.
Qed.

Lemma months_ordered (leap : bool) (mn mn' : Z) :
  0 <= mn <= 11 -> 0 <= mn' <= 11 -> mn < mn' ->
  DaysBeforeMonth mn leap + DaysInMonth mn leap <= DaysBeforeMonth mn' leap.
Proof.
  intros Hmn Hmn' Hlt.
  assert (months_in_order leap = true) as Hcheck
    by (destruct leap; by vm_compute).
  unfold months_in_order in Hcheck. rewrite forallb_forall in Hcheck.
  specialize (Hcheck mn (in_range 12 mn ltac:(lia))).
  rewrite forallb_forall in Hcheck.
  specialize (Hcheck mn' (in_range 12 mn' ltac:(lia))).
  apply Z.ltb_lt in Hlt. rewrite Hlt in Hcheck. simpl in Hcheck.
  by apply Z.leb_le.
Qed.

(** The calendar fields of a time value: a month of the year, a day of
    that month, and together with the year they give back the day
    number. *)
Lemma fields_of_time t :
  let y := YearFromTime t in
  let mn := MonthFromTime t in
  let dt := DateFromTime t in
  0 <= mn <= 11
  /\ 1 <= dt <= DaysInMonth mn (InLeapYear y)
  /\ Day t = DayFromYear y + DaysBeforeMonth mn (InLeapYear y) + dt - 1.
Proof.
  intros y mn dt.
  pose proof (YearFromTime_spec t) as Hy. fold y in Hy.
  pose proof (year_length y) as Hlen.
  assert (0 <= DayWithinYear t < (if InLeapYear y then 366 else 365)) as Hw.
  { unfold DayWithinYear. fold y. destruct (InLeapYear y); lia. }
  destruct (month_of_time_range (DayWithinYear t) (InLeapYear y) Hw)
    as (Hmn & Hlo & Hhi).
  change (MonthFromDay (DayWithinYear t) (InLeapYear y)) with mn in *.
  split; [done |].
  subst dt. unfold DateFromTime. fold y mn.
  split; [lia |]. unfold DayWithinYear. fold y. lia.
Qed.

Lemma MakeDay_of_fields t :
  MakeDay (YearFromTime t) (MonthFromTime t) (DateFromTime t) = Day t.
Proof.
  destruct (fields_of_time t) as (Hmn & Hdt & Hday).
  unfold MakeDay. cbv zeta.
  assert (MonthFromTime t / 12 = 0 /\ MonthFromTime t mod 12 = MonthFromTime t)
    as [-> ->] by (Z.to_euclidean_division_equations; lia).
  rewrite Z.add_0_r. lia.
Qed.

Lemma clock_of_time t :
  0 <= HourFromTime t <= 23 /\ 0 <= MinFromTime t <= 59
  /\ 0 <= SecFromTime t <= 59.
Proof.
  unfold HourFromTime, MinFromTime, SecFromTime.
  repeat split; Z.to_euclidean_division_equations; lia.
Qed.

(** Day, hour and minute put together again: the time cut back to the
    minute. *)
Lemma MakeDate_of_fields t :
  MakeDate (MakeDay (YearFromTime t) (MonthFromTime t) (DateFromTime t))
           (MakeTime (HourFromTime t) (MinFromTime t) 0 0)
  = minute_floor t.
Proof.
  rewrite MakeDay_of_fields.
  unfold MakeDate, MakeTime, Day, HourFromTime, MinFromTime, minute_floor,
    msPerDay, msPerHour, msPerMinute, msPerSecond.
  Z.to_euclidean_division_equations. lia.
Qed.

Lemma fields_of_minute_floor t :
  YearFromTime (minute_floor t) = YearFromTime t
  /\ MonthFromTime (minute_floor t) = MonthFromTime t
  /\ DateFromTime (minute_floor t) = DateFromTime t
  /\ HourFromTime (minute_floor t) = HourFromTime t
  /\ MinFromTime (minute_floor t) = MinFromTime t
  /\ SecFromTime (minute_floor t) = 0.
Proof.
  assert (Day (minute_floor t) = Day t) as Hday.
  { unfold Day, minute_floor, msPerDay, msPerMinute.
    Z.to_euclidean_division_equations. lia. }
  assert (YearFromTime (minute_floor t) = YearFromTime t) as Hy.
  { unfold YearFromTime. by rewrite Hday. }
  assert (MonthFromTime (minute_floor t) = MonthFromTime t) as Hm.
  { unfold MonthFromTime, DayWithinYear. by rewrite Hy, Hday. }
  split; [done |]. split; [done |]. split.
  { unfold DateFromTime, DayWithinYear. by rewrite Hm, Hy, Hday. }
  unfold HourFromTime, MinFromTime, SecFromTime, minute_floor,
    msPerHour, msPerMinute, msPerSecond.
  repeat split; Z.to_euclidean_division_equations; lia.
Qed.

(** Days compare as their (year, month, day) triples do. *)
Lemma Day_compare t1 t2 :
  (Day t1 ?= Day t2)
  = match YearFromTime t1 ?= YearFromTime t2 with
    | Eq => match MonthFromTime t1 + 1 ?= MonthFromTime t2 + 1 with
            | Eq => DateFromTime t1 ?= DateFromTime t2
            | r => r
            end
    | r => r
    end.
Proof.
  destruct (fields_of_time t1) as (Hm1 & Hd1 & Hday1).
  destruct (fields_of_time t2) as (Hm2 & Hd2 & Hday2).
  pose proof (YearFromTime_spec t1) as Hy1.
  pose proof (YearFromTime_spec t2) as Hy2.
  destruct (Z.compare_spec (YearFromTime t1) (YearFromTime t2)) as [Ey | Hlt | Hgt].
  - rewrite Ey in *.
    set (leap := InLeapYear (YearFromTime t2)) in *.
    destruct (Z.compare_spec (MonthFromTime t1 + 1) (MonthFromTime t2 + 1))
      as [Em | Hmlt | Hmgt].
    + assert (MonthFromTime t1 = MonthFromTime t2) as Em' by lia.
      rewrite Em' in *. rewrite Hday1, Hday2.
      destruct (Z.compare_spec (DateFromTime t1) (DateFromTime t2));
        [apply Z.compare_eq_iff | apply Z.compare_lt_iff | apply Z.compare_gt_iff];
        lia.
    + pose proof (months_ordered leap (MonthFromTime t1) (MonthFromTime t2)
                    Hm1 Hm2 ltac:(lia)).
      apply Z.compare_lt_iff. lia.
    + pose proof (months_ordered leap (MonthFromTime t2) (MonthFromTime t1)
                    Hm2 Hm1 ltac:(lia)).
      apply Z.compare_gt_iff. lia.
  - pose proof (DayFromYear_mono (YearFromTime t1 + 1) (YearFromTime t2)
                  ltac:(lia)).
    apply Z.compare_lt_iff. lia.
  - pose proof (DayFromYear_mono (YearFromTime t2 + 1) (YearFromTime t1)
                  ltac:(lia)).
    apply Z.compare_gt_iff. lia.
Qed.

End CalendarFacts.

Module KeyFacts.
Import JsString JsNumber JsDate DateParsing Store Filter Render Wire Calendar
  StringFacts NumberFacts DateFacts CalendarFacts.

Lemma digit_val_range c : is_digit c = true -> 0 <= digit_val c <= 9.
Proof.
  intros Hc%digit_cases. simpl in Hc.
  repeat (destruct Hc as [<- | Hc]; [by vm_compute |]). done.
Qed.

Lemma digits_val_bound (s : string) :
  all_chars is_digit s = true ->
  0 <= digits_val 0 s < 10 ^ Z.of_nat (String.length s).
Proof.
  induction s as [|c s IH]; [simpl; lia |].
  intros [Hc Hs]%andb_true_iff. specialize (IH Hs).
  pose proof (digit_val_range c Hc).
  cbn [digits_val String.length]. rewrite digits_val_acc.
  rewrite Nat2Z.inj_succ, Z.pow_succ_r by lia. nia.
Qed.

Lemma zeros_0 : zeros 0 = "".
Proof. done. Qed.

(** A number of exactly [w] digits is its own padding. *)
Lemma zero_pad_exact (w : nat) n :
  (0 < w)%nat -> 10 ^ (Z.of_nat w - 1) <= n < 10 ^ Z.of_nat w ->
  Z_to_string n = zero_pad w n.
Proof.
  intros Hw [Hlo Hhi].
  assert (0 <= n) as Hn by (pose proof (Z.pow_pos_nonneg 10 (Z.of_nat w - 1)); lia).
  destruct (Z_to_string_spec n Hn) as (Ha & Hl & Hv & Hk).
  pose proof (digits_val_bound _ Ha) as Hb. rewrite Hv in Hb.
  specialize (Hk w Hw Hhi).
  assert (String.length (Z_to_string n) = w) as Hlen.
  { destruct (Nat.eq_dec (String.length (Z_to_string n)) w) as [? | Hne]; [done |].
    exfalso.
    assert (Z.of_nat (String.length (Z_to_string n)) <= Z.of_nat w - 1) by lia.
    pose proof (Z.pow_le_mono_r 10 _ _ ltac:(lia) H). lia. }
  unfold zero_pad. cbv zeta. rewrite Hlen, Nat.sub_diag. done.
Qed.

Lemma padStart2_pad n :
  0 <= n <= 99 -> padStart2 (Z_to_string n) = zero_pad 2 n.
Proof.
  intros Hn. destruct (Z_to_string_spec n) as (Ha & Hl & Hv & Hk); [lia |].
  specialize (Hk 2%nat ltac:(lia) ltac:(simpl; lia)).
  unfold zero_pad. cbv zeta.
  destruct (Z_to_string n) as [|a [|b [|c r]]]; simpl in *; try lia; done.
Qed.

Lemma ascii_compare_digits x y :
  is_digit x = true -> is_digit y = true ->
  Ascii.compare x y = (digit_val x ?= digit_val y).
Proof.
  intros Hx%digit_cases Hy%digit_cases. simpl in Hx, Hy.
  repeat (destruct Hx as [<- | Hx];
          [repeat (destruct Hy as [<- | Hy]; [by vm_compute |]); done |]).
  done.
Qed.

(** Numbers written with the same number of digits compare as their
    texts do. *)
Lemma compare_digit_strings (a b : string) :
  all_chars is_digit a = true -> all_chars is_digit b = true ->
  String.length a = String.length b ->
  String.compare a b = (digits_val 0 a ?= digits_val 0 b).
Proof.
  revert b. induction a as [|x a IH]; intros [|y b] Ha Hb Hlen;
    try (simpl in Hlen; lia); [done |].
  apply andb_true_iff in Ha as [Hx Ha]. apply andb_true_iff in Hb as [Hy Hb].
  simpl in Hlen. assert (String.length a = String.length b) as Hl by lia.
  cbn [String.compare digits_val].
  rewrite (ascii_compare_digits x y Hx Hy), (IH b Ha Hb Hl).
  rewrite (digits_val_acc (10 * 0 + digit_val x)),
    (digits_val_acc (10 * 0 + digit_val y)).
  pose proof (digits_val_bound a Ha) as Ba.
  pose proof (digits_val_bound b Hb) as Bb.
  rewrite Hl in Ba |- *. set (p := 10 ^ Z.of_nat (String.length b)) in *.
  destruct (Z.compare_spec (digit_val x) (digit_val y)) as [E | Hlt | Hgt].
  - rewrite E.
    destruct (Z.compare_spec (digits_val 0 a) (digits_val 0 b)); symmetry;
      [apply Z.compare_eq_iff | apply Z.compare_lt_iff | apply Z.compare_gt_iff];
      lia.
  - symmetry. apply Z.compare_lt_iff. nia.
  - symmetry. apply Z.compare_gt_iff. nia.
Qed.

Lemma compare_app (a b x y : string) :
  String.length a = String.length b ->
  String.compare (a ++ x) (b ++ y)
  = match String.compare a b with
    | Eq => String.compare x y
    | r => r
    end.
Proof.
  revert b. induction a as [|c a IH]; intros [|d b] Hlen;
    try (simpl in Hlen; lia); [done |].
  simpl. destruct (Ascii.compare c d); [| done | done].
  apply IH. simpl in Hlen. lia.
Qed.

Lemma compare_cons c (x y : string) :
  String.compare (String c x) (String c y) = String.compare x y.
Proof.
  simpl. unfold Ascii.compare. by rewrite N.compare_refl.
Qed.

Section WithEnv.
Variable env : Env.

(** The key of a date with a year of four digits, field by field. *)
Lemma dateKey_padded t :
  let lt := local_of_utc env t in
  1000 <= YearFromTime lt <= 9999 ->
  dateKey env (DateValue t)
  = zero_pad 4 (YearFromTime lt) ++ "-"
    ++ zero_pad 2 (MonthFromTime lt + 1) ++ "-"
    ++ zero_pad 2 (DateFromTime lt).
Proof.
  intros lt Hy.
  destruct (fields_of_time lt) as (Hm & Hd & _).
  pose proof (month_within_year (MonthFromTime lt)
                (InLeapYear (YearFromTime lt)) Hm) as (_ & _ & Hdim).
  assert (DaysInMonth (MonthFromTime lt) (InLeapYear (YearFromTime lt)) <= 31)
    as Hmax.
  { apply month_cases in Hm. simpl in Hm.
    destruct (InLeapYear (YearFromTime lt));
      repeat (destruct Hm as [<- | Hm]; [by vm_compute |]); done. }
  unfold dateKey, getFullYear, getMonth, getDate, local_field. fold lt.
  cbn [int_to_string int_succ fmap option_fmap option_map].
  rewrite (zero_pad_exact 4) by (simpl; lia).
  rewrite !padStart2_pad by lia. done.
Qed.

End WithEnv.

End KeyFacts.

Module FormFacts.
Import JsString JsNumber JsDate DateParsing Store Filter Render Wire Calendar
  EventForm WireForms StringFacts NumberFacts DateFacts WireFacts CalendarFacts KeyFacts.

#[local] Arguments or_zero : simpl never.
#[local] Arguments minus_one : simpl never.

Lemma minus_one_of_Z n : minus_one (Some (of_Z n)) = of_Z (n - 1).
Proof.
  unfold minus_one, of_Z, Qminus, Qplus, Qopp, inject_Z. simpl.
  f_equal. f_equal. lia.
Qed.

Ltac lacks_tac :=
  repeat first [ rewrite lacks_app | rewrite lacks_cons ];
  repeat (apply andb_true_intro; split);
  first [ assumption | reflexivity | by apply digits_lack ].

Lemma reads_as_Z_to_string n : 0 <= n -> reads_as n (Z_to_string n).
Proof.
  intros Hn. destruct (Z_to_string_spec n Hn) as (Ha & Hl & Hv & _). done.
Qed.

Lemma reads_as_pad2 n : 0 <= n <= 99 -> reads_as n (zero_pad 2 n).
Proof.
  intros Hn. destruct (zero_pad_spec 2 n) as (Ha & Hl & Hv); [lia | simpl; lia |].
  split; [done |]. split; [lia | done].
Qed.

Section WithEnv.
Variable env : Env.

(** The ISO branch on [Y-M-DTh:m], a form without seconds. *)
Lemma parse_iso_minutes (y mo d h mi : string) vy vmo vd vh vmi :
  reads_as vy y -> reads_as vmo mo -> reads_as vd d ->
  reads_as vh h -> reads_as vmi mi ->
  parse_iso env (y ++ "-" ++ mo ++ "-" ++ d ++ "T" ++ h ++ ":" ++ mi)
  = Date_of_fields env (of_Z vy) (of_Z (vmo - 1)) (of_Z vd)
      (of_Z vh) (of_Z vmi) (of_Z 0).
Proof.
  intros (Ya & Yl & Yv) (Ma & Ml & Mv) (Da & Dl & Dv) (Ha & Hl & Hv)
    (Ia & Il & Iv).
  set (datePart := y ++ String "-" (mo ++ String "-" d)).
  set (timePart := h ++ String ":" mi).
  assert (y ++ "-" ++ mo ++ "-" ++ d ++ "T" ++ h ++ ":" ++ mi
          = datePart ++ String "T" timePart) as ->.
  { subst datePart timePart. simpl. rewrite !append_assoc'. simpl.
    by rewrite !append_assoc'. }
  assert (forall c, is_digit c = false -> negb (Ascii.eqb "-" c) = true ->
            lacks c datePart = true) as Ldate.
  { intros c Hc Hdash. subst datePart. lacks_tac. }
  assert (forall c, is_digit c = false -> negb (Ascii.eqb ":" c) = true ->
            lacks c timePart = true) as Ltime.
  { intros c Hc Hcolon. subst timePart. lacks_tac. }
  unfold parse_iso.
  rewrite (replace_lacks " ")
    by (rewrite lacks_app, lacks_cons, Ldate, Ltime by done; done).
  rewrite (split_lacks "+")
    by (rewrite lacks_app, lacks_cons, Ldate, Ltime by done; done).
  simpl List.hd.
  rewrite replace_lacks
    by (rewrite lacks_app, lacks_cons, Ldate, Ltime by done; done).
  rewrite split_at by (by apply Ldate).
  rewrite split_lacks by (by apply Ltime).
  assert (truthy (Some datePart) = true) as Tdate.
  { apply (truthy_head is_digit). subst datePart.
    apply head_is_app, all_head; [done | lia]. }
  assert (truthy (Some timePart) = true) as Ttime.
  { apply (truthy_head is_digit). subst timePart.
    apply head_is_app, all_head; [done | lia]. }
  simpl lookup. rewrite Tdate, Ttime. simpl negb. cbv iota.
  simpl or_empty. subst datePart timePart.
  rewrite !split_at, !split_lacks by (by apply digits_lack).
  simpl. rewrite !Number_digits by done.
  rewrite Yv, Mv, Dv, Hv, Iv.
  rewrite !or_zero_of_Z, minus_one_of_Z. done.
Qed.

Lemma toDatetimeLocal_tokens t :
  let lt := local_of_utc env t in
  0 <= YearFromTime lt ->
  toDatetimeLocal env (DateValue t)
  = Z_to_string (YearFromTime lt) ++ "-"
    ++ zero_pad 2 (MonthFromTime lt + 1) ++ "-"
    ++ zero_pad 2 (DateFromTime lt) ++ "T"
    ++ zero_pad 2 (HourFromTime lt) ++ ":"
    ++ zero_pad 2 (MinFromTime lt).
Proof.
  intros lt Hy.
  destruct (fields_of_time lt) as (Hm & Hd & _).
  destruct (clock_of_time lt) as (Hh & Hmi & _).
  assert (DaysInMonth (MonthFromTime lt) (InLeapYear (YearFromTime lt)) <= 31)
    as Hmax.
  { apply month_cases in Hm. simpl in Hm.
    destruct (InLeapYear (YearFromTime lt));
      repeat (destruct Hm as [<- | Hm]; [by vm_compute |]); done. }
  unfold toDatetimeLocal, pad, getFullYear, getMonth, getDate, getHours,
    getMinutes, local_field. fold lt.
  cbn [int_to_string int_succ fmap option_fmap option_map].
  rewrite !padStart2_pad by lia. done.
Qed.

Lemma parseLocalDate_toDatetimeLocal t :
  let lt := local_of_utc env t in
  100 <= YearFromTime lt ->
  parseLocalDate env (Some (toDatetimeLocal env (DateValue t)))
  = TimeClip (utc_of_local env (minute_floor lt)).
Proof.
  intros lt Hy.
  destruct (fields_of_time lt) as (Hm & Hd & _).
  destruct (clock_of_time lt) as (Hh & Hmi & _).
  assert (DaysInMonth (MonthFromTime lt) (InLeapYear (YearFromTime lt)) <= 31)
    as Hmax.
  { apply month_cases in Hm. simpl in Hm.
    destruct (InLeapYear (YearFromTime lt));
      repeat (destruct Hm as [<- | Hm]; [by vm_compute |]); done. }
  rewrite toDatetimeLocal_tokens by (fold lt; lia). fold lt.
  pose proof (reads_as_Z_to_string (YearFromTime lt) ltac:(lia)) as Ry.
  assert (head_is is_digit
            (Z_to_string (YearFromTime lt) ++ "-"
             ++ zero_pad 2 (MonthFromTime lt + 1) ++ "-"
             ++ zero_pad 2 (DateFromTime lt) ++ "T"
             ++ zero_pad 2 (HourFromTime lt) ++ ":"
             ++ zero_pad 2 (MinFromTime lt)) = true) as Hhead.
  { destruct Ry as (Ya & Yl & _). apply head_is_app, all_head; [done | lia]. }
  unfold parseLocalDate.
  destruct (Z_to_string (YearFromTime lt) ++ _) as [|c s] eqn:E; [done |].
  rewrite match_rfc2822_digit_head by done. rewrite <- E.
  rewrite (parse_iso_minutes _ _ _ _ _ (YearFromTime lt) (MonthFromTime lt + 1)
             (DateFromTime lt) (HourFromTime lt) (MinFromTime lt))
    by (done || (apply reads_as_pad2; lia)).
  unfold Date_of_fields, of_Z. rewrite !trunc_of_Z.
  assert (MakeFullYear (YearFromTime lt) = YearFromTime lt) as ->.
  { unfold MakeFullYear.
    destruct (Z.leb_spec (YearFromTime lt) 99); [lia |].
    by rewrite andb_false_r. }
  replace (MonthFromTime lt + 1 - 1) with (MonthFromTime lt) by lia.
  by rewrite MakeDate_of_fields.
Qed.

End WithEnv.

End FormFacts.

Module ParseFacts.
Import JsString JsNumber JsDate DateParsing Store Filter Render Wire Calendar
  EventForm WireForms StringFacts NumberFacts DateFacts WireFacts CalendarFacts
  KeyFacts FormFacts.

#[local] Arguments or_zero : simpl never.
#[local] Arguments minus_one : simpl never.

Lemma append_nil_r (s : string) : s ++ "" = s.
Proof. induction s as [|c s IH]; simpl; [done | by rewrite IH]. Qed.

Lemma replace_skip c by_ (a b : string) :
  lacks c a = true -> replace c by_ (a ++ b) = a ++ replace c by_ b.
Proof.
  induction a as [|x a IH]; simpl; [done |].
  intros [Hx Hs]%andb_true_iff.
  apply negb_true_iff in Hx. rewrite Hx. by rewrite IH.
Qed.

Lemma iso_date_lacks t c :
  stamp_ok t -> is_digit c = false -> negb (Ascii.eqb "-" c) = true ->
  lacks c (iso_date t) = true.
Proof.
  intros (Hy & Hd & Hh & Hmi & Hs) Hc Hdash.
  assert (0 <= month_number (st_month t) <= 99) as Hm
    by (destruct (st_month t); simpl; lia).
  apply pad4_token, digit_token_inv in Hy as (Yl & Ya & _).
  apply pad2_token, digit_token_inv in Hm as (Ml & Ma & _).
  apply pad2_token, digit_token_inv in Hd as (Dl & Da & _).
  unfold iso_date. lacks_tac.
Qed.

Lemma iso_time_lacks t c :
  stamp_ok t -> is_digit c = false -> negb (Ascii.eqb ":" c) = true ->
  lacks c (iso_time t) = true.
Proof.
  intros (Hy & Hd & Hh & Hmi & Hs) Hc Hcolon.
  apply pad2_token, digit_token_inv in Hh as (Hl & Ha & _).
  apply pad2_token, digit_token_inv in Hmi as (Il & Ia & _).
  apply pad2_token, digit_token_inv in Hs as (Sl & Sa & _).
  unfold iso_time. lacks_tac.
Qed.

Lemma iso_date_head t : stamp_ok t -> head_is is_digit (iso_date t) = true.
Proof.
  intros (Hy & _). apply pad4_token, digit_token_inv in Hy as (Yl & Ya & _).
  unfold iso_date. apply head_is_app, all_head; [done | lia].
Qed.

Lemma iso_T_lacks t c :
  stamp_ok t -> is_digit c = false -> negb (Ascii.eqb "-" c) = true ->
  negb (Ascii.eqb ":" c) = true -> negb (Ascii.eqb "T" c) = true ->
  lacks c (iso_T t) = true.
Proof.
  intros Hok Hc H1 H2 H3. unfold iso_T.
  rewrite lacks_app, lacks_cons, iso_date_lacks, iso_time_lacks by done.
  by rewrite H3.
Qed.

(** What the first [replace] makes of the ISO form followed by any
    text. *)
Lemma replace_space_iso space_sep t (rest : string) :
  stamp_ok t ->
  replace " " "T" (iso_encode space_sep t ++ rest)
  = iso_T t ++ (if space_sep then rest else replace " " "T" rest).
Proof.
  intros Hok. rewrite iso_encode_halves. unfold iso_T. destruct space_sep.
  - rewrite !append_assoc'. simpl.
    rewrite replace_at by (by apply iso_date_lacks). done.
  - rewrite replace_skip; [done |].
    rewrite lacks_app, lacks_cons, iso_date_lacks, iso_time_lacks by done. done.
Qed.

Section WithEnv.
Variable env : Env.

(** The ISO branch reads its input through [clean] alone, once the
    date part is not empty. *)
Lemma parse_iso_clean (s s' : string) :
  iso_clean s = iso_clean s' ->
  truthy (split "T" (iso_clean s') !! 0%nat) = true ->
  parse_iso env s = parse_iso env s'.
Proof.
  unfold parse_iso, iso_clean. intros -> ->. done.
Qed.

Lemma iso_clean_T t : stamp_ok t -> iso_clean (iso_T t) = iso_T t.
Proof.
  intros Hok. unfold iso_clean.
  rewrite (replace_lacks " ") by (by apply iso_T_lacks).
  rewrite (split_lacks "+") by (by apply iso_T_lacks).
  simpl. apply replace_lacks. by apply iso_T_lacks.
Qed.

Lemma iso_T_date_part t :
  stamp_ok t -> truthy (split "T" (iso_T t) !! 0%nat) = true.
Proof.
  intros Hok. unfold iso_T. rewrite split_at by (by apply iso_date_lacks).
  simpl. apply (truthy_head is_digit). by apply iso_date_head.
Qed.

(** Whatever cleans to the ISO form of [t] parses to [t]. *)
Lemma parse_iso_cleaned (s : string) t :
  stamp_ok t -> iso_clean s = iso_T t -> parse_iso env s = stamp_date env t.
Proof.
  intros Hok Hs.
  rewrite (parse_iso_clean s (iso_T t)).
  - change (iso_T t) with (iso_date t ++ String "T" (iso_time t)).
    rewrite <- (iso_encode_halves false). by apply parse_iso_encode.
  - by rewrite Hs, iso_clean_T.
  - rewrite iso_clean_T by done. by apply iso_T_date_part.
Qed.

Lemma parseLocalDate_digit_head (s : string) :
  head_is is_digit s = true -> parseLocalDate env (Some s) = parse_iso env s.
Proof.
  intros Hhead. unfold parseLocalDate. destruct s as [|c s]; [done |].
  by rewrite match_rfc2822_digit_head.
Qed.

Lemma iso_encode_head space_sep t (rest : string) :
  stamp_ok t -> head_is is_digit (iso_encode space_sep t ++ rest) = true.
Proof.
  intros Hok. rewrite iso_encode_halves, append_assoc'.
  by apply head_is_app, iso_date_head.
Qed.

Lemma parseLocalDate_plus_suffix space_sep t (suffix : string) :
  stamp_ok t ->
  parseLocalDate env (Some (iso_encode space_sep t ++ "+" ++ suffix))
  = stamp_date env t.
Proof.
  intros Hok. rewrite parseLocalDate_digit_head by (by apply iso_encode_head).
  apply parse_iso_cleaned; [done |]. unfold iso_clean.
  rewrite replace_space_iso by done.
  assert (exists rest, (if space_sep then "+" ++ suffix
                        else replace " " "T" ("+" ++ suffix))
                       = String "+" rest) as [rest ->].
  { destruct space_sep; simpl; by eexists. }
  rewrite split_at by (by apply iso_T_lacks).
  simpl. apply replace_lacks. by apply iso_T_lacks.
Qed.

Lemma parseLocalDate_Z_suffix space_sep t :
  stamp_ok t ->
  parseLocalDate env (Some (iso_encode space_sep t ++ "Z")) = stamp_date env t.
Proof.
  intros Hok. rewrite parseLocalDate_digit_head by (by apply iso_encode_head).
  apply parse_iso_cleaned; [done |]. unfold iso_clean.
  rewrite replace_space_iso by done.
  assert ((if space_sep then "Z" else replace " " "T" "Z") = "Z") as ->
    by (by destruct space_sep).
  rewrite (split_lacks "+").
  - simpl. rewrite replace_at by (by apply iso_T_lacks).
    simpl. apply append_nil_r.
  - rewrite lacks_app, iso_T_lacks by done. done.
Qed.

End WithEnv.

End ParseFacts.

Module WordFacts.
Import JsString JsNumber JsDate DateParsing Store Filter Render Wire Calendar
  EventForm WireForms StringFacts NumberFacts DateFacts WireFacts CalendarFacts
  KeyFacts FormFacts ParseFacts.

#[local] Arguments or_zero : simpl never.
#[local] Arguments minus_one : simpl never.

Lemma match_rfc2822_words (wd mo : string) pad_day t :
  word3 wd -> word3 mo -> stamp_ok t ->
  match_rfc2822 (rfc2822_words wd mo pad_day t)
  = Some {| g_day := day_text pad_day t; g_month := mo;
            g_year := zero_pad 4 (st_year t); g_hour := zero_pad 2 (st_hour t);
            g_min := zero_pad 2 (st_min t); g_sec := zero_pad 2 (st_sec t) |}.
Proof.
  intros [Wa Wl] [Ma Ml] Hok. pose proof Hok as (Hy & Hd & Hh & Hmi & Hs).
  apply (day_text_token pad_day) in Hok.
  apply digit_token_inv in Hok as (Dl & Da & _).
  apply pad4_token, digit_token_inv in Hy as (Yl & Ya & _).
  apply pad2_token, digit_token_inv in Hh as (Hl & Ha & _).
  apply pad2_token, digit_token_inv in Hmi as (Il & Ia & _).
  apply pad2_token, digit_token_inv in Hs as (Sl & Sa & _).
  unfold rfc2822_words, match_rfc2822. fold (day_text pad_day t).
  repeat token_step. done.
Qed.

Section WithEnv.
Variable env : Env.

Lemma parseLocalDate_words (wd mo : string) pad_day t :
  word3 wd -> word3 mo -> stamp_ok t ->
  parseLocalDate env (Some (rfc2822_words wd mo pad_day t))
  = match months !! mo with
    | Some m =>
        Date_of_fields env (of_Z (st_year t)) (of_Z m) (of_Z (st_day t))
          (of_Z (st_hour t)) (of_Z (st_min t)) (of_Z (st_sec t))
    | None => InvalidDate
    end.
Proof.
  intros Hwd Hmo Hok. pose proof (match_rfc2822_words wd mo pad_day t Hwd Hmo Hok) as Hm.
  pose proof Hok as (Hy & Hd & Hh & Hmi & Hs).
  pose proof (day_text_token pad_day t Hok) as Dt.
  apply digit_token_inv in Dt as (_ & _ & Dv & _).
  apply pad4_token, digit_token_inv in Hy as (_ & _ & Yv & _).
  apply pad2_token, digit_token_inv in Hh as (_ & _ & Hv & _).
  apply pad2_token, digit_token_inv in Hmi as (_ & _ & Iv & _).
  apply pad2_token, digit_token_inv in Hs as (_ & _ & Sv & _).
  unfold parseLocalDate.
  destruct (rfc2822_words wd mo pad_day t) as [|c s] eqn:E.
  { destruct Hwd as [_ Hl]. unfold rfc2822_words in E.
    destruct wd; [simpl in Hl; lia | done]. }
  rewrite Hm. cbn [g_day g_month g_year g_hour g_min g_sec].
  rewrite Dv, Yv, Hv, Iv, Sv.
  destruct (months !! mo) as [m|]; [done |].
  done.
Qed.

End WithEnv.

End WordFacts.

Module DayFacts.
Import JsString JsNumber JsDate DateParsing Store Filter Render Wire Calendar
  EventForm WireForms StringFacts NumberFacts DateFacts WireFacts CalendarFacts
  KeyFacts FormFacts ParseFacts.

#[local] Arguments or_zero : simpl never.
#[local] Arguments minus_one : simpl never.

Lemma at_midnight_ok t : stamp_ok t -> stamp_ok (at_midnight t).
Proof. unfold stamp_ok. simpl. lia. Qed.

Lemma at_midnight_clock t : clock_ok (at_midnight t).
Proof. unfold clock_ok. simpl. lia. Qed.

Lemma on_the_minute_ok t : stamp_ok t -> stamp_ok (on_the_minute t).
Proof. unfold stamp_ok. simpl. lia. Qed.

Section WithEnv.
Variable env : Env.

(** A date without a time of day is read as the start of that day. *)
Lemma parseLocalDate_date_only t :
  stamp_ok t ->
  parseLocalDate env (Some (iso_date t)) = stamp_date env (at_midnight t).
Proof.
  intros Hok. rewrite parseLocalDate_digit_head by (by apply iso_date_head).
  pose proof Hok as (Hy & Hd & Hh & Hmi & Hs).
  assert (0 <= month_number (st_month t) <= 99) as Hm
    by (destruct (st_month t); simpl; lia).
  apply pad4_token, digit_token_inv in Hy as (Yl & Ya & _ & Yv).
  apply pad2_token, digit_token_inv in Hm as (Ml & Ma & _ & Mv).
  apply pad2_token, digit_token_inv in Hd as (Dl & Da & _ & Dv).
  unfold parse_iso.
  rewrite (replace_lacks " ") by (by apply iso_date_lacks).
  rewrite (split_lacks "+") by (by apply iso_date_lacks).
  simpl List.hd.
  rewrite replace_lacks by (by apply iso_date_lacks).
  rewrite split_lacks by (by apply iso_date_lacks).
  simpl lookup.
  rewrite (truthy_head is_digit) by (by apply iso_date_head).
  cbn [negb truthy or_empty default from_option id].
  rewrite iso_date_eq.
  rewrite !split_at, !split_lacks by (by apply digits_lack).
  simpl. rewrite Yv, Mv, Dv, minus_one_month. done.
Qed.

(** The key of a day of the calendar is the date as it is written. *)
Lemma dateKey_stamp t :
  stamp_ok t -> calendar_ok t -> clock_ok t -> 1000 <= st_year t ->
  zone_faithful_at env (stamp_local_time t) ->
  dateKey env (stamp_date env t) = iso_date t.
Proof.
  intros Hok Hcal Hclock Hy Hz.
  pose proof (stamp_date_fields env t Hz Hcal Hclock) as Hf.
  unfold local_fields in Hf.
  injection Hf as Hfy Hfm Hfd _ _ _.
  unfold dateKey. rewrite Hfy, Hfm, Hfd.
  destruct Hok as (Hyr & Hd & _).
  assert (MakeFullYear (st_year t) = st_year t) as ->.
  { unfold MakeFullYear. destruct (Z.leb_spec (st_year t) 99); [lia |].
    by rewrite andb_false_r. }
  cbn [int_to_string int_succ fmap option_fmap option_map].
  replace (month_number (st_month t) - 1 + 1) with (month_number (st_month t))
    by lia.
  rewrite (zero_pad_exact 4) by (simpl; lia).
  rewrite !padStart2_pad by (destruct (st_month t); simpl; lia).
  done.
Qed.

End WithEnv.

End DayFacts.

Module GroupingFacts.
Import JsString JsNumber JsDate DateParsing Store Render Wire.
Import WireFacts RenderFacts KeyFacts DayFacts.

Section WithEnv.
Variable env : Env.

(** C4. Day grouping is a partition of the filtered events: the
    groups come out in ascending order of their date keys, no key
    twice; a group's rows are the events whose key is the group's, in
    the order they have in [filteredEvents]; and each event has its
    row in the group of its key and in no other. The key of an event
    is the local calendar date of [parseLocalDate(start_date)],
    written [YYYY-MM-DD] (for a year of four digits): for a start
    written in either wire form it is the date as written. *)
Theorem renderGroupedByDay_partition st :
  let groups := renderGroupedByDay env st in
  let items := indexed (filteredEvents st) in
  Sorted String.le (dg_key <$> groups)
  /\ NoDup (dg_key <$> groups)
  /\ Forall (fun g =>
        dg_rows g
        = (fun it => createEventRow env it.1 it.2)
            <$> filter (fun it => eventKey env it.1 = dg_key g) items
        /\ dg_rows g <> []
        /\ dg_count g = List.length (dg_rows g)
        /\ dg_today g = bool_decide (dg_key g = todayKey env)) groups
  /\ (forall i e, filteredEvents st !! i = Some e ->
       exists g, g ∈ groups
         /\ dg_key g = eventKey env e
         /\ createEventRow env e i ∈ dg_rows g
         /\ forall g', g' ∈ groups ->
               (exists r, r ∈ dg_rows g' /\ row_index r = i) -> g' = g)
  /\ (forall e t,
        parseLocalDate env (ev_start_date e) = DateValue t ->
        let lt := local_of_utc env t in
        1000 <= YearFromTime lt <= 9999 ->
        eventKey env e
        = zero_pad 4 (YearFromTime lt) ++ "-"
          ++ zero_pad 2 (MonthFromTime lt + 1) ++ "-"
          ++ zero_pad 2 (DateFromTime lt))
  /\ (forall e t,
        (exists space_sep, ev_start_date e = Some (iso_encode space_sep t))
        \/ (exists weekday pad_day,
              ev_start_date e = Some (rfc2822_encode weekday pad_day t)) ->
        stamp_ok t -> calendar_ok t -> clock_ok t -> 1000 <= st_year t ->
        zone_faithful_at env (stamp_local_time t) ->
        eventKey env e = iso_date t).
Proof.
  intros groups items.
  destruct (renderGroupedByDay_groups env st) as (Hsorted & Hnd & Hrows & _).
  split; [done |]. split; [done |]. split; [done |].
  split; [| split].
  - intros i e He. by apply renderGroupedByDay_one_group.
  - intros e t Ht lt Hy. unfold eventKey. rewrite Ht.
    by apply dateKey_padded.
  - intros e t Hstart Hok Hcal Hclock Hy Hz. unfold eventKey.
    destruct Hstart as [[space_sep ->] | (weekday & pad_day & ->)].
    + rewrite parseLocalDate_iso by done. by apply dateKey_stamp.
    + rewrite parseLocalDate_rfc2822 by done. by apply dateKey_stamp.
Qed.

End WithEnv.

End GroupingFacts.

Module JsonFacts.
Import JsString JsNumber Store Saves StringFacts NumberFacts WireFacts KeyFacts.

Lemma is_json_digits_nonzero_head (c : ascii) (r : string) :
  c <> "0"%char ->
  is_json_digits (String c r) = all_chars is_digit (String c r).
Proof.
  intros Hc. unfold is_json_digits.
  destruct c as [[] [] [] [] [] [] [] []]; try done; by rewrite andb_true_r.
Qed.

(** What [String(n)] writes for a natural number is a JSON integer. *)
Lemma is_json_digits_Z_to_string n :
  0 <= n -> is_json_digits (Z_to_string n) = true.
Proof.
  intros Hn. destruct (Z_to_string_spec n Hn) as (Ha & Hl & Hv & Hk).
  destruct (Z_to_string n) as [|c r]; [simpl in Hl; lia |].
  destruct (Ascii.eqb_spec c "0") as [-> | Hc];
    [| by rewrite is_json_digits_nonzero_head].
  unfold is_json_digits. rewrite Ha. cbn [andb].
  destruct r as [|x r]; [done |].
  exfalso. cbn [all_chars] in Ha. apply andb_true_iff in Ha as [_ Hr].
  pose proof (digits_val_bound (String x r) Hr) as [_ Hb].
  change (digits_val 0 (String "0" (String x r)))
    with (digits_val 0 (String x r)) in Hv.
  rewrite Hv in Hb.
  specialize (Hk (String.length (String x r)) ltac:(simpl; lia) Hb).
  simpl in Hk. lia.
Qed.

Lemma digit_head_not_minus (c : ascii) (r : string) :
  all_chars is_digit (String c r) = true -> c <> "-"%char.
Proof. simpl. intros [Hc _]%andb_true_iff ->. done. Qed.

Lemma json_int_digits (s : string) :
  all_chars is_digit s = true ->
  json_int s = if is_json_digits s then Some (digits_val 0 s) else None.
Proof.
  destruct s as [|c r]; [done |]. intros Hc%digit_head_not_minus.
  unfold json_int.
  destruct c as [[] [] [] [] [] [] [] []]; done.
Qed.

(** [JSON.parse] reads back the integer that [String] wrote. *)
Lemma json_int_Z_to_string z : json_int (Z_to_string z) = Some z.
Proof.
  destruct (Z.ltb_spec z 0) as [Hneg | Hpos].
  - assert (Z_to_string z = String "-" (Z_to_string (- z))) as ->.
    { unfold Z_to_string.
      destruct (Z.ltb_spec z 0); [| lia].
      by destruct (Z.ltb_spec (- z) 0); [lia |]. }
    destruct (Z_to_string_spec (- z) ltac:(lia)) as (Ha & Hl & Hv & _).
    cbn [json_int]. rewrite is_json_digits_Z_to_string by lia.
    destruct (String.eqb_spec (Z_to_string (- z)) "0") as [E | _].
    + rewrite E in Hv. change (digits_val 0 "0") with 0 in Hv. lia.
    + cbn. rewrite Hv. f_equal. lia.
  - destruct (Z_to_string_spec z Hpos) as (Ha & Hl & Hv & _).
    rewrite json_int_digits by done.
    by rewrite is_json_digits_Z_to_string, Hv.
Qed.

Lemma Z_to_string_lacks_comma z : lacks "," (Z_to_string z) = true.
Proof.
  destruct (Z.ltb_spec z 0) as [Hneg | Hpos].
  - assert (Z_to_string z = String "-" (Z_to_string (- z))) as ->.
    { unfold Z_to_string.
      destruct (Z.ltb_spec z 0); [| lia].
      by destruct (Z.ltb_spec (- z) 0); [lia |]. }
    rewrite lacks_cons. cbn [Ascii.eqb negb andb].
    destruct (Z_to_string_spec (- z) ltac:(lia)) as (Ha & _).
    by apply digits_lack.
  - destruct (Z_to_string_spec z Hpos) as (Ha & _). by apply digits_lack.
Qed.

Lemma Z_to_string_nonempty z : Z_to_string z <> "".
Proof.
  destruct (Z.ltb_spec z 0) as [Hneg | Hpos].
  - unfold Z_to_string. by destruct (Z.ltb_spec z 0); [| lia].
  - destruct (Z_to_string_spec z Hpos) as (_ & Hl & _).
    intros E. rewrite E in Hl. simpl in Hl. lia.
Qed.

Lemma drop_last_snoc (c : ascii) (s : string) :
  drop_last c (s ++ String c "") = Some s.
Proof.
  induction s as [|x s IH]; simpl.
  - by rewrite Ascii.eqb_refl.
  - rewrite IH. by destruct (s ++ String c "") eqn:E; [destruct s |].
Qed.

Lemma split_joined (c : ascii) (x : string) (l : list string) :
  Forall (fun s => lacks c s = true) (x :: l) ->
  split c (String.concat (String c "") (x :: l)) = x :: l.
Proof.
  revert x. induction l as [|y l IH]; intros x Hall.
  - simpl. apply split_lacks. by inversion Hall.
  - inversion Hall as [|? ? Hx Hrest]; subst.
    change (String.concat (String c "") (x :: y :: l))
      with (x ++ String c (String.concat (String c "") (y :: l))).
    rewrite split_at by done. by rewrite IH.
Qed.

Lemma joined_nonempty (sep x : string) (l : list string) :
  x <> "" -> String.concat sep (x :: l) <> "".
Proof. destruct x; [done |]. by destruct l. Qed.

Lemma mapM_json_int (ids : list Z) :
  mapM json_int (Z_to_string <$> ids) = Some ids.
Proof.
  induction ids as [|i ids IH]; [done |].
  cbn [fmap list_fmap mapM]. rewrite json_int_Z_to_string. cbn.
  change (mapM json_int (list_fmap Z string Z_to_string ids))
    with (mapM json_int (Z_to_string <$> ids)).
  by rewrite IH.
Qed.

(** [JSON.parse(JSON.stringify([...ids]))] gives the ids back. *)
Lemma ids_of_json_stringify (ids : list Z) :
  ids_of_json (stringify_ids ids) = Some ids.
Proof.
  unfold stringify_ids, ids_of_json.
  change ("[" ++ String.concat "," (List.map Z_to_string ids) ++ "]")
    with (String "[" (String.concat "," (List.map Z_to_string ids)
                      ++ String "]" "")).
  cbv beta iota. rewrite drop_last_snoc. cbn [mbind option_bind].
  destruct ids as [|i ids]; [done |].
  cbn [List.map].
  destruct (String.eqb_spec
              (String.concat "," (Z_to_string i :: List.map Z_to_string ids)) "")
    as [E | _].
  { by apply joined_nonempty in E; [| apply Z_to_string_nonempty]. }
  rewrite split_joined.
  - apply (mapM_json_int (i :: ids)).
  - change (Z_to_string i :: List.map Z_to_string ids)
      with (Z_to_string <$> (i :: ids)).
    apply Forall_fmap, Forall_forall. intros z _.
    apply Z_to_string_lacks_comma.
Qed.

Lemma set_add_fresh (ids : list Z) (x : Z) :
  x ∉ ids -> set_add ids x = (ids ++ [x])%list.
Proof.
  intros Hx. unfold set_add.
  destruct (set_has ids x) eqn:E; [| done].
  by apply SavesFacts.set_has_true in E.
Qed.

(** A [Set] built from an array without repeats has the elements of
    the array, in its order. *)
Lemma set_of_array_NoDup (ids : list Z) :
  NoDup ids -> set_of_array ids = ids.
Proof.
  unfold set_of_array.
  assert (forall acc, NoDup (acc ++ ids) ->
            foldl set_add acc ids = (acc ++ ids)%list) as H.
  { induction ids as [|x ids IH]; intros acc Hnd; simpl.
    - by rewrite app_nil_r.
    - rewrite set_add_fresh.
      + rewrite IH; rewrite <- app_assoc; done.
      + apply NoDup_app in Hnd as (_ & Hdisj & _).
        intros Hx. apply (Hdisj x Hx). by left. }
  intros Hnd. by apply (H []).
Qed.

Lemma NoDup_kept {A} (f : A -> bool) (l : list A) :
  NoDup l -> NoDup (List.filter f l).
Proof.
  induction 1 as [|x l Hx Hl IH]; simpl; [constructor |].
  destruct (f x); [| done]. constructor; [| done].
  rewrite list_elem_of_In, filter_In, <- list_elem_of_In. tauto.
Qed.

Lemma flip_member_NoDup (ids : list Z) (x : Z) :
  NoDup ids -> NoDup (flip_member ids x).
Proof.
  intros Hnd. unfold flip_member.
  destruct (set_has ids x) eqn:E.
  - unfold set_delete. by apply NoDup_kept.
  - unfold set_add. rewrite E. apply NoDup_app. split; [done |].
    split; [| apply NoDup_singleton].
    intros y Hy ->%list_elem_of_singleton.
    apply SavesFacts.set_has_true in Hy. congruence.
Qed.

End JsonFacts.

Module BookmarkFacts.
Import JsString JsNumber Store Saves SavesFacts JsonFacts.

Section WithServer.
Context {Server : Type}.

(** C10. [toggleBookmark(id)] flips the membership of [id] in the
    bookmark set and of no other id, and rewrites the mirror in
    [localStorage] to the JSON of the updated set: the text parses to
    the ids of the updated set, and on any page with this storage
    [loadBookmarks] builds the updated set. Applied twice it gives
    back a set with the original members. *)
Theorem toggleBookmark_flips_membership (eventId : Z) (w : World Server) :
  let w1 := (toggleBookmark eventId w).2 in
  let w2 := (toggleBookmark eventId w1).2 in
  let ids := bookmarkedIds (w_app w) in
  let ids1 := bookmarkedIds (w_app w1) in
  let ids2 := bookmarkedIds (w_app w2) in
  set_has ids1 eventId = negb (set_has ids eventId)
  /\ (forall other, other <> eventId -> set_has ids1 other = set_has ids other)
  /\ localStorage (w_app w1)
     = <[BOOKMARKS_KEY := stringify_ids ids1]> (localStorage (w_app w))
  /\ localStorage (w_app w2) !! BOOKMARKS_KEY = Some (stringify_ids ids2)
  /\ (forall x, set_has ids2 x = set_has ids x)
  /\ (list_to_set ids2 : gset Z) = list_to_set ids
  /\ (exists raw, localStorage (w_app w1) !! BOOKMARKS_KEY = Some raw
        /\ ids_of_json raw = Some ids1)
  /\ (NoDup ids ->
      forall page, localStorage page = localStorage (w_app w1) ->
        loadBookmarks page = Some (set_bookmarkedIds ids1 page)).
Proof.
  intros w1 w2 ids ids1 ids2.
  assert (ids1 = flip_member ids eventId) as E1.
  { subst ids1 w1. by rewrite toggleBookmark_run. }
  assert (ids2 = flip_member ids1 eventId) as E2.
  { subst ids2 w2. by rewrite toggleBookmark_run. }
  assert (forall x, set_has ids2 x = set_has ids x) as Hsame.
  { intros x. rewrite E2, E1. apply set_has_flip_flip. }
  assert (localStorage (w_app w1) !! BOOKMARKS_KEY = Some (stringify_ids ids1))
    as Hmirror.
  { subst ids1 w1. rewrite toggleBookmark_run. cbn [snd w_app].
    unfold set_localStorage. cbn [localStorage bookmarkedIds].
    apply lookup_insert_eq. }
  split; [| split; [| split; [| split; [| split; [| split; [| split]]]]]].
  - rewrite E1, set_has_flip. by rewrite Z.eqb_refl.
  - intros other Hne. rewrite E1, set_has_flip.
    by destruct (Z.eqb_spec other eventId).
  - subst ids1 w1. by rewrite toggleBookmark_run.
  - subst ids2 w2. rewrite toggleBookmark_run. cbn [snd w_app].
    unfold set_localStorage. cbn [localStorage bookmarkedIds].
    apply lookup_insert_eq.
  - done.
  - by apply same_members.
  - exists (stringify_ids ids1). split; [done |]. apply ids_of_json_stringify.
  - intros Hnd page Hpage. unfold loadBookmarks. rewrite Hpage, Hmirror.
    assert (truthy (Some (stringify_ids ids1)) = true) as -> by done.
    rewrite ids_of_json_stringify. cbn [mbind option_bind].
    by rewrite set_of_array_NoDup by (rewrite E1; by apply flip_member_NoDup).
Qed.

End WithServer.

End BookmarkFacts.

Module OffsetFacts.
Import JsString JsNumber JsDate DateParsing Store Filter Render Wire Calendar
  EventForm WireForms StringFacts NumberFacts DateFacts WireFacts CalendarFacts
  KeyFacts FormFacts ParseFacts DayFacts.

#[local] Arguments or_zero : simpl never.
#[local] Arguments minus_one : simpl never.

Lemma trimEnd_nospace (s : string) :
  all_chars (fun c => negb (is_space c)) s = true -> trimEnd s = s.
Proof.
  induction s as [|c s IH]; [done |]. simpl.
  intros [Hc Hs]%andb_true_iff. rewrite IH by done.
  apply negb_true_iff in Hc. destruct s; [by rewrite Hc | done].
Qed.

Lemma trim_nospace (s : string) :
  all_chars (fun c => negb (is_space c)) s = true -> trim s = s.
Proof.
  intros Hs. unfold trim.
  assert (trimStart s = s) as ->; [| by apply trimEnd_nospace].
  destruct s as [|c s]; [done |]. simpl in *.
  apply andb_true_iff in Hs as [Hc _]. apply negb_true_iff in Hc.
  by rewrite Hc.
Qed.

Lemma span_digits_stop (a : string) c (r : string) :
  all_chars is_digit a = true -> is_digit c = false ->
  span is_digit (a ++ String c r) = (a, String c r).
Proof.
  intros Ha Hc. induction a as [|x a IH]; simpl.
  - by rewrite Hc.
  - simpl in Ha. apply andb_true_iff in Ha as [Hx Ha].
    by rewrite Hx, IH.
Qed.

Lemma signed_literal_dash (a b : string) :
  all_chars is_digit a = true -> (0 < String.length a)%nat ->
  signed_literal false (a ++ String "-" b) = JNaN.
Proof.
  intros Ha Hl. unfold signed_literal, decimal_literal.
  rewrite span_digits_stop by done.
  destruct a as [|x a]; [simpl in Hl; lia |].
  assert (String.eqb (String x a ++ String "-" b) "Infinity" = false) as ->.
  { apply andb_true_iff in Ha as [Hx _]. apply digit_cases in Hx.
    simpl in Hx. by repeat (destruct Hx as [<- | Hx]; [done |]). }
  done.
Qed.

(** Digits, a dash and more digits are no number. *)
Lemma Number_dash (a b : string) :
  all_chars is_digit a = true -> (0 < String.length a)%nat ->
  all_chars is_digit b = true ->
  Number (a ++ String "-" b) = JNaN.
Proof.
  intros Ha Hl Hb. rewrite <- (signed_literal_dash a b Ha Hl).
  unfold Number. rewrite trim_nospace.
  2:{ rewrite all_chars_app. cbn [all_chars].
      rewrite (all_chars_weaken is_digit _ a digit_not_space Ha).
      rewrite (all_chars_weaken is_digit _ b digit_not_space Hb). done. }
  destruct a as [|x a]; [simpl in Hl; lia |].
  pose proof Ha as [Hx Hr]%andb_true_iff.
  apply digit_cases in Hx. simpl in Hx.
  destruct Hx as [<- | Hx].
  - destruct a as [|y a]; [done |].
    apply andb_true_iff in Hr as [Hy _].
    apply digit_cases in Hy. simpl in Hy.
    by repeat (destruct Hy as [<- | Hy]; [done |]).
  - by repeat (destruct Hx as [<- | Hx]; [done |]).
Qed.

Section WithEnv.
Variable env : Env.

(** A zone offset with a minus sign is not cut off: it stays in the
    text of the seconds, which then read as zero. *)
Lemma parseLocalDate_minus_suffix space_sep t hh mm :
  stamp_ok t -> 0 <= hh <= 99 -> 0 <= mm <= 99 ->
  parseLocalDate env (Some (iso_encode space_sep t ++ zone_offset true hh mm))
  = stamp_date env (on_the_minute t).
Proof.
  intros Hok Hhh Hmm.
  rewrite parseLocalDate_digit_head by (by apply iso_encode_head).
  pose proof Hok as (Hy & Hd & Hh & Hmi & Hs).
  assert (0 <= month_number (st_month t) <= 99) as Hm
    by (destruct (st_month t); simpl; lia).
  apply pad4_token, digit_token_inv in Hy as (Yl & Ya & _ & Yv).
  apply pad2_token, digit_token_inv in Hm as (Ml & Ma & _ & Mv).
  apply pad2_token, digit_token_inv in Hd as (Dl & Da & _ & Dv).
  apply pad2_token, digit_token_inv in Hh as (Hl & Ha & _ & Hv).
  apply pad2_token, digit_token_inv in Hmi as (Il & Ia & _ & Iv).
  apply pad2_token, digit_token_inv in Hs as (Sl & Sa & _ & Sv).
  apply pad2_token, digit_token_inv in Hhh as (Ol & Oa & _ & Ov).
  apply pad2_token, digit_token_inv in Hmm as (Pl & Pa & _ & Pv).
  set (rest := String "-" (zero_pad 2 hh ++ String ":" (zero_pad 2 mm))).
  assert (zone_offset true hh mm = rest) as -> by done.
  assert (forall c, is_digit c = false -> negb (Ascii.eqb "-" c) = true ->
            negb (Ascii.eqb ":" c) = true -> lacks c rest = true) as Lrest.
  { intros c Hc H1 H2. subst rest. lacks_tac. }
  unfold parse_iso.
  rewrite replace_space_iso by done.
  assert ((if space_sep then rest else replace " " "T" rest) = rest) as ->.
  { destruct space_sep; [done |]. apply replace_lacks. by apply Lrest. }
  rewrite (split_lacks "+")
    by (rewrite lacks_app, iso_T_lacks, Lrest by done; done).
  simpl List.hd.
  rewrite replace_lacks
    by (rewrite lacks_app, iso_T_lacks, Lrest by done; done).
  unfold iso_T. rewrite append_assoc'. simpl.
  rewrite split_at by (by apply iso_date_lacks).
  rewrite split_lacks
    by (rewrite lacks_app, iso_time_lacks, Lrest by done; done).
  simpl lookup.
  rewrite (truthy_head is_digit (iso_date t)) by (by apply iso_date_head).
  rewrite (truthy_head is_digit (iso_time t ++ rest)).
  2:{ unfold iso_time. apply head_is_app, head_is_app, all_head; [done | lia]. }
  cbn [negb or_empty default from_option id].
  assert (iso_time t ++ rest
          = zero_pad 2 (st_hour t)
            ++ String ":" (zero_pad 2 (st_min t)
            ++ String ":" ((zero_pad 2 (st_sec t) ++ String "-" (zero_pad 2 hh))
            ++ String ":" (zero_pad 2 mm)))) as ->.
  { subst rest. rewrite iso_time_eq, !append_assoc'. simpl.
    by rewrite !append_assoc'. }
  rewrite iso_date_eq.
  rewrite !split_at by (by apply digits_lack).
  rewrite (split_at ":" (zero_pad 2 (st_sec t) ++ String "-" (zero_pad 2 hh)))
    by lacks_tac.
  rewrite !split_lacks by (by apply digits_lack).
  simpl. rewrite Yv, Mv, Dv, Hv, Iv.
  rewrite Number_dash by (done || lia).
  rewrite !or_zero_of_Z, minus_one_month. done.
Qed.

End WithEnv.

End OffsetFacts.

Module DateTheorems.
Import JsString JsNumber JsDate DateParsing Store Filter Render Wire Calendar
  EventForm WireForms StringFacts NumberFacts DateFacts WireFacts CalendarFacts
  KeyFacts FormFacts ParseFacts WordFacts DayFacts OffsetFacts RenderFacts.

Lemma zone_faithful_value (env : Env) lt :
  zone_faithful_at env lt ->
  TimeClip (utc_of_local env lt) = DateValue (utc_of_local env lt)
  /\ local_of_utc env (utc_of_local env lt) = lt.
Proof.
  intros [Hrange Hback]. unfold TimeClip.
  by apply Z.leb_le in Hrange as ->.
Qed.

Lemma Z_to_string_head y :
  head_is (fun c => is_digit c || Ascii.eqb c "-") (Z_to_string y) = true.
Proof.
  destruct (Z.ltb_spec y 0) as [Hneg | Hpos].
  - unfold Z_to_string. apply Z.ltb_lt in Hneg. by rewrite Hneg.
  - destruct (Z_to_string_spec y Hpos) as (Ha & Hl & _).
    eapply head_is_weaken; [| by apply all_head].
    intros c ->. done.
Qed.

Lemma le_NaN_key (s rest : string) :
  head_is (fun c => is_digit c || Ascii.eqb c "-") s = true ->
  String.le (s ++ rest) "NaN-NaN-NaN".
Proof.
  destruct s as [|c s]; [done |]. simpl. intros Hc.
  unfold String.le, String.leb. simpl.
  destruct c as [[] [] [] [] [] [] [] []]; by vm_compute in Hc |- *.
Qed.

Lemma compare_refl (s : string) : String.compare s s = Eq.
Proof.
  induction s as [|c s IH]; [done |]. simpl.
  unfold Ascii.compare. by rewrite N.compare_refl.
Qed.

Lemma key_compare (y1 m1 d1 y2 m2 d2 : string) :
  String.length y1 = String.length y2 -> String.length m1 = String.length m2 ->
  String.compare (y1 ++ "-" ++ m1 ++ "-" ++ d1) (y2 ++ "-" ++ m2 ++ "-" ++ d2)
  = match String.compare y1 y2 with
    | Eq => match String.compare m1 m2 with
            | Eq => String.compare d1 d2
            | r => r
            end
    | r => r
    end.
Proof.
  intros Hy Hm. rewrite compare_app by done.
  destruct (String.compare y1 y2); [| done | done].
  change ("-" ++ m1 ++ "-" ++ d1) with (String "-" (m1 ++ String "-" d1)).
  change ("-" ++ m2 ++ "-" ++ d2) with (String "-" (m2 ++ String "-" d2)).
  rewrite compare_cons, compare_app by done.
  destruct (String.compare m1 m2); [| done | done].
  apply compare_cons.
Qed.

Section WithEnv.
Variable env : Env.

Lemma dateKey_compare t1 t2 :
  let l1 := local_of_utc env t1 in
  let l2 := local_of_utc env t2 in
  1000 <= YearFromTime l1 <= 9999 -> 1000 <= YearFromTime l2 <= 9999 ->
  String.compare (dateKey env (DateValue t1)) (dateKey env (DateValue t2))
  = (Day l1 ?= Day l2).
Proof.
  intros l1 l2 Hy1 Hy2.
  rewrite !dateKey_padded by done. fold l1 l2.
  destruct (fields_of_time l1) as (Hm1 & Hd1 & _).
  destruct (fields_of_time l2) as (Hm2 & Hd2 & _).
  assert (forall l, 0 <= MonthFromTime l <= 11 ->
            DaysInMonth (MonthFromTime l) (InLeapYear (YearFromTime l)) <= 31)
    as Hmax.
  { intros l Hm. apply month_cases in Hm. simpl in Hm.
    destruct (InLeapYear (YearFromTime l));
      repeat (destruct Hm as [<- | Hm]; [by vm_compute |]); done. }
  pose proof (Hmax l1 Hm1). pose proof (Hmax l2 Hm2).
  destruct (zero_pad_spec 4 (YearFromTime l1)) as (Ya1 & Yl1 & Yv1);
    [lia | simpl; lia |].
  destruct (zero_pad_spec 4 (YearFromTime l2)) as (Ya2 & Yl2 & Yv2);
    [lia | simpl; lia |].
  destruct (zero_pad_spec 2 (MonthFromTime l1 + 1)) as (Ma1 & Ml1 & Mv1);
    [lia | simpl; lia |].
  destruct (zero_pad_spec 2 (MonthFromTime l2 + 1)) as (Ma2 & Ml2 & Mv2);
    [lia | simpl; lia |].
  destruct (zero_pad_spec 2 (DateFromTime l1)) as (Da1 & Dl1 & Dv1);
    [lia | simpl; lia |].
  destruct (zero_pad_spec 2 (DateFromTime l2)) as (Da2 & Dl2 & Dv2);
    [lia | simpl; lia |].
  rewrite key_compare by congruence.
  rewrite (compare_digit_strings _ _ Ya1 Ya2 (eq_trans Yl1 (eq_sym Yl2))),
    (compare_digit_strings _ _ Ma1 Ma2 (eq_trans Ml1 (eq_sym Ml2))),
    (compare_digit_strings _ _ Da1 Da2 (eq_trans Dl1 (eq_sym Dl2))).
  rewrite Yv1, Yv2, Mv1, Mv2, Dv1, Dv2.
  symmetry. apply Day_compare.
Qed.

(** X1. What [toDatetimeLocal] writes into
    the edit form, [parseLocalDate] reads back as the same local year,
    month, day, hour and minute, with the seconds at zero (for a year
    from 100 on, in a zone without a gap at that minute); an invalid
    date comes back invalid. *)
Theorem toDatetimeLocal_round_trip t :
  let date := DateValue t in
  let lt := local_of_utc env t in
  100 <= YearFromTime lt ->
  zone_faithful_at env (minute_floor lt) ->
  let back := parseLocalDate env (Some (toDatetimeLocal env date)) in
  back = DateValue (utc_of_local env (minute_floor lt))
  /\ local_fields env back
     = [getFullYear env date; getMonth env date; getDate env date;
        getHours env date; getMinutes env date; Some 0]
  /\ parseLocalDate env (Some (toDatetimeLocal env InvalidDate)) = InvalidDate.
Proof.
  intros date lt Hy Hz back.
  assert (back = DateValue (utc_of_local env (minute_floor lt))) as Hback.
  { subst back date. rewrite parseLocalDate_toDatetimeLocal by done. fold lt.
    by apply zone_faithful_value. }
  split; [done |]. split; [| done].
  rewrite Hback. subst date.
  unfold local_fields, getFullYear, getMonth, getDate, getHours, getMinutes,
    getSeconds, local_field. fold lt.
  destruct (zone_faithful_value env _ Hz) as [_ ->].
  destruct (fields_of_minute_floor lt) as (-> & -> & -> & -> & -> & ->).
  done.
Qed.

(** X2. For dates with a year of four digits, the
    order of the [YYYY-MM-DD] keys (the order [sort] puts the day
    groups in) is the order of the local calendar days, and two dates
    have the same key exactly when they fall on the same local day. *)
Theorem dateKey_chronological t1 t2 :
  let l1 := local_of_utc env t1 in
  let l2 := local_of_utc env t2 in
  1000 <= YearFromTime l1 <= 9999 -> 1000 <= YearFromTime l2 <= 9999 ->
  (String.le (dateKey env (DateValue t1)) (dateKey env (DateValue t2))
   <-> Day l1 <= Day l2)
  /\ (dateKey env (DateValue t1) = dateKey env (DateValue t2)
      <-> Day l1 = Day l2).
Proof.
  intros l1 l2 Hy1 Hy2.
  pose proof (dateKey_compare t1 t2 Hy1 Hy2) as Hc. fold l1 l2 in Hc.
  split.
  - unfold String.le, String.leb. rewrite Hc.
    destruct (Z.compare_spec (Day l1) (Day l2)); simpl; split; (done || lia).
  - split.
    + intros Hk. apply Z.compare_eq_iff. rewrite <- Hc, Hk.
      apply compare_refl.
    + intros Hd. apply Z.compare_eq_iff in Hd. rewrite <- Hc in Hd.
      by apply String.compare_eq_iff.
Qed.

(** X3. A zone suffix [Z] or [+...] on the
    ISO form is dropped: the date is the one of the bare form, built
    from the written fields as a local time. *)
Theorem parseLocalDate_zone_suffix space_sep t (suffix : string) :
  stamp_ok t ->
  let bare := parseLocalDate env (Some (iso_encode space_sep t)) in
  parseLocalDate env (Some (iso_encode space_sep t ++ "Z")) = bare
  /\ parseLocalDate env (Some (iso_encode space_sep t ++ "+" ++ suffix)) = bare
  /\ bare = stamp_date env t.
Proof.
  intros Hok bare. subst bare.
  rewrite parseLocalDate_Z_suffix, parseLocalDate_plus_suffix,
    parseLocalDate_iso by done.
  done.
Qed.

(** X4. A zone offset with a minus sign
    ([-05:00]) is not dropped: it is read as part of the seconds, so
    the date keeps the written day, hour and minute and has its
    seconds at zero. *)
Theorem parseLocalDate_minus_offset space_sep t hh mm :
  stamp_ok t -> 0 <= hh <= 99 -> 0 <= mm <= 99 ->
  let parsed :=
    parseLocalDate env (Some (iso_encode space_sep t ++ zone_offset true hh mm)) in
  parsed = stamp_date env (on_the_minute t)
  /\ (zone_faithful_at env (stamp_local_time (on_the_minute t)) ->
      calendar_ok t -> clock_ok t ->
      local_fields env parsed
      = [Some (MakeFullYear (st_year t)); Some (month_number (st_month t) - 1);
         Some (st_day t); Some (st_hour t); Some (st_min t); Some 0]).
Proof.
  intros Hok Hhh Hmm parsed. subst parsed.
  rewrite parseLocalDate_minus_suffix by done. split; [done |].
  intros Hz Hcal (Hh & Hmi & Hs).
  apply (stamp_date_fields env (on_the_minute t)); [done | done |].
  unfold clock_ok. simpl. lia.
Qed.

(** X5. In the RFC-2822-style form the weekday
    is not read, any three letters will do; the month is looked up as
    written, and three letters that are not one of [Jan] ... [Dec]
    give an invalid date. *)
Theorem parseLocalDate_rfc_words (weekday month : string) pad_day t :
  word3 weekday -> word3 month -> stamp_ok t ->
  let parsed :=
    parseLocalDate env (Some (rfc2822_words weekday month pad_day t)) in
  (month = month_abbr (st_month t) -> parsed = stamp_date env t)
  /\ (months !! month = None -> parsed = InvalidDate).
Proof.
  intros Hwd Hmo Hok parsed. subst parsed.
  rewrite parseLocalDate_words by done. split.
  - intros ->. destruct (month_token (st_month t)) as (_ & _ & ->). done.
  - by intros ->.
Qed.

(** X6. An event whose start is a bare date
    [YYYY-MM-DD] starts at local midnight of that day: its day key is
    the date as written and its row says "Time TBD". *)
Theorem date_only_event (event : Event) (index : nat) t :
  ev_start_date event = Some (iso_date t) ->
  stamp_ok t -> calendar_ok t -> 1000 <= st_year t ->
  zone_faithful_at env (stamp_local_time (at_midnight t)) ->
  parseLocalDate env (ev_start_date event) = stamp_date env (at_midnight t)
  /\ eventKey env event = iso_date t
  /\ row_time (createEventRow env event index) = EventTimeTbd.
Proof.
  intros Hstart Hok Hcal Hy Hz.
  assert (parseLocalDate env (ev_start_date event)
          = stamp_date env (at_midnight t)) as Hp
    by (rewrite Hstart; by apply parseLocalDate_date_only).
  split; [done |]. split.
  - unfold eventKey. rewrite Hp.
    apply (dateKey_stamp env (at_midnight t));
      [by apply at_midnight_ok | done | apply at_midnight_clock | done | done].
  - unfold createEventRow. cbn [row_time]. rewrite Hp.
    destruct (stamp_date_clock env (at_midnight t) Hz (at_midnight_clock t))
      as (Hh & Hm & _).
    unfold hasTime. rewrite Hh, Hm. done.
Qed.

(** X7. An event whose start does not parse to a
    valid date gets the day key [NaN-NaN-NaN], which sorts after the
    key of every valid date; its row shows what the formatter makes of
    an invalid date, never "Time TBD"; and of the month filters it
    passes only 'all' and [NaN-NaN]. *)
Theorem invalid_date_event (event : Event) (index : nat) (st : AppState) :
  parseLocalDate env (ev_start_date event) = InvalidDate ->
  eventKey env event = "NaN-NaN-NaN"
  /\ (forall t, String.le (dateKey env (DateValue t)) (eventKey env event))
  /\ row_time (createEventRow env event index)
     = EventTime (escapeHtml (Some (toLocaleTimeString env InvalidDate)))
  /\ (matchesMonth env st event = true
      <-> currentMonth st = "all" \/ currentMonth st = "NaN-NaN").
Proof.
  intros Hp.
  assert (eventKey env event = "NaN-NaN-NaN") as Hk
    by (unfold eventKey; by rewrite Hp).
  split; [done |]. split; [| split].
  - intros t. rewrite Hk. unfold dateKey, getFullYear, local_field.
    cbn [int_to_string]. apply le_NaN_key, Z_to_string_head.
  - unfold createEventRow. cbn [row_time]. by rewrite Hp.
  - unfold matchesMonth. rewrite Hp.
    destruct (String.eqb_spec (currentMonth st) "all") as [E | E]; cbn [negb].
    + split; auto.
    + change (monthYear env InvalidDate) with "NaN-NaN".
      rewrite String.eqb_eq.
      split; [intros <-; by right | intros [? | ?]; [done | by symmetry]].
Qed.

(** X8. An event without a start date is taken to
    start now: it is listed in the group flagged as today, and its row
    shows the current time of day (or "Time TBD" in the first minute
    after midnight). *)
Theorem undated_event_today (st : AppState) (i : nat) (e : Event) :
  filteredEvents st !! i = Some e ->
  ev_start_date e = None \/ ev_start_date e = Some "" ->
  eventKey env e = todayKey env
  /\ (exists g, g ∈ renderGroupedByDay env st /\ dg_today g = true
        /\ createEventRow env e i ∈ dg_rows g)
  /\ row_time (createEventRow env e i)
     = (if hasTime env (Date_now env)
        then EventTime (escapeHtml (Some (toLocaleTimeString env (Date_now env))))
        else EventTimeTbd).
Proof.
  intros He Hstart.
  assert (parseLocalDate env (ev_start_date e) = Date_now env) as Hp
    by (destruct Hstart as [-> | ->]; done).
  assert (eventKey env e = todayKey env) as Hk
    by (unfold eventKey, todayKey; by rewrite Hp).
  split; [done |]. split.
  - destruct (renderGroupedByDay_one_group env st i e He) as (g & Hg & Hkey & Hrow & _).
    exists g. split; [done |]. split; [| done].
    destruct (renderGroupedByDay_groups env st) as (_ & _ & Hrows & _).
    rewrite Forall_forall in Hrows.
    destruct (Hrows g Hg) as (_ & _ & _ & ->).
    apply bool_decide_eq_true_2. congruence.
  - unfold createEventRow. cbn [row_time]. rewrite Hp.
    by destruct (hasTime env (Date_now env)).
Qed.

End WithEnv.

End DateTheorems.

Module ControlFacts.
Import JsString JsNumber JsDate DateParsing Exn JsObject Store Filter FilterSpec
  Controls SearchSpec FilterFacts.

Lemma filter_sublist {A} (q : A -> bool) (l : list A) :
  List.filter q l `sublist_of` l.
Proof.
  induction l as [|x l IH]; simpl; [constructor |].
  destruct (q x); by constructor.
Qed.

Lemma filterM_sublist {A} (p : A -> result bool) (q : A -> bool) (l r : list A) :
  (forall x, p x = Ok true -> q x = true) ->
  filterM p l = Ok r -> r `sublist_of` List.filter q l.
Proof.
  intros Hpq. revert r. induction l as [|x l IH]; intros r; simpl.
  - intros [= <-]. constructor.
  - destruct (p x) as [b | err] eqn:Hx; [| done]. simpl.
    destruct (filterM p l) as [r' | err]; [| done]. simpl.
    intros [= <-]. specialize (IH r' eq_refl).
    destruct b.
    + rewrite (Hpq x Hx). by constructor.
    + destruct (q x); [by constructor | done].
Qed.

Lemma filterM_kept {A} (p : A -> result bool) (l r : list A) :
  filterM p l = Ok r -> r `sublist_of` l.
Proof.
  revert r. induction l as [|x l IH]; intros r; simpl.
  - intros [= <-]. constructor.
  - destruct (p x) as [b | err]; [| done]. simpl.
    destruct (filterM p l) as [r' | err]; [| done]. simpl.
    intros [= <-]. specialize (IH r' eq_refl).
    destruct b; by constructor.
Qed.

Lemma filterM_ext {A} (p q : A -> result bool) (l : list A) :
  (forall x, p x = q x) -> filterM p l = filterM q l.
Proof.
  intros Hpq. induction l as [|x l IH]; [done |]. simpl.
  by rewrite Hpq, IH.
Qed.

(** A filter with a second test after the first keeps less, and goes
    through only where the first alone does. *)
Lemma filterM_narrowed {A} (f g : A -> result bool) (l r : list A) :
  filterM (fun x => a ← f x; b ← g x; mret (a && b)) l = Ok r ->
  exists r0, filterM f l = Ok r0 /\ r `sublist_of` r0.
Proof.
  revert r. induction l as [|x l IH]; intros r; simpl.
  - intros [= <-]. by exists [].
  - destruct (f x) as [a | err]; [| done]. simpl.
    destruct (g x) as [b | err]; [| done]. simpl.
    destruct (filterM _ l) as [r' | err]; [| done]. simpl.
    intros [= <-]. destruct (IH r' eq_refl) as (r0 & -> & Hsub). simpl.
    eexists. split; [done |].
    destruct a, b; simpl; first [done | by constructor].
Qed.

Lemma filterM_throws {A} (p : A -> result bool) (l : list A) :
  (exists err, filterM p l = Throw err)
  <-> exists x, In x l /\ exists err, p x = Throw err.
Proof.
  induction l as [|x l IH]; simpl.
  - split; [by intros [? ?] | by intros (? & [] & _)].
  - destruct (p x) as [b | err] eqn:Hx; simpl.
    + destruct (filterM p l) as [r | err] eqn:Hl; simpl.
      * split; [by intros [? ?] |].
        intros (y & [<- | Hy] & err & Hp); [congruence |].
        destruct (proj2 IH) as [? ?]; [eauto | done].
      * split; [| eauto]. intros _.
        destruct (proj1 IH) as (y & Hy & Herr); eauto.
    + split; eauto.
Qed.

Lemma handleSearch_inv env value st st' :
  handleSearch env value st = Ok st' ->
  exists l, st' = set_filteredEvents l st.
Proof.
  unfold handleSearch. destruct (filterM _ _) as [l | err]; [| done].
  simpl. intros [= <-]. eauto.
Qed.

Lemma matchesSearch_throws query e :
  (exists err, matchesSearch query e = Throw err)
  <-> query <> "" /\ unreadable query e.
Proof.
  unfold matchesSearch, unreadable.
  destruct (String.eqb_spec query "") as [E | E].
  { split; [by intros [? ?] | by intros [? _]]. }
  destruct (ev_title e) as [t|]; simpl; [| split; eauto].
  destruct (includes (toLowerCase t) query) eqn:It.
  { apply includes_spec in It. split; [by intros [? ?] | tauto]. }
  assert (~ substring_of query (toLowerCase t)) as Ht
    by (rewrite <- includes_spec; congruence).
  destruct (ev_description e) as [d|]; simpl; [| split; eauto].
  destruct (includes (toLowerCase d) query) eqn:Id.
  { apply includes_spec in Id. split; [by intros [? ?] | tauto]. }
  assert (~ substring_of query (toLowerCase d)) as Hd
    by (rewrite <- includes_spec; congruence).
  destruct (ev_location e) as [l|]; simpl.
  - split; [by intros [? ?] | by intros (_ & _ & _ & ?)].
  - split; eauto.
Qed.

Lemma inherited_name_dec (name : string) :
  inherited_name name \/ ~ inherited_name name.
Proof.
  pose proof (get_property_cases name) as H.
  destruct (get_property NEIGHBORHOOD_KEYWORDS name);
    [right; intros [? _]; congruence | by left | right; by destruct H].
Qed.

(** The filter callback throws exactly under an inherited name. *)
Lemma passesFilters_throws_iff env st e :
  (exists err, passesFilters env st e = Throw err)
  <-> inherited_name (currentNeighborhood st).
Proof.
  split.
  - intros [err Herr].
    destruct (inherited_name_dec (currentNeighborhood st)) as [? | Hnot];
      [done |].
    destruct (passesFilters_spec env st e Hnot) as (b & Hb & _). congruence.
  - intros Hin. eexists. by apply passesFilters_throws.
Qed.

(** With every neighbourhood allowed, the callback does not throw. *)
Lemma passesFilters_all_neighborhoods env st e :
  currentNeighborhood st = "all" ->
  passesFilters env st e
  = Ok (matchesCategory st e && matchesMonth env st e && matchesSource st e).
Proof.
  intros Hn. unfold passesFilters, matchesNeighborhood. rewrite Hn.
  cbn. by rewrite andb_true_r.
Qed.

(** [applyFilters] does not read [filteredEvents]. *)
Lemma applyFilters_forgets env l st :
  applyFilters env (set_filteredEvents l st) = applyFilters env st.
Proof.
  unfold applyFilters.
  change (allEvents (set_filteredEvents l st)) with (allEvents st).
  rewrite (filterM_ext (passesFilters env (set_filteredEvents l st))
             (passesFilters env st)) by done.
  by destruct (filterM _ _).
Qed.

(** [applyFilters] with every neighbourhood allowed. *)
Lemma applyFilters_all_neighborhoods env st :
  currentNeighborhood st = "all" ->
  applyFilters env st
  = Ok (set_filteredEvents
          (List.filter
             (fun e => matchesCategory st e && matchesMonth env st e
                       && matchesSource st e) (allEvents st)) st).
Proof.
  intros Hn. unfold applyFilters.
  rewrite (filterM_total _
             (fun e => matchesCategory st e && matchesMonth env st e
                       && matchesSource st e)); [done |].
  intros e _. by apply passesFilters_all_neighborhoods.
Qed.

Lemma filter_all {A} (q : A -> bool) (l : list A) :
  (forall x, In x l -> q x = true) -> List.filter q l = l.
Proof.
  induction l as [|x l IH]; intros Hq; [done |]. simpl.
  rewrite (Hq x) by (by left). f_equal. apply IH. intros y Hy. apply Hq. by right.
Qed.




Section WithEnv.
Variable env : Env.



End WithEnv.

End ControlFacts.

Module ControlTheorems.
Import JsString JsNumber JsDate DateParsing Exn Store Filter FilterSpec
  Controls SearchSpec FilterFacts ControlFacts.

Section WithEnv.
Variable env : Env.

(** X9. When [applyFilters] goes through, the filtered list is the
    store with events left out, never reordered, and nothing else has
    changed; a search that goes through leaves out more of what
    [applyFilters] lets through. [applyFilters] throws exactly when
    the neighbourhood selected is a name inherited from
    [Object.prototype] and the store is not empty. *)
Theorem filters_keep_store_order (st : AppState) :
  (forall st', applyFilters env st = Ok st' ->
     filteredEvents st' `sublist_of` allEvents st
     /\ st' = set_filteredEvents (filteredEvents st') st)
  /\ (forall value st', handleSearch env value st = Ok st' ->
        exists shown, applyFilters env st = Ok shown
          /\ filteredEvents st' `sublist_of` filteredEvents shown
          /\ st' = set_filteredEvents (filteredEvents st') st)
  /\ ((exists err, applyFilters env st = Throw err)
      <-> inherited_name (currentNeighborhood st) /\ allEvents st <> [])
  /\ (forall err, applyFilters env st = Throw err ->
        err = NotAFunction "keywords.some").
Proof.
  split; [| split; [| split]].
  - intros st'. unfold applyFilters.
    destruct (filterM _ (allEvents st)) as [l | err] eqn:Hl; [| done].
    simpl. intros [= <-]. split; [| done]. simpl. by eapply filterM_kept.
  - intros value st'. unfold handleSearch, applyFilters.
    destruct (filterM _ (allEvents st)) as [l | err] eqn:Hl; [| done].
    simpl. intros [= <-].
    apply filterM_narrowed in Hl as (r0 & -> & Hsub). simpl.
    eexists. split; [done |]. done.
  - unfold applyFilters.
    destruct (filterM _ (allEvents st)) as [l | err] eqn:Hl; simpl.
    + split; [by intros [? ?] |]. intros [Hin Hne]. exfalso.
      assert (exists err, filterM (passesFilters env st) (allEvents st)
                          = Throw err) as [err Herr]; [| congruence].
      apply filterM_throws. destruct (allEvents st) as [|e l']; [done |].
      exists e. split; [by left |]. by apply passesFilters_throws_iff.
    + split; [| eauto]. intros _.
      assert (exists err, filterM (passesFilters env st) (allEvents st)
                          = Throw err) as Hthrow by eauto.
      apply filterM_throws in Hthrow as (e & He & Herr).
      apply passesFilters_throws_iff in Herr. split; [done |].
      by destruct (allEvents st).
  - intros err Herr.
    destruct (inherited_name_dec (currentNeighborhood st)) as [Hin | Hnot].
    + destruct (allEvents st) as [|e l] eqn:Hl.
      * unfold applyFilters in Herr. by rewrite Hl in Herr.
      * rewrite applyFilters_throws in Herr by (by rewrite ?Hl). congruence.
    + rewrite applyFilters_ok in Herr by done. done.
Qed.

(** X10. With the search box empty, [handleSearch] is [applyFilters],
    whatever the events hold. It throws exactly when the neighbourhood
    selected is a name inherited from [Object.prototype] and the store
    is not empty, or there is a query and some event of the store is
    missing a field the search gets to read: the title, or the
    description when the title does not match, or the location when
    neither matches. *)
Theorem handleSearch_throws_iff (value : string) (st : AppState) :
  handleSearch env "" st = applyFilters env st
  /\ ((exists err, handleSearch env value st = Throw err)
      <-> (inherited_name (currentNeighborhood st) /\ allEvents st <> [])
          \/ (toLowerCase value <> ""
              /\ exists e, In e (allEvents st)
                   /\ unreadable (toLowerCase value) e)).
Proof.
  split.
  - unfold handleSearch, applyFilters.
    rewrite (filterM_ext _ (passesFilters env st)); [done |].
    intros e. cbn. destruct (passesFilters env st e) as [b | err]; [| done].
    cbn. by rewrite andb_true_r.
  - assert ((exists err, handleSearch env value st = Throw err)
            <-> exists e, In e (allEvents st)
                  /\ exists err,
                       (passes ← passesFilters env st e;
                        b ← matchesSearch (toLowerCase value) e;
                        mret (passes && b)) = Throw err) as ->.
    { unfold handleSearch. rewrite <- filterM_throws.
      destruct (filterM _ (allEvents st)) as [l | err]; simpl;
        split; intros [err' ?]; by eauto. }
    split.
    + intros (e & He & err & Herr).
      destruct (inherited_name_dec (currentNeighborhood st)) as [Hin | Hnot].
      * left. split; [done |]. by destruct (allEvents st).
      * right. destruct (passesFilters_spec env st e Hnot) as (b & Hb & _).
        rewrite Hb in Herr. cbn in Herr.
        destruct (matchesSearch (toLowerCase value) e) as [b' | err'] eqn:Hm;
          [done |].
        destruct (proj1 (matchesSearch_throws (toLowerCase value) e))
          as [Hq Hu]; [eauto |].
        eauto.
    + intros [[Hin Hne] | (Hq & e & He & Hu)].
      * destruct (allEvents st) as [|e l]; [done |].
        exists e. split; [by left |].
        rewrite passesFilters_throws by done. by eexists.
      * destruct (inherited_name_dec (currentNeighborhood st)) as [Hin | Hnot].
        -- exists e. split; [done |].
           rewrite passesFilters_throws by done. by eexists.
        -- exists e. split; [done |].
           destruct (passesFilters_spec env st e Hnot) as (b & -> & _).
           destruct (proj2 (matchesSearch_throws (toLowerCase value) e))
             as [err ->]; [done |].
           by exists err.
Qed.

(** X11. [clearFilters] does not throw; after it the four selections
    are 'all' and the list shown is the whole store, in store
    order. *)
Theorem clearFilters_shows_everything (st : AppState) :
  let st' := (clearFilters env st).1 in
  (clearFilters env st).2 = None
  /\ filteredEvents st' = allEvents st
  /\ allEvents st' = allEvents st
  /\ currentCategory st' = "all" /\ currentMonth st' = "all"
  /\ currentSource st' = "all" /\ currentNeighborhood st' = "all".
Proof.
  intros st'. subst st'. unfold clearFilters, select_and_filter.
  rewrite applyFilters_all_neighborhoods by done. cbn.
  split; [done |]. split; [| done]. by apply filter_all.
Qed.

(** X12. The filter controls do not take the search into account:
    after a search, a click on a category, a month, a source or a
    neighbourhood, or on "clear", throws exactly when it would have
    thrown without the search; when it does not throw it leaves the
    state it would have left without the search, and when it throws
    the two states differ only in [filteredEvents], which each keeps
    from before the click. *)
Theorem filter_controls_forget_search (value : string) (st st' : AppState) :
  handleSearch env value st = Ok st' ->
  (forall category,
     same_but_for_search st' (handleFilter env category st')
       (handleFilter env category st))
  /\ (forall month,
        same_but_for_search st' (handleMonthFilter env month st')
          (handleMonthFilter env month st))
  /\ (forall source,
        same_but_for_search st' (handleSourceFilter env source st')
          (handleSourceFilter env source st))
  /\ (forall neighborhood,
        same_but_for_search st' (handleNeighborhoodFilter env neighborhood st')
          (handleNeighborhoodFilter env neighborhood st))
  /\ clearFilters env st' = clearFilters env st.
Proof.
  intros [l ->]%handleSearch_inv.
  assert (forall selected,
            same_but_for_search (set_filteredEvents l st)
              (select_and_filter env (set_filteredEvents l selected))
              (select_and_filter env selected)) as Hsame.
  { intros selected. unfold select_and_filter, same_but_for_search.
    rewrite applyFilters_forgets.
    destruct (applyFilters env selected) as [shown | err]; cbn; by repeat split. }
  split; [intros category; exact (Hsame (set_currentCategory category st)) |].
  split; [intros month; exact (Hsame (set_currentMonth month st)) |].
  split; [intros source; exact (Hsame (set_currentSource source st)) |].
  split.
  { intros neighborhood.
    exact (Hsame (set_currentNeighborhood
                    (if String.eqb (currentNeighborhood st) neighborhood
                     then "all" else neighborhood) st)). }
  unfold clearFilters, select_and_filter.
  change (set_currentNeighborhood "all"
            (set_currentSource "all"
               (set_currentMonth "all"
                  (set_currentCategory "all" (set_filteredEvents l st)))))
    with (set_filteredEvents l
            (set_currentNeighborhood "all"
               (set_currentSource "all"
                  (set_currentMonth "all" (set_currentCategory "all" st))))).
  rewrite applyFilters_forgets.
  by rewrite applyFilters_all_neighborhoods by done.
Qed.


End WithEnv.

End ControlTheorems.

Module MarkupFacts.
Import JsString JsNumber JsDate DateParsing Store Render Markup StringFacts
  WireFacts RenderFacts.

Lemma replaceAll_app c by_ (a b : string) :
  replaceAll c by_ (a ++ b) = replaceAll c by_ a ++ replaceAll c by_ b.
Proof.
  induction a as [|x a IH]; simpl; [done |].
  destruct (Ascii.eqb x c); rewrite IH; [by rewrite append_assoc' | done].
Qed.

Lemma escape_chain_app (a b : string) :
  escape_chain (a ++ b) = escape_chain a ++ escape_chain b.
Proof. unfold escape_chain. by rewrite !replaceAll_app. Qed.

Lemma escape_chain_char c : escape_chain (String c "") = entity c.
Proof. destruct c as [[] [] [] [] [] [] [] []]; reflexivity. Qed.

Lemma escape_chain_each (s : string) : escape_chain s = escape_each s.
Proof.
  induction s as [|c s IH]; [done |].
  change (String c s) with (String c "" ++ s).
  rewrite escape_chain_app, escape_chain_char, IH. done.
Qed.

Lemma escapeHtml_each (s : string) : escapeHtml (Some s) = escape_each s.
Proof.
  destruct s as [|c s]; [done |].
  rewrite <- escape_chain_each. done.
Qed.

Lemma markup_free_app (a b : string) :
  markup_free (a ++ b) = markup_free a && markup_free b.
Proof.
  unfold markup_free. rewrite !lacks_app.
  destruct (lacks "<" a), (lacks ">" a), (lacks "034" a), (lacks "'" a),
    (lacks "<" b), (lacks ">" b), (lacks "034" b); done.
Qed.

Lemma entity_markup_free c : markup_free (entity c) = true.
Proof. destruct c as [[] [] [] [] [] [] [] []]; reflexivity. Qed.

Lemma escape_each_markup_free (s : string) : markup_free (escape_each s) = true.
Proof.
  induction s as [|c s IH]; [done |]. simpl.
  by rewrite markup_free_app, entity_markup_free, IH.
Qed.

Lemma escapeHtml_markup_free (v : option string) :
  markup_free (escapeHtml v) = true.
Proof.
  destruct v as [s|]; [| done].
  rewrite escapeHtml_each. apply escape_each_markup_free.
Qed.

Lemma unescape_head_entity c (r : string) :
  unescape_head (entity c ++ r) = Some (c, r).
Proof. destruct c as [[] [] [] [] [] [] [] []]; reflexivity. Qed.

Lemma escape_each_inj (a b : string) : escape_each a = escape_each b -> a = b.
Proof.
  revert b. induction a as [|x a IH]; intros [|y b]; simpl; intros H.
  - done.
  - apply (f_equal unescape_head) in H. by rewrite unescape_head_entity in H.
  - apply (f_equal unescape_head) in H. by rewrite unescape_head_entity in H.
  - apply (f_equal unescape_head) in H. rewrite !unescape_head_entity in H.
    injection H as -> H. by rewrite (IH b H).
Qed.

Lemma escape_each_app (a b : string) :
  escape_each (a ++ b) = escape_each a ++ escape_each b.
Proof.
  induction a as [|x a IH]; simpl; [done |].
  by rewrite IH, append_assoc'.
Qed.

Lemma escape_each_plain (s : string) :
  lacks "&" s = true -> markup_free s = true -> escape_each s = s.
Proof.
  induction s as [|c s IH]; [done |].
  unfold markup_free. rewrite !lacks_cons. simpl.
  rewrite !andb_true_iff, !negb_true_iff.
  intros [Ha Hs] [[[[Hl Hl'] [Hg Hg']] [Hq Hq']] [Hp Hp']].
  unfold entity. rewrite Ha, Hl, Hg, Hq, Hp. simpl. f_equal. apply IH; [done |].
  unfold markup_free. by rewrite Hl', Hg', Hq', Hp'.
Qed.

End MarkupFacts.

Module RowFacts.
Import JsString JsNumber JsDate DateParsing Store Render Markup StringFacts
  WireFacts RenderFacts MarkupFacts.

Lemma count_none (keys : list string) k :
  k ∉ keys ->
  sum_list_with (fun k' => if decide (k = k') then 1 else 0)%nat keys = 0%nat.
Proof.
  induction keys as [|x keys IH]; [done |]. intros Hk. simpl.
  rewrite decide_False by (intros ->; apply Hk; left).
  apply IH. intros ?. apply Hk. by right.
Qed.

Lemma count_one (keys : list string) k :
  NoDup keys -> k ∈ keys ->
  sum_list_with (fun k' => if decide (k = k') then 1 else 0)%nat keys = 1%nat.
Proof.
  induction 1 as [|k' keys Hnotin Hnd IH]; [by intros ?%elem_of_nil |].
  intros [-> | Hin]%elem_of_cons; simpl.
  - rewrite decide_True by done. by rewrite count_none.
  - rewrite decide_False by (intros ->; done). by apply IH.
Qed.

(** Buckets over keys without repeats that cover the items hold every
    item once. *)
Lemma bucket_sizes {A} (f : A -> string) (items : list A) (keys : list string) :
  NoDup keys -> (forall it, it ∈ items -> f it ∈ keys) ->
  sum_list_with (fun k => List.length (filter (fun it => f it = k) items)) keys
  = List.length items.
Proof.
  intros Hnd. induction items as [|x items IH]; intros Hcover.
  - simpl. clear Hnd Hcover. induction keys as [|k keys IHk]; [done |].
    simpl. apply IHk.
  - assert (forall ks,
              sum_list_with (fun k => List.length
                                    (filter (fun it => f it = k) (x :: items)))
                        ks
              = (sum_list_with (fun k' => if decide (f x = k') then 1 else 0)%nat
                           ks
                 + sum_list_with (fun k => List.length
                                         (filter (fun it => f it = k) items))
                             ks)%nat) as Hsplit.
    { induction ks as [|k ks IHk]; [done |]. simpl. rewrite IHk.
      destruct (decide (f x = k)) as [E | E].
      - rewrite filter_cons_True by done. simpl. lia.
      - rewrite filter_cons_False by done. lia. }
    rewrite Hsplit, count_one, IH; [done | | done |].
    + intros it Hit. apply Hcover. by right.
    + apply Hcover. by left.
Qed.

Lemma length_indexed (events : list Event) :
  List.length (indexed events) = List.length events.
Proof. unfold indexed. apply length_imap. Qed.

Section WithEnv.
Variable env : Env.

Lemma row_texts_markup_free (event : Event) (index : nat) :
  Forall (fun text => markup_free text = true)
         (row_texts (createEventRow env event index)).
Proof.
  unfold row_texts, createEventRow. cbn [row_time row_title row_location row_price].
  rewrite !Forall_app. repeat split.
  - destruct (hasTime env _); [| constructor].
    constructor; [apply escapeHtml_markup_free | constructor].
  - constructor; [apply escapeHtml_markup_free | constructor].
  - destruct (truthy _); simpl; [| constructor].
    constructor; [apply escapeHtml_markup_free | constructor].
  - destruct (truthy _); simpl; [| constructor].
    constructor; [apply escapeHtml_markup_free | constructor].
Qed.

End WithEnv.

End RowFacts.

Module MarkupTheorems.
Import JsString JsNumber JsDate DateParsing Store Render Markup StringFacts
  WireFacts RenderFacts MarkupFacts RowFacts.

(** X14. The five replacements of [escapeHtml]
    come to one pass that turns each of [&], [<], [>], the double and
    the single quote into its entity and keeps every other character:
    no entity is escaped a second time. So escaping goes through
    concatenation, and leaves text without those characters as it
    is. *)
Theorem escapeHtml_character_wise :
  (forall s, escapeHtml (Some s) = escape_each s)
  /\ escapeHtml None = ""
  /\ (forall a b, escapeHtml (Some (a ++ b))
                  = escapeHtml (Some a) ++ escapeHtml (Some b))
  /\ (forall s, lacks "&" s = true -> markup_free s = true ->
        escapeHtml (Some s) = s).
Proof.
  split; [apply escapeHtml_each |]. split; [done |]. split.
  - intros a b. rewrite !escapeHtml_each. apply escape_each_app.
  - intros s Ha Hs. rewrite escapeHtml_each. by apply escape_each_plain.
Qed.

(** X15. Whatever it is given, [escapeHtml] returns
    a text without [<], [>], double quote or single quote. *)
Theorem escapeHtml_no_markup (v : option string) :
  let out := escapeHtml v in
  lacks "<" out = true /\ lacks ">" out = true
  /\ lacks "034" out = true /\ lacks "'" out = true.
Proof.
  intros out. pose proof (escapeHtml_markup_free v) as H. fold out in H.
  unfold markup_free in H. rewrite !andb_true_iff in H. tauto.
Qed.

(** X16. Escaping loses nothing: two texts with the
    same escaped form are the same text. *)
Theorem escapeHtml_injective (a b : string) :
  escapeHtml (Some a) = escapeHtml (Some b) -> a = b.
Proof. rewrite !escapeHtml_each. apply escape_each_inj. Qed.

Section WithEnv.
Variable env : Env.

(** X17. In every row of the grouped list, the time,
    the title, the location and the price are escaped text: none of
    them holds a [<], a [>] or a quote, whatever the event holds. *)
Theorem row_texts_escaped (st : AppState) :
  Forall (fun g =>
    Forall (fun r =>
      Forall (fun text => markup_free text = true) (row_texts r))
      (dg_rows g))
    (renderGroupedByDay env st).
Proof.
  destruct (renderGroupedByDay_groups env st) as (_ & _ & Hrows & _).
  eapply Forall_impl; [exact Hrows |].
  intros g (-> & _). apply Forall_fmap, Forall_forall.
  intros it _. apply row_texts_markup_free.
Qed.

(** X18. The counts in the day headers add up to the
    number of filtered events, no header stands over an empty day, and
    there are no groups exactly when there is no event. *)
Theorem day_counts_add_up (st : AppState) :
  let groups := renderGroupedByDay env st in
  sum_list_with dg_count groups = List.length (filteredEvents st)
  /\ Forall (fun g => (1 <= dg_count g)%nat) groups
  /\ (groups = [] <-> filteredEvents st = []).
Proof.
  intros groups.
  destruct (renderGroupedByDay_groups env st) as (_ & Hnd & Hrows & Hcover).
  fold groups in Hnd, Hrows, Hcover.
  assert (sum_list_with dg_count groups = List.length (filteredEvents st))
    as Hsum.
  { rewrite <- length_indexed.
    rewrite <- (bucket_sizes (fun it => eventKey env it.1)
                  (indexed (filteredEvents st)) (dg_key <$> groups) Hnd Hcover).
    clear Hnd Hcover. induction Hrows as [|g gs (Hr & _ & Hc & _) _ IH]; [done |].
    simpl. rewrite IH, Hc, Hr, length_fmap. done. }
  assert (Forall (fun g => (1 <= dg_count g)%nat) groups) as Hpos.
  { eapply Forall_impl; [exact Hrows |].
    intros g (_ & Hne & -> & _). destruct (dg_rows g); [done | simpl; lia]. }
  split; [done |]. split; [done |]. split.
  - intros Hnil. rewrite Hnil in Hsum. simpl in Hsum.
    by destruct (filteredEvents st).
  - intros Hnil. rewrite Hnil in Hsum. simpl in Hsum.
    destruct groups as [|g groups']; [done |].
    apply Forall_cons in Hpos as [Hg _]. simpl in Hsum. lia.
Qed.

End WithEnv.

End MarkupTheorems.

Module StripFacts.
Import JsString Markup StringFacts WireFacts.

Lemma space_cases c : is_space c = true -> c <> "<"%char /\ c <> ">"%char.
Proof. destruct c as [[] [] [] [] [] [] [] []]; by vm_compute. Qed.

(** *** White space *)

Lemma collapse_loose b (s : string) : loose_from b (collapse_from b s) = true.
Proof.
  revert b. induction s as [|c s IH]; intros b; [done |]. simpl.
  destruct (is_space c) eqn:Hc.
  - destruct b; [apply IH |]. simpl. apply IH.
  - simpl. rewrite Hc. apply IH.
Qed.

Lemma loose_head (s : string) : loose_from true s = true -> trimStart s = s.
Proof.
  destruct s as [|c s]; [done |]. simpl.
  destruct (is_space c); [| done]. by rewrite andb_false_r.
Qed.

Lemma trimStart_loose (s : string) :
  loose_from false s = true -> loose_from true (trimStart s) = true.
Proof.
  destruct s as [|c s]; [done |]. simpl.
  destruct (is_space c) eqn:Hc.
  - intros [_ Hs]%andb_true_iff. by rewrite (loose_head s Hs).
  - intros Hs. simpl. by rewrite Hc.
Qed.

Lemma trimEnd_single a (s : string) :
  loose_from a s = true ->
  match trimEnd s with
  | EmptyString => True
  | r => single_spaced_from a r = true
  end.
Proof.
  revert a. induction s as [|c s IH]; intros a; [done |]. simpl.
  destruct (is_space c) eqn:Hc.
  - intros [[Hsp Ha]%andb_true_iff Hs]%andb_true_iff.
    specialize (IH true Hs).
    destruct (trimEnd s) as [|x r]; [done |].
    cbn [single_spaced_from]. cbn [single_spaced_from] in IH.
    by rewrite Hc, Hsp, Ha.
  - intros Hs. specialize (IH false Hs).
    destruct (trimEnd s) as [|x r].
    + simpl. by rewrite Hc.
    + cbn [single_spaced_from]. cbn [single_spaced_from] in IH.
      by rewrite Hc.
Qed.

Lemma trim_collapse_single (s : string) :
  single_spaced (trim (collapse_from false s)) = true.
Proof.
  unfold trim.
  pose proof (trimEnd_single true _
                (trimStart_loose _ (collapse_loose false s))) as H.
  destruct (trimEnd _) as [|c r]; [done | exact H].
Qed.

Lemma single_collapse a b (s : string) :
  single_spaced_from a s = true -> (b = true -> a = true) ->
  collapse_from b s = s.
Proof.
  revert a b. induction s as [|c s IH]; intros a b; [done |]. simpl.
  destruct (is_space c) eqn:Hc.
  - intros [[Hsp Ha]%andb_true_iff Hs]%andb_true_iff Hb.
    apply negb_true_iff in Ha. subst a.
    destruct b; [by specialize (Hb eq_refl) |].
    apply Ascii.eqb_eq in Hsp. subst c. f_equal. by apply (IH true).
  - intros Hs _. f_equal. by apply (IH false).
Qed.

Lemma single_trimEnd a (s : string) :
  single_spaced_from a s = true -> trimEnd s = s.
Proof.
  revert a. induction s as [|c s IH]; intros a; [done |]. simpl.
  destruct (is_space c) eqn:Hc.
  - intros [_ Hs]%andb_true_iff. rewrite (IH true Hs).
    destruct s; [done | done].
  - intros Hs. rewrite (IH false Hs). by destruct s.
Qed.

Lemma single_trim (s : string) : single_spaced s = true -> trim s = s.
Proof.
  destruct s as [|c s]; [done |]. unfold single_spaced, trim. intros Hs.
  assert (trimStart (String c s) = String c s) as ->.
  { simpl in *. destruct (is_space c); [| done]. by rewrite andb_false_r in Hs. }
  by apply (single_trimEnd true).
Qed.

(** *** Tags *)

Lemma strip_tags_scan_tagless (s : string) :
  let '(out, closed) := strip_tags_scan s in
  tagless out = true
  /\ (forall rest, closed = Some rest -> tagless rest = true)
  /\ (closed = None -> lacks ">" out = true).
Proof.
  induction s as [|c s IH]; [done |]. simpl.
  destruct (strip_tags_scan s) as [out closed].
  destruct IH as (Hout & Hclosed & Hnone).
  split; [| split].
  - destruct (Ascii.eqb c "<") eqn:Hc.
    + destruct closed as [rest|].
      * simpl. by apply Hclosed.
      * simpl. rewrite Hc, Hout, Hnone; done.
    + simpl. by rewrite Hc.
  - intros rest. destruct (Ascii.eqb c ">"); [by intros [= <-] | apply Hclosed].
  - destruct (Ascii.eqb c ">") eqn:Hgt; [done |]. intros ->.
    assert ((if Ascii.eqb c "<" then String c out else String c out)
            = String c out) as -> by (by destruct (Ascii.eqb c "<")).
    rewrite lacks_cons, Hgt, Hnone; done.
Qed.

Lemma strip_tags_tagless (s : string) : tagless (strip_tags s) = true.
Proof.
  unfold strip_tags. pose proof (strip_tags_scan_tagless s) as H.
  destruct (strip_tags_scan s) as [out closed]. by destruct H.
Qed.

Lemma strip_tags_scan_lacks x (s : string) :
  x <> " "%char -> lacks x s = true ->
  let '(out, closed) := strip_tags_scan s in
  lacks x out = true /\ (forall rest, closed = Some rest -> lacks x rest = true).
Proof.
  intros Hx. induction s as [|c s IH]; [done |].
  rewrite lacks_cons. intros [Hc Hs]%andb_true_iff. specialize (IH Hs).
  simpl. destruct (strip_tags_scan s) as [out closed].
  destruct IH as [Hout Hclosed]. split.
  - destruct (Ascii.eqb c "<").
    + destruct closed as [rest|].
      * rewrite lacks_cons, (Hclosed rest eq_refl).
        apply not_eq_sym, Ascii.eqb_neq in Hx. by rewrite Hx.
      * by rewrite lacks_cons, Hc, Hout.
    + by rewrite lacks_cons, Hc, Hout.
  - intros rest. destruct (Ascii.eqb c ">"); [by intros [= <-] | apply Hclosed].
Qed.

Lemma strip_tags_lacks x (s : string) :
  x <> " "%char -> lacks x s = true -> lacks x (strip_tags s) = true.
Proof.
  intros Hx Hs. unfold strip_tags.
  pose proof (strip_tags_scan_lacks x s Hx Hs) as H.
  destruct (strip_tags_scan s) as [out closed]. by destruct H.
Qed.

Lemma strip_tags_plain (s : string) : lacks "<" s = true -> strip_tags s = s.
Proof.
  unfold strip_tags. induction s as [|c s IH]; [done |].
  rewrite lacks_cons. intros [Hc Hs]%andb_true_iff. specialize (IH Hs).
  simpl. destruct (strip_tags_scan s) as [out closed]. simpl in *.
  apply negb_true_iff in Hc. rewrite Hc. by rewrite IH.
Qed.

(** The replacement of the tags read from the left: a character
    other than [<] stays; a [<] with a [>] after it goes with
    everything up to the first [>], and a space comes in their place;
    a [<] with no [>] after it stays. *)
Lemma strip_tags_closed (t rest : string) :
  lacks ">" t = true ->
  (strip_tags_scan (t ++ String ">" rest)).2 = Some (strip_tags rest).
Proof.
  unfold strip_tags. induction t as [|c t IH].
  - intros _. simpl. by destruct (strip_tags_scan rest).
  - rewrite lacks_cons. intros [Hc Ht]%andb_true_iff. specialize (IH Ht).
    simpl. destruct (strip_tags_scan (t ++ String ">" rest)) as [out closed].
    apply negb_true_iff in Hc. by rewrite Hc.
Qed.

Lemma strip_tags_open (s : string) :
  lacks ">" s = true -> (strip_tags_scan s).2 = None.
Proof.
  induction s as [|c s IH]; [done |].
  rewrite lacks_cons. intros [Hc Hs]%andb_true_iff. specialize (IH Hs).
  simpl. destruct (strip_tags_scan s) as [out closed].
  apply negb_true_iff in Hc. by rewrite Hc.
Qed.

Lemma strip_tags_steps :
  (forall c s, c <> "<"%char ->
     strip_tags (String c s) = String c (strip_tags s))
  /\ (forall t rest, lacks ">" t = true ->
        strip_tags (String "<" (t ++ String ">" rest))
        = String " " (strip_tags rest))
  /\ (forall s, lacks ">" s = true ->
        strip_tags (String "<" s) = String "<" (strip_tags s)).
Proof.
  split; [| split].
  - intros c s Hc. unfold strip_tags. simpl.
    destruct (strip_tags_scan s) as [out closed].
    apply Ascii.eqb_neq in Hc. by rewrite Hc.
  - intros t rest Ht. pose proof (strip_tags_closed t rest Ht) as H.
    unfold strip_tags in *. simpl.
    destruct (strip_tags_scan (t ++ String ">" rest)) as [out closed].
    simpl in H. by subst closed.
  - intros s Hs. pose proof (strip_tags_open s Hs) as H.
    unfold strip_tags. simpl.
    destruct (strip_tags_scan s) as [out closed]. simpl in H. by subst closed.
Qed.

(** *** Entities *)

Lemma prefix_head_differs c (pat s : string) x :
  c <> x -> String.prefix (String c pat) (String x s) = false.
Proof.
  intros Hne. simpl. destruct (Ascii.ascii_dec c x); [done | done].
Qed.

Lemma replaceAllText_lacks c (pat by_ s : string) :
  lacks c s = true -> replaceAllText (String c pat) by_ s = s.
Proof.
  unfold replaceAllText. induction s as [|x s IH]; [done |].
  rewrite lacks_cons. intros [Hx Hs]%andb_true_iff.
  cbn [replaceAllText_from].
  rewrite prefix_head_differs.
  - by rewrite IH.
  - intros ->. by rewrite Ascii.eqb_refl in Hx.
Qed.

Lemma decode_lacks (pat by_ s : string) :
  lacks "&" s = true -> replaceAllText (String "&" pat) by_ s = s.
Proof. apply replaceAllText_lacks. Qed.

Lemma decode_all (s : string) :
  lacks "&" s = true ->
  replaceAllText "&nbsp;" " "
    (replaceAllText "&#39;" "'"
      (replaceAllText "&quot;" (String "034" "")
        (replaceAllText "&gt;" ">"
          (replaceAllText "&lt;" "<"
            (replaceAllText "&amp;" "&" s))))) = s.
Proof.
  intros Hs.
  rewrite (decode_lacks "amp;" "&" s Hs), (decode_lacks "lt;" "<" s Hs),
    (decode_lacks "gt;" ">" s Hs), (decode_lacks "quot;" _ s Hs),
    (decode_lacks "#39;" "'" s Hs).
  by apply decode_lacks.
Qed.

(** *** What collapsing and trimming keep *)

Lemma collapse_lacks x b (s : string) :
  x <> " "%char -> lacks x s = true -> lacks x (collapse_from b s) = true.
Proof.
  intros Hx. revert b. induction s as [|c s IH]; intros b; [done |].
  rewrite lacks_cons. intros [Hc Hs]%andb_true_iff. simpl.
  destruct (is_space c).
  - destruct b; [by apply IH |]. rewrite lacks_cons, IH by done.
    apply not_eq_sym, Ascii.eqb_neq in Hx. by rewrite Hx.
  - by rewrite lacks_cons, Hc, IH.
Qed.

Lemma collapse_tagless b (s : string) :
  tagless s = true -> tagless (collapse_from b s) = true.
Proof.
  revert b. induction s as [|c s IH]; intros b; [done |]. simpl.
  intros [Hc Hs]%andb_true_iff.
  destruct (is_space c) eqn:Hsp.
  - destruct b; [by apply IH |]. simpl. by apply IH.
  - simpl. rewrite IH by done. destruct (Ascii.eqb c "<"); [| done].
    rewrite collapse_lacks; done.
Qed.

Lemma tagless_tail c (s : string) : tagless (String c s) = true -> tagless s = true.
Proof. simpl. by intros [_ ?]%andb_true_iff. Qed.

Lemma trimStart_tagless (s : string) :
  tagless s = true -> tagless (trimStart s) = true.
Proof.
  induction s as [|c s IH]; [done |]. intros Hs. simpl.
  destruct (is_space c); [| done]. apply IH. by apply tagless_tail in Hs.
Qed.

Lemma trimEnd_lacks x (s : string) :
  lacks x s = true -> lacks x (trimEnd s) = true.
Proof.
  induction s as [|c s IH]; [done |].
  rewrite lacks_cons. intros [Hc Hs]%andb_true_iff. simpl.
  specialize (IH Hs). destruct (trimEnd s) as [|y r].
  - destruct (is_space c); [done |]. by rewrite lacks_cons, Hc.
  - by rewrite lacks_cons, Hc, IH.
Qed.

Lemma trimEnd_tagless (s : string) :
  tagless s = true -> tagless (trimEnd s) = true.
Proof.
  induction s as [|c s IH]; [done |]. simpl.
  intros [Hc Hs]%andb_true_iff. specialize (IH Hs).
  destruct (trimEnd s) as [|y r] eqn:Hr.
  - destruct (is_space c); [done |]. simpl. by destruct (Ascii.eqb c "<").
  - simpl. simpl in IH. rewrite IH, andb_true_r.
    destruct (Ascii.eqb c "<"); [| done].
    change (lacks ">" (String y r) = true). rewrite <- Hr.
    by apply trimEnd_lacks.
Qed.

Lemma trim_tagless (s : string) : tagless s = true -> tagless (trim s) = true.
Proof. intros Hs. unfold trim. by apply trimEnd_tagless, trimStart_tagless. Qed.

End StripFacts.

Module StripTheorems.
Import JsString Markup StringFacts WireFacts StripFacts.

(** X19. What [stripHtml] returns has its white
    space in order: none at either end, and single spaces between
    other characters. For a text without [&] it holds no tag: no [<]
    with a [>] after it. *)
Theorem stripHtml_normal_form (str : option string) :
  single_spaced (stripHtml str) = true
  /\ (lacks "&" (or_empty str) = true -> tagless (stripHtml str) = true).
Proof.
  unfold stripHtml. destruct (truthy str); cbn [negb]; [| done].
  split; [apply trim_collapse_single |].
  intros Hamp. apply trim_tagless, collapse_tagless.
  assert (lacks "&" (strip_tags (or_empty str)) = true) as Hs
    by (by apply strip_tags_lacks).
  rewrite decode_all by done. apply strip_tags_tagless.
Qed.

(** X20. [stripHtml] leaves plain text as it is: a
    text without [<] and [&] whose white space is single spaces
    between other characters comes back unchanged; nothing comes back
    for a missing or empty one. *)
Theorem stripHtml_plain_text (s : string) :
  lacks "<" s = true -> lacks "&" s = true -> single_spaced s = true ->
  stripHtml (Some s) = s
  /\ stripHtml None = "" /\ stripHtml (Some "") = "".
Proof.
  intros Hlt Hamp Hsp. split; [| done].
  destruct s as [|c s]; [done |].
  unfold stripHtml. cbn [truthy negb or_empty default from_option id].
  rewrite strip_tags_plain by done.
  rewrite decode_all by done.
  rewrite (single_collapse true false) by done.
  by apply single_trim.
Qed.

End StripTheorems.

Module AccountFacts.
Import JsString JsNumber Store Saves Accounts SavesFacts.

Section WithServer.
Context {Server : Type}.
Variable serve : Server -> Request -> FetchOutcome * Server.

Lemma logoutUser_run (w : World Server) :
  logoutUser serve w
  = (tt, {| w_app := set_savedEventIds [] (set_currentUser None (w_app w));
            w_server := (serve (w_server w) logout_request).2;
            w_log := w_log w ++ [Fetched logout_request;
                                 Toast "Signed out." "success"] |}).
Proof.
  unfold logoutUser, bind, fetch, modify_app, showToast, emit.
  destruct (serve (w_server w) logout_request) as [out srv].
  cbn [w_app w_server w_log snd]. by rewrite <- app_assoc.
Qed.

Lemma loadUserSaves_anonymous (w : World Server) :
  currentUser (w_app w) = None -> loadUserSaves serve w = (tt, w).
Proof.
  intros Hu. unfold loadUserSaves, bind, get_app. by rewrite Hu.
Qed.

Lemma toggleSave_anonymous eventId (w : World Server) :
  currentUser (w_app w) = None ->
  toggleSave serve eventId w = toggleBookmark eventId w.
Proof.
  intros Hu. unfold toggleSave, toggleSave_start, bind, get_app. rewrite Hu.
  unfold ret, complete. by destruct (toggleBookmark eventId w) as [[] ?].
Qed.

(** What an action leaves of the bookmarks, the storage and the
    session. *)
Lemma perform_mirror (a : Action) (w : World Server) :
  mirror_synced (w_app w) -> mirror_synced (w_app (perform serve a w).2).
Proof.
  intros Hsync. destruct a as [eventId | eventId | user | |]; simpl.
  - rewrite toggleBookmark_run. unfold mirror_synced. cbn.
    by rewrite lookup_insert_eq.
  - destruct (currentUser (w_app w)) as [u|] eqn:Hu.
    + destruct (toggleSave_run_user serve eventId w) as (shown & -> & _);
        [by rewrite Hu |].
      cbn [snd w_app]. by destruct (confirmed _).
    + rewrite toggleSave_anonymous by done. rewrite toggleBookmark_run.
      unfold mirror_synced. cbn. by rewrite lookup_insert_eq.
  - destruct (onLoginSuccess_run serve user w) as (saved & srv & shown & -> & _).
    cbn [snd w_app].
    destruct (0 <? List.length (bookmarkedIds (w_app w)))%nat eqn:Hsize.
    + unfold mirror_synced. cbn. by rewrite lookup_insert_eq.
    + exact Hsync.
  - rewrite logoutUser_run. exact Hsync.
  - destruct (currentUser (w_app w)) as [u|] eqn:Hu.
    + destruct (loadUserSaves_run serve w) as (saved & srv & shown & -> & _);
        [by rewrite Hu |].
      exact Hsync.
    + by rewrite loadUserSaves_anonymous.
Qed.

Lemma perform_anonymous (a : Action) (w : World Server) :
  anonymous_without_saves (w_app w) ->
  anonymous_without_saves (w_app (perform serve a w).2).
Proof.
  unfold anonymous_without_saves.
  intros Hanon. destruct a as [eventId | eventId | user | |]; simpl.
  - rewrite toggleBookmark_run. exact Hanon.
  - destruct (currentUser (w_app w)) as [u|] eqn:Hu.
    + destruct (toggleSave_run_user serve eventId w) as (shown & -> & _);
        [by rewrite Hu |].
      cbn [snd w_app]. destruct (confirmed _); cbn; congruence.
    + rewrite toggleSave_anonymous by done. rewrite toggleBookmark_run.
      cbn. intros _. by apply Hanon.
  - destruct (onLoginSuccess_run serve user w) as (saved & srv & shown & -> & _).
    cbn [snd w_app]. by destruct (0 <? _)%nat.
  - by rewrite logoutUser_run.
  - destruct (currentUser (w_app w)) as [u|] eqn:Hu.
    + destruct (loadUserSaves_run serve w) as (saved & srv & shown & -> & _);
        [by rewrite Hu |].
      cbn. congruence.
    + rewrite loadUserSaves_anonymous by done. cbn. intros _. by apply Hanon.
Qed.

End WithServer.

End AccountFacts.

Module AccountTheorems.
Import JsString JsNumber Store Saves Accounts SavesFacts AccountFacts.

Section WithServer.
Context {Server : Type}.
Variable serve : Server -> Request -> FetchOutcome * Server.

(** X21. Whatever the server answers, and
    also when it cannot be reached, [logoutUser] sends its one
    request, leaves the page signed out with no saves in memory, shows
    no error, and does not touch the bookmarks or their mirror. *)
Theorem logoutUser_always_signs_out (w : World Server) :
  let w' := (logoutUser serve w).2 in
  currentUser (w_app w') = None
  /\ savedEventIds (w_app w') = []
  /\ bookmarkedIds (w_app w') = bookmarkedIds (w_app w)
  /\ localStorage (w_app w') = localStorage (w_app w)
  /\ w_log w' = (w_log w ++ [Fetched logout_request;
                             Toast "Signed out." "success"])%list
  /\ forall eventId,
       toggleSave serve eventId w' = toggleBookmark eventId w'.
Proof.
  intros w'. subst w'. rewrite logoutUser_run. cbn [snd w_app w_log].
  repeat split. intros eventId. by apply toggleSave_anonymous.
Qed.

(** X22. Signing in and out again does not bring the
    bookmarks back: whatever the server did with the migration, the
    page ends up anonymous with no bookmarks and no saves, and a
    mirror that was rewritten holds the empty list. *)
Theorem login_then_logout (user : User) (w : World Server) :
  let w1 := (onLoginSuccess serve user w).2 in
  let w2 := (logoutUser serve w1).2 in
  currentUser (w_app w2) = None
  /\ bookmarkedIds (w_app w2) = []
  /\ savedEventIds (w_app w2) = []
  /\ (bookmarkedIds (w_app w) <> [] ->
      localStorage (w_app w2) !! BOOKMARKS_KEY = Some "[]").
Proof.
  intros w1 w2. subst w2 w1.
  destruct (onLoginSuccess_run serve user w) as (saved & srv & shown & -> & _).
  rewrite logoutUser_run. cbn [snd w_app].
  destruct (0 <? List.length (bookmarkedIds (w_app w)))%nat eqn:Hsize.
  - repeat split. intros _. cbn. by rewrite lookup_insert_eq.
  - assert (bookmarkedIds (w_app w) = []) as Hnil
      by (destruct (bookmarkedIds (w_app w)); [done | discriminate]).
    repeat split; [done |]. intros Hne. done.
Qed.

(** X23. Through any sequence of bookmark toggles,
    save toggles, sign-ins, sign-outs and reloads of the saves, with
    any server, the mirror in [localStorage] keeps agreeing with the
    bookmark set, and a page without a signed-in user holds no
    saves. *)
Theorem session_invariants (actions : list Action) (w : World Server) :
  mirror_synced (w_app w) -> anonymous_without_saves (w_app w) ->
  let w' := perform_all serve actions w in
  mirror_synced (w_app w') /\ anonymous_without_saves (w_app w').
Proof.
  intros Hsync Hanon w'. subst w'. unfold perform_all.
  revert w Hsync Hanon. induction actions as [|a actions IH]; intros w Hs Ha.
  - done.
  - simpl. apply IH; [by apply perform_mirror | by apply perform_anonymous].
Qed.

End WithServer.

End AccountTheorems.

Module LifeFacts.
Import JsString ServiceWorker WorkerLife.

Lemma entries_put_same name url body (caches : SimpleCaches) :
  simple_entries name (simple_put name url body caches)
  = (url, body) :: simple_entries name caches.
Proof.
  unfold simple_entries. induction caches as [|[n es] caches IH]; simpl.
  - by rewrite String.eqb_refl.
  - destruct (String.eqb_spec n name) as [-> | Hne]; simpl.
    + by rewrite String.eqb_refl.
    + apply String.eqb_neq in Hne. by rewrite Hne.
Qed.

Lemma entries_put_other name name' url body (caches : SimpleCaches) :
  name <> name' ->
  simple_entries name (simple_put name' url body caches)
  = simple_entries name caches.
Proof.
  intros Hne. unfold simple_entries.
  induction caches as [|[n es] caches IH]; simpl.
  - apply not_eq_sym, String.eqb_neq in Hne. by rewrite Hne.
  - destruct (String.eqb_spec n name') as [-> | Hne']; simpl.
    + apply not_eq_sym, String.eqb_neq in Hne. by rewrite Hne.
    + destruct (String.eqb n name); [done | apply IH].
Qed.

Lemma entries_absent name (caches : SimpleCaches) :
  existsb (String.eqb name) (simple_keys caches) = false ->
  simple_entries name caches = [].
Proof.
  unfold simple_entries, simple_keys.
  induction caches as [|[n es] caches IH]; simpl; [done |].
  intros [Hn Hrest]%orb_false_iff. rewrite String.eqb_sym, Hn. by apply IH.
Qed.

Lemma entries_snoc name name' (caches : SimpleCaches) :
  simple_entries name (caches ++ [(name', [])])%list = simple_entries name caches.
Proof.
  unfold simple_entries. induction caches as [|[n es] caches IH]; simpl.
  - by destruct (String.eqb name' name).
  - destruct (String.eqb n name); [done | apply IH].
Qed.

Lemma entries_open name name' (caches : SimpleCaches) :
  simple_entries name (simple_open name' caches) = simple_entries name caches.
Proof.
  unfold simple_open. destruct (existsb _ _); [done | apply entries_snoc].
Qed.

Lemma delete_names (names : list string) (caches : SimpleCaches) :
  foldl (fun c cacheName =>
           if negb (String.eqb cacheName CACHE_NAME)
           then simple_delete cacheName c else c) caches names
  = List.filter (fun c => String.eqb (fst c) CACHE_NAME
                          || negb (existsb (String.eqb (fst c)) names)) caches.
Proof.
  revert caches. induction names as [|n names IH]; intros caches; simpl.
  - symmetry. clear. induction caches as [|c caches IH]; [done |]. simpl.
    rewrite orb_true_r. by rewrite IH.
  - rewrite IH. clear IH.
    induction caches as [|c caches IHc]; simpl.
    + by destruct (negb _).
    + destruct (String.eqb_spec n CACHE_NAME) as [-> | Hn]; simpl.
      * destruct (String.eqb_spec (fst c) CACHE_NAME) as [Hc | Hc]; simpl.
        -- f_equal. apply IHc.
        -- destruct (existsb _ names); simpl; [apply IHc | f_equal; apply IHc].
      * unfold simple_delete in *. simpl.
        destruct (String.eqb_spec (fst c) n) as [Hc | Hc]; simpl.
        -- assert (String.eqb (fst c) CACHE_NAME = false) as ->
             by (apply String.eqb_neq; congruence).
           simpl. apply IHc.
        -- destruct (String.eqb (fst c) CACHE_NAME
                     || negb (existsb (String.eqb (fst c)) names));
             [f_equal |]; apply IHc.
Qed.

Lemma existsb_own_name (caches : SimpleCaches) c :
  In c caches -> existsb (String.eqb (fst c)) (simple_keys caches) = true.
Proof.
  intros Hc. apply existsb_exists. exists (fst c).
  split; [| apply String.eqb_refl].
  unfold simple_keys. apply list_elem_of_In, list_elem_of_fmap.
  exists c. split; [done | by apply list_elem_of_In].
Qed.

Lemma filter_ext_in' {A} (p q : A -> bool) (l : list A) :
  (forall x, In x l -> p x = q x) -> List.filter p l = List.filter q l.
Proof.
  induction l as [|x l IH]; intros H; [done |]. simpl.
  rewrite (H x) by (by left). rewrite IH; [done |].
  intros y Hy. apply H. by right.
Qed.

Lemma onActivate_filter (caches : SimpleCaches) :
  onActivate caches
  = List.filter (fun c => String.eqb (fst c) CACHE_NAME) caches.
Proof.
  unfold onActivate. rewrite delete_names. apply filter_ext_in'.
  intros c Hc. rewrite (existsb_own_name caches c Hc). simpl.
  by rewrite orb_false_r.
Qed.

Lemma simple_put_match name url body (caches : SimpleCaches) :
  simple_match caches url = None ->
  simple_match (simple_put name url body caches) url = Some body.
Proof.
  induction caches as [|[n es] caches IH]; simpl.
  - intros _. unfold simple_lookup. simpl. by rewrite String.eqb_refl.
  - destruct (simple_lookup url es) as [b|] eqn:Hes; [done |].
    intros Hrest. destruct (String.eqb n name); simpl.
    + unfold simple_lookup. simpl. by rewrite String.eqb_refl.
    + rewrite Hes. by apply IH.
Qed.

End LifeFacts.

Module LifeTheorems.
Import JsString ServiceWorker WorkerLife LifeFacts.

#[local] Arguments CACHE_NAME : simpl never.

(** X24. Installation succeeds exactly when
    every URL of the manifest can be fetched, and then the cache of the
    current version answers each of them with what was fetched; when
    it fails nothing is stored; the caches of other versions are left
    as they are either way. *)
Theorem onInstall_all_or_nothing (network : string -> option string)
        (caches : SimpleCaches) :
  let result := onInstall network caches in
  (result.1 = true <-> forall url, In url urlsToCache -> is_Some (network url))
  /\ (result.1 = true -> forall url, In url urlsToCache ->
        simple_lookup url (simple_entries CACHE_NAME result.2) = network url)
  /\ (result.1 = false ->
        simple_entries CACHE_NAME result.2 = simple_entries CACHE_NAME caches)
  /\ (forall name, name <> CACHE_NAME ->
        simple_entries name result.2 = simple_entries name caches).
Proof.
  intros result. subst result. unfold onInstall, fetch_all, urlsToCache.
  destruct (network "/") as [b1|] eqn:H1;
    destruct (network "/static/styles.css?v=14") as [b2|] eqn:H2;
    destruct (network "/static/app.js?v=9") as [b3|] eqn:H3;
    cbn [mapM fmap option_fmap option_map mbind option_bind mret option_ret
         fst snd foldl];
    rewrite ?H1, ?H2, ?H3;
    cbn [mapM fmap option_fmap option_map mbind option_bind mret option_ret
         fst snd foldl].
  1: { split; [| split; [| split]].
       - split; [| done]. intros _ url [<- | [<- | [<- | []]]]; by eexists.
       - intros _ url Hurl.
         rewrite !entries_put_same.
         destruct Hurl as [<- | [<- | [<- | []]]]; by rewrite ?H1, ?H2, ?H3.
       - done.
       - intros name Hne. rewrite !entries_put_other by done.
         apply entries_open. }
  all: split; [| split; [| split]];
    [ split; [done |]; intros Hall;
      first [ destruct (Hall "/") as [? Hx]; [simpl; tauto |]; congruence
            | destruct (Hall "/static/styles.css?v=14") as [? Hx];
              [simpl; tauto |]; congruence
            | destruct (Hall "/static/app.js?v=9") as [? Hx];
              [simpl; tauto |]; congruence ]
    | done
    | intros _; apply entries_open
    | intros name _; apply entries_open ].
Qed.

(** X25. Activation deletes every cache
    but the one named [CACHE_NAME] and leaves that one as it was;
    afterwards a request is answered from the cache exactly when the
    current version's cache holds it; activating twice changes nothing
    more. *)
Theorem onActivate_keeps_current_only (caches : SimpleCaches) :
  let caches' := onActivate caches in
  Forall (fun name => name = CACHE_NAME) (simple_keys caches')
  /\ simple_entries CACHE_NAME caches' = simple_entries CACHE_NAME caches
  /\ (forall name, name <> CACHE_NAME -> simple_entries name caches' = [])
  /\ onActivate caches' = caches'
  /\ (NoDup (simple_keys caches) ->
      forall url, simple_match caches' url
                  = simple_lookup url (simple_entries CACHE_NAME caches)).
Proof.
  intros caches'. subst caches'. rewrite !onActivate_filter.
  split; [| split; [| split; [| split]]].
  - unfold simple_keys. apply Forall_fmap, Forall_forall.
    intros c [_ Hc]%list_elem_of_In%filter_In. by apply String.eqb_eq.
  - unfold simple_entries. induction caches as [|[n es] caches IH]; [done |].
    simpl. destruct (String.eqb n CACHE_NAME) eqn:Hn; simpl; [by rewrite Hn |].
    apply IH.
  - intros name Hne. unfold simple_entries.
    induction caches as [|[n es] caches IH]; [done |].
    cbn [List.filter fst].
    destruct (String.eqb n CACHE_NAME) eqn:Hn; [| apply IH].
    cbn [List.find fst]. apply String.eqb_eq in Hn.
    assert (String.eqb n name = false) as ->
      by (apply String.eqb_neq; congruence).
    apply IH.
  - induction caches as [|[n es] caches IH]; [done |]. simpl.
    destruct (String.eqb n CACHE_NAME) eqn:Hn; simpl; [| apply IH].
    rewrite Hn. f_equal. apply IH.
  - intros Hnd url. unfold simple_entries, simple_keys in *.
    induction caches as [|[n es] caches IH]; [done |]. simpl in *.
    apply NoDup_cons in Hnd as [Hn Hnd].
    destruct (String.eqb n CACHE_NAME) eqn:Hname; cbn [simple_match fmap
      option_fmap option_map default from_option snd id].
    + apply String.eqb_eq in Hname.
      destruct (simple_lookup url es) as [b|]; [done |].
      assert (List.filter (fun c => String.eqb (fst c) CACHE_NAME) caches = [])
        as ->; [| done].
      clear IH Hnd. induction caches as [|[n' es'] caches IH]; [done |].
      cbn [List.filter fst].
      destruct (String.eqb n' CACHE_NAME) eqn:Hn'.
      * exfalso. apply Hn. apply String.eqb_eq in Hn'. simpl.
        rewrite Hname, Hn'. left.
      * apply IH. intros ?. apply Hn. simpl. by right.
    + by apply IH.
Qed.

Section Handler.
Context {Caches Rq Rs : Type} `{CacheApi Caches Rq Rs}.

(** X26. Once the response to a request with
    [/events] in its URL has been fetched and cached, every later
    fetch of that request gets this same response from the cache,
    whatever the network would answer by then, also nothing, and the
    cache is not written again (for a cache storage in which an entry
    that was put is found). *)
Theorem cached_response_is_final (network later : Rq -> option Rs)
        (request : Rq) (caches : Caches) (fetchResponse : Rs) :
  (forall name rq rs c, caches_match c rq = None ->
     caches_match (cache_put name rq rs c) rq = Some rs) ->
  caches_match caches request = None ->
  network request = Some fetchResponse ->
  events_bearing request = true ->
  let caches' := (onFetch network request caches).2 in
  (onFetch network request caches).1 = Some fetchResponse
  /\ onFetch later request caches' = (Some fetchResponse, caches').
Proof.
  intros Hlaw Hmiss Hnet Hev caches'. subst caches'.
  unfold onFetch. rewrite Hmiss, Hnet, Hev. cbn [fst snd].
  split; [done |]. by rewrite (Hlaw _ _ _ _ Hmiss).
Qed.

End Handler.

End LifeTheorems.

Module SessionFacts.
Import JsString JsNumber Store Saves Controls Session FilterSpec FilterFacts
  SavesFacts.

Section WithServer.
Context {Server : Type}.
Variable respond : Server -> Request -> Reply * Server.

Lemma ask_run rq (w : World Server) :
  ask respond rq w = ((respond (w_server w) rq).1, asked respond rq w).
Proof. unfold ask, asked. by destruct (respond (w_server w) rq). Qed.

Lemma shown_run message type (w : World Server) :
  showToast message type w
  = (tt, {| w_app := w_app w; w_server := w_server w;
            w_log := w_log w ++ [Toast message type] |}).
Proof. done. Qed.

Lemma loadUserSaves_none (w : World Server) :
  currentUser (w_app w) = None -> loadUserSaves (serve respond) w = (tt, w).
Proof.
  intros Hu. unfold loadUserSaves, bind, get_app. by rewrite Hu.
Qed.

Lemma serve_view rq (srv : Server) :
  serve respond srv rq
  = (saves_view (respond srv rq).1, (respond srv rq).2).
Proof. unfold serve. by destruct (respond srv rq). Qed.

End WithServer.

End SessionFacts.

Module SessionTheorems.
Import JsString JsNumber Store Saves Controls Session FilterSpec FilterFacts
  SavesFacts SessionFacts.

Section WithServer.
Context {Server : Type}.
Variable respond : Server -> Request -> Reply * Server.

(** X27. [sendOtp] sends nothing unless the
    trimmed address is not empty and contains an [@]: otherwise it
    shows one error and leaves the server alone. With such an address
    it sends exactly one request, for that address. It never changes
    the state of the page. *)
Theorem sendOtp_validates_email (resend : bool) (emailEl : option string)
        (w : World Server) :
  let email := input_value emailEl in
  let w' := (sendOtp respond resend emailEl w).2 in
  w_app w' = w_app w
  /\ (email = "" \/ ~ substring_of "@" email ->
      w_server w' = w_server w
      /\ w_log w' = (w_log w
           ++ [Toast "Please enter a valid email address." "error"])%list)
  /\ (email <> "" -> substring_of "@" email ->
      w_server w' = (respond (w_server w) (send_otp_request email)).2
      /\ exists shown,
           w_log w' = (w_log w ++ Fetched (send_otp_request email) :: shown)%list
           /\ omap is_fetch shown = []).
Proof.
  intros email w'. subst w'. unfold sendOtp. fold email.
  destruct (includes email "@") eqn:Hat.
  - apply includes_spec in Hat.
    destruct email as [|c email'] eqn:He.
    + cbn [truthy negb orb]. rewrite shown_run. cbn [snd w_app w_server w_log].
      split; [done |]. split; [done |]. by intros ?.
    + cbn [truthy negb orb]. unfold bind. rewrite ask_run.
      split; [| split].
      * destruct (respond (w_server w) _).1 as [|status [data|]];
          [done | | done].
        destruct (b_success data); [by destruct resend | done].
      * intros [? | Hno]; [done | by destruct Hno].
      * intros _ _.
        destruct (respond (w_server w) _).1 as [|status [data|]].
        -- split; [done |]. eexists. split; [| shelve].
           rewrite shown_run. cbn [snd w_log asked].
           by rewrite <- app_assoc.
        -- destruct (b_success data); [destruct resend |].
           ++ split; [done |]. eexists. split; [| shelve].
              rewrite shown_run. cbn [snd w_log asked]. by rewrite <- app_assoc.
           ++ split; [done |]. exists []. done.
           ++ split; [done |]. eexists. split; [| shelve].
              rewrite shown_run. cbn [snd w_log asked]. by rewrite <- app_assoc.
        -- split; [done |]. eexists. split; [| shelve].
           rewrite shown_run. cbn [snd w_log asked]. by rewrite <- app_assoc.
        Unshelve. all: done.
  - assert (~ substring_of "@" email) as Hno
      by (rewrite <- includes_spec; congruence).
    rewrite orb_true_r. rewrite shown_run. cbn [snd w_app w_server w_log].
    split; [done |]. split; [done |]. by intros _ ?.
Qed.

Lemma initUserSession_run (w : World Server) :
  let answer := (respond (w_server w) me_request).1 in
  initUserSession respond w
  = if session_found answer
    then loadUserSaves (serve respond)
           {| w_app := set_currentUser (body_of answer ≫= b_user) (w_app w);
              w_server := (respond (w_server w) me_request).2;
              w_log := w_log w ++ [Fetched me_request] |}
    else (tt, asked respond me_request w).
Proof.
  intros answer. unfold initUserSession, bind. rewrite ask_run. fold answer.
  destruct answer as [|status [data|]]; cbn [session_found]; try done.
  by destruct (b_logged_in data).
Qed.

Lemma loadEvents_run (w : World Server) :
  let answer := (respond (w_server w) events_request).1 in
  (loadEvents respond w).2
  = match answer with
    | Answered _ (Some data) =>
        if b_success data then
          {| w_app := populateSourceFilter
                        (set_filteredEvents (b_events data)
                           (set_allEvents (b_events data) (w_app w)));
             w_server := (respond (respond (w_server w) events_request).2
                                  stats_request).2;
             w_log := w_log w ++ [Fetched events_request;
                                  Fetched stats_request] |}
        else asked respond events_request w
    | _ => {| w_app := w_app w;
              w_server := (respond (w_server w) events_request).2;
              w_log := w_log w ++ [Fetched events_request;
                                   ConsoleError "Error loading events:"] |}
    end.
Proof.
  intros answer. unfold loadEvents, bind. rewrite ask_run. fold answer.
  destruct answer as [|status [data|]].
  - unfold emit, asked. cbn [w_app w_server w_log snd]. by rewrite <- app_assoc.
  - destruct (b_success data); [| done].
    unfold modify_app, ret. cbn [snd fst]. rewrite ask_run.
    unfold asked. cbn [w_app w_server w_log snd]. by rewrite <- app_assoc.
  - unfold emit, asked. cbn [w_app w_server w_log snd]. by rewrite <- app_assoc.
Qed.

(** X28. [verifyOtp] sends nothing unless the
    trimmed code has six characters. A code that is not accepted (the
    answer does not say [success], is not JSON, or does not come)
    costs one request and one error toast and changes nothing on the
    page, so the visitor stays anonymous with the bookmarks and can
    try again without limit. An accepted code with a user in the
    answer is followed by [onLoginSuccess] for that user. *)
Theorem verifyOtp_outcomes (emailEl codeEl : option string) (w : World Server) :
  let email := input_value emailEl in
  let code := input_value codeEl in
  let rq := verify_otp_request email code in
  let answer := (respond (w_server w) rq).1 in
  let w' := (verifyOtp respond emailEl codeEl w).2 in
  (String.length code <> 6%nat ->
     w_app w' = w_app w /\ w_server w' = w_server w
     /\ w_log w' = (w_log w
          ++ [Toast "Please enter the 6-digit code." "error"])%list)
  /\ (String.length code = 6%nat -> accepted answer = false ->
     w_app w' = w_app w /\ w_server w' = (respond (w_server w) rq).2
     /\ w_log w' = (w_log w
          ++ [Fetched rq;
              Toast (refusal answer "Invalid or expired code.") "error"])%list)
  /\ (String.length code = 6%nat -> accepted answer = true ->
     forall user, b_user <$> body_of answer = Some (Some user) ->
       w' = (onLoginSuccess (serve respond) user (asked respond rq w)).2).
Proof.
  intros email code rq answer w'. subst w'. unfold verifyOtp.
  fold email code rq.
  destruct (Nat.eqb_spec (String.length code) 6) as [Hlen | Hlen].
  - assert (truthy (Some code) = true) as -> by (by destruct code).
    cbn [negb orb]. unfold bind. rewrite ask_run. fold answer.
    split; [by intros ? |]. split.
    + intros _ Hacc.
      destruct answer as [|status [data|]]; cbn [accepted refusal] in *.
      * rewrite shown_run. cbn [snd w_app w_server w_log asked].
        by rewrite <- app_assoc.
      * rewrite Hacc. rewrite shown_run. cbn [snd w_app w_server w_log asked].
        by rewrite <- app_assoc.
      * rewrite shown_run. cbn [snd w_app w_server w_log asked].
        by rewrite <- app_assoc.
    + intros _ Hacc user Huser.
      destruct answer as [|status [data|]]; cbn [accepted body_of] in *;
        try done.
      rewrite Hacc. simpl in Huser. injection Huser as ->. done.
  - rewrite orb_true_r. rewrite shown_run. cbn [snd w_app w_server w_log].
    split; [done |]. split; by intros ?.
Qed.

(** X29. The session check at page load never
    shows an error and never touches the bookmarks or their mirror
    (there is no migration here). Unless the answer says [logged_in],
    it changes nothing at all and sends only its own request; if it
    does, the user of the answer is signed in and the saves are
    loaded. *)
Theorem initUserSession_outcomes (w : World Server) :
  let answer := (respond (w_server w) me_request).1 in
  let w' := (initUserSession respond w).2 in
  bookmarkedIds (w_app w') = bookmarkedIds (w_app w)
  /\ localStorage (w_app w') = localStorage (w_app w)
  /\ (exists shown, w_log w' = (w_log w ++ Fetched me_request :: shown)%list
        /\ existsb is_error_toast shown = false
        /\ omap is_fetch shown
           = (if session_found answer
                 && bool_decide (is_Some (body_of answer ≫= b_user))
              then [saves_request] else []))
  /\ (session_found answer = false -> w_app w' = w_app w)
  /\ (session_found answer = true ->
      currentUser (w_app w') = (body_of answer ≫= b_user)).
Proof.
  intros answer w'. subst w'.
  rewrite initUserSession_run. fold answer.
  destruct answer as [|status [data|]];
    cbn [session_found body_of mbind option_bind];
    try (cbn [snd w_app w_log asked]; split; [done |]; split; [done |];
         split; [by exists [] |]; split; [by intros _ | done]).
  destruct (b_logged_in data) eqn:Hlog.
  - destruct (b_user data) as [u|] eqn:Hu.
    + match goal with |- context [loadUserSaves (serve respond) ?w1] =>
        destruct (loadUserSaves_run (serve respond) w1 ltac:(by eexists))
          as (saved & srv & shown & -> & Hf & He)
      end.
      cbn [snd w_app w_log asked]. split; [done |]. split; [done |].
      split; [| split; [done | by intros _]].
      exists (Fetched saves_request :: shown). rewrite <- app_assoc.
      split; [done |]. split; [done |].
      cbn [omap list_omap is_fetch andb]. rewrite Hf.
      by rewrite bool_decide_eq_true_2 by (by eexists).
    + rewrite loadUserSaves_none by done. cbn [snd w_app w_log asked].
      split; [done |]. split; [done |].
      split; [| split; [done | by intros _]].
      exists []. split; [done |]. split; [done |].
      by rewrite bool_decide_eq_false_2 by (by intros [? ?]).
  - cbn [snd w_app w_log asked]. split; [done |]. split; [done |].
    split; [by exists [] |]. split; [by intros _ | done].
Qed.

(** X30. When the event list is loaded, the
    store is replaced by the list received and the list shown is the
    whole store: the source selection goes back to 'all', while the
    category, the month and the neighbourhood stay selected without
    being applied, and the request for the statistics goes out. When
    loading fails, in whatever way, nothing changes on the page and no
    error is shown; [refreshEvents] reports "Events refreshed!" all
    the same. *)
Theorem loadEvents_replaces_store (w : World Server) :
  let answer := (respond (w_server w) events_request).1 in
  let st := w_app w in
  let st' := w_app (loadEvents respond w).2 in
  (accepted answer = false -> st' = st)
  /\ (forall data, body_of answer = Some data -> b_success data = true ->
        allEvents st' = b_events data /\ filteredEvents st' = b_events data
        /\ currentSource st' = "all"
        /\ currentCategory st' = currentCategory st
        /\ currentMonth st' = currentMonth st
        /\ currentNeighborhood st' = currentNeighborhood st
        /\ bookmarkedIds st' = bookmarkedIds st
        /\ savedEventIds st' = savedEventIds st
        /\ currentUser st' = currentUser st
        /\ localStorage st' = localStorage st)
  /\ w_app (refreshEvents respond w).2 = st'
  /\ exists shown,
       w_log (refreshEvents respond w).2
       = (w_log w ++ Fetched events_request :: shown
          ++ [Toast "Events refreshed!" "success"])%list
       /\ existsb is_error_toast shown = false
       /\ omap is_fetch shown
          = (if accepted answer then [stats_request] else []).
Proof.
  intros answer st st'. subst st' st.
  assert (w_app (refreshEvents respond w).2 = w_app (loadEvents respond w).2
          /\ w_log (refreshEvents respond w).2
             = (w_log (loadEvents respond w).2
                ++ [Toast "Events refreshed!" "success"])%list) as [Happ Hlog].
  { unfold refreshEvents, bind. by destruct (loadEvents respond w) as [[] w1]. }
  rewrite Happ, Hlog, loadEvents_run. fold answer.
  split; [| split; [| split; [done |]]].
  - intros Hacc. destruct answer as [|status [data|]]; try done.
    cbn [accepted] in Hacc. by rewrite Hacc.
  - intros data Hbody Hs.
    destruct answer as [|status [d|]]; try done.
    cbn [body_of] in Hbody. injection Hbody as ->. rewrite Hs. repeat split.
  - destruct answer as [|status [data|]]; cbn [accepted].
    + exists [ConsoleError "Error loading events:"].
      cbn [w_log]. by rewrite <- !app_assoc.
    + destruct (b_success data).
      * exists [Fetched stats_request]. cbn [w_log]. by rewrite <- !app_assoc.
      * exists []. unfold asked. cbn [w_log]. by rewrite <- !app_assoc.
    + exists [ConsoleError "Error loading events:"].
      cbn [w_log]. by rewrite <- !app_assoc.
Qed.

End WithServer.

End SessionTheorems.

(** * Scenarios of the specification, run on the model *)

Module Scenarios.
Import JsString JsNumber JsDate DateParsing Exn JsObject Store Filter Render
  Saves ServiceWorker Wire Samples.

(** One music event starting ["2026-03-01T00:00:00"]: the category
    'music' keeps it, 'running' leaves nothing. *)
Example category_filter_scenario :
  let st := initial_state [jazz_night] in
  (exists shown,
     applyFilters eastern (select_category "music" st) = Ok shown
     /\ ev_id <$> filteredEvents shown = [1])
  /\ applyFilters eastern (select_category "running" st)
     = Ok (set_filteredEvents [] (select_category "running" st)).
Proof. split; [eexists; split |]; by vm_compute. Qed.

(** A neighbourhood called 'constructor': the click throws, the
    selection stays and the list shown is the one from before. Where
    there is no event, nothing is looked up and nothing is thrown. *)
Example inherited_name_scenario :
  let clicked := Controls.handleNeighborhoodFilter eastern "constructor" calendar in
  clicked.2 = Some (NotAFunction "keywords.some")
  /\ currentNeighborhood clicked.1 = "constructor"
  /\ ev_id <$> filteredEvents clicked.1 = [1; 2; 3]
  /\ (Controls.handleNeighborhoodFilter eastern "constructor" (initial_state [])).2
     = None.
Proof. repeat split; by vm_compute. Qed.

(** The mirror written for the bookmarks 3, -7 and 12 and read back;
    a number with a leading zero is not covered. *)
Example bookmarks_mirror_scenario :
  stringify_ids [3; -7; 12] = "[3,-7,12]"
  /\ ids_of_json "[3,-7,12]" = Some [3; -7; 12]
  /\ ids_of_json "[]" = Some []
  /\ ids_of_json "[03]" = None
  /\ bookmarkedIds <$> loadBookmarks visitor = Some [1; 2; 3].
Proof. repeat split; by vm_compute. Qed.

(** A signed-in user removes the saved event 3: while the request is
    out the set still holds it; it goes when the answer confirms. *)
Example pending_save_scenario :
  let w := start member [3] in
  (exists resume,
     toggleSave_start 3 w
     = (Awaiting {| rq_method := DELETE; rq_url := "/profile/saves/3";
                    rq_body := None |} resume, w))
  /\ savedEventIds (w_app (toggleSave picky_server 3 w).2) = [].
Proof. split; [eexists |]; by vm_compute. Qed.

(** The three sample events fall on two days; the days come out in
    order, the events of 1 March in the order of the store. *)
Example day_groups_scenario :
  (fun g => (dg_key g, row_index <$> dg_rows g))
    <$> renderGroupedByDay eastern calendar
  = [("2026-03-01", [0; 2]%nat); ("2026-05-03", [1]%nat)].
Proof. by vm_compute. Qed.

(** Toggling a bookmark twice gives back the same members; an id that
    was in the set moves to the end of its order, and of the mirror. *)
Example toggle_twice_scenario :
  let w := start visitor tt in
  let w2 := (toggleBookmark 1 (toggleBookmark 1 w).2).2 in
  bookmarkedIds (w_app w2) = [2; 3; 1]
  /\ localStorage (w_app w2) !! BOOKMARKS_KEY = Some "[2,3,1]".
Proof. split; by vm_compute. Qed.

(** Signing in without a connection: three requests go out and fail,
    the bookmarks are cleared, nothing is saved and no error is shown. *)
Example offline_login_scenario :
  let w' := (onLoginSuccess offline_server ada (start visitor tt)).2 in
  omap is_fetch (w_log w')
  = [save_request 1; save_request 2; save_request 3; saves_request]
  /\ bookmarkedIds (w_app w') = []
  /\ savedEventIds (w_app w') = []
  /\ localStorage (w_app w') !! BOOKMARKS_KEY = Some "[]"
  /\ existsb is_error_toast (w_log w') = false.
Proof. repeat split; by vm_compute. Qed.

(** A signed-in user saves event 2 on the server that refuses it: one
    request, the mirror of the saves unchanged. *)
Example refused_save_scenario :
  let w := start (set_currentUser (Some ada) calendar) ([] : list Z) in
  let w' := (toggleSave picky_server 2 w).2 in
  omap is_fetch (w_log w') = [save_request 2]
  /\ savedEventIds (w_app w') = []
  /\ w_server w' = [].
Proof. repeat split; by vm_compute. Qed.

(** A cached page is served from the cache; the script is fetched and
    passed on without being stored. *)
Example worker_scenario :
  onFetch online "/" installed = (Some "<html>", installed)
  /\ onFetch online "/static/app.js?v=9" installed = (Some "script", installed).
Proof. split; by vm_compute. Qed.

Import Controls EventForm Markup Accounts WorkerLife Session.

(** The menus offer the months and the sources of the sample
    calendar, each once, the source trimmed. *)
Example filter_options_scenario :
  monthOptions eastern calendar = ["2026-03"; "2026-05"]
  /\ sourceOptions calendar = ["Eventbrite"; "Visit Philly"].
Proof. split; by vm_compute. Qed.

(** A description with tags and entities; an entity that was escaped
    twice is decoded twice; a [<] without a [>] stays. *)
Example stripHtml_scenario :
  stripHtml (ev_description street_fair) = "Food & crafts on South Street"
  /\ stripHtml (Some "&amp;lt;b&amp;gt;") = "<b>"
  /\ stripHtml (Some "a < b and c > d") = "a d"
  /\ stripHtml (Some "1 < 2") = "1 < 2"
  /\ escapeHtml (ev_title pop_up) = "Pop-up &lt;Market&gt;".
Proof. repeat split; by vm_compute. Qed.

(** A wrong code twice, then the right one: three requests for the
    codes, two errors, and the visitor's bookmarks migrated. *)
Example otp_scenario :
  let email := Some " ada@example.org " in
  let w1 := (verifyOtp front_desk email (Some "000000") (start visitor 0%nat)).2 in
  let w2 := (verifyOtp front_desk email (Some "12345") w1).2 in
  let w3 := (verifyOtp front_desk email (Some "111111") w2).2 in
  let w4 := (verifyOtp front_desk email (Some "123456") w3).2 in
  currentUser (w_app w3) = None
  /\ bookmarkedIds (w_app w3) = [1; 2; 3]
  /\ w_server w3 = 2%nat
  /\ List.filter is_error_toast (w_log w3)
     = [Toast "Invalid or expired code." "error";
        Toast "Please enter the 6-digit code." "error";
        Toast "Invalid or expired code." "error"]
  /\ currentUser (w_app w4) = Some ada
  /\ bookmarkedIds (w_app w4) = []
  /\ savedEventIds (w_app w4) = [3].
Proof. repeat split; by vm_compute. Qed.

(** Reloading the events: the store is replaced, the source selection
    reset, the category kept but not applied. *)
Example loadEvents_scenario :
  let w := start (select_category "running" calendar) 0%nat in
  let st' := w_app (loadEvents front_desk w).2 in
  ev_id <$> allEvents st' = [1; 3]
  /\ ev_id <$> filteredEvents st' = [1; 3]
  /\ currentCategory st' = "running"
  /\ omap is_fetch (w_log (loadEvents front_desk w).2)
     = [events_request; stats_request].
Proof. repeat split; by vm_compute. Qed.

(** Installation fails when one file of the manifest cannot be
    fetched; activation removes the cache of the version before. *)
Example life_cycle_scenario :
  (onInstall online installed).1 = false
  /\ onActivate (("philly-calendar-v13", [("/", "old")]) :: installed)
     = installed.
Proof. split; by vm_compute. Qed.

End Scenarios.

(** * The theorems at work on the sample data *)

Module Witnesses.
Import JsString JsNumber JsDate DateParsing Exn Store Filter FilterSpec Render
  Saves ServiceWorker Wire Samples.

Lemma feb18_ok : stamp_ok feb18.
Proof. unfold stamp_ok. simpl. lia. Defined.

Lemma eastern_faithful t :
  Z.abs (t + est_offset) <= 8640000000000000 -> zone_faithful_at eastern t.
Proof. intros Ht. split; simpl; [done | lia]. Defined.

(** The two forms of 18 February 2026, 19:30:00 in Philadelphia. *)
Lemma parseLocalDate_encodings_agree_witness :
  stamp_ok feb18
  /\ zone_faithful_at eastern (stamp_local_time feb18)
  /\ parseLocalDate eastern (Some (rfc2822_encode Wed false feb18))
     = parseLocalDate eastern (Some (iso_encode false feb18))
  /\ local_fields eastern
       (parseLocalDate eastern (Some "Wed, 18 Feb 2026 19:30:00 GMT"))
     = [Some 2026; Some 1; Some 18; Some 19; Some 30; Some 0].
Proof.
  assert (zone_faithful_at eastern (stamp_local_time feb18)) as Hz.
  { apply eastern_faithful. vm_compute. discriminate. }
  destruct (WireFacts.parseLocalDate_encodings_agree eastern Wed false false
              feb18 feb18_ok) as (Heq & _ & _ & _ & Hfeb).
  split; [exact feb18_ok |]. split; [exact Hz |].
  split; [exact Heq | exact (Hfeb Hz)].
Defined.

(** ["garbage"] meets every premise of the invalid-date case. *)
Lemma parseLocalDate_fallback_witness :
  "garbage" <> ""
  /\ match_rfc2822 "garbage" = None
  /\ iso_date_part "garbage" <> ""
  /\ Number (iso_year_text "garbage") = JNaN
  /\ parseLocalDate eastern (Some "garbage") = InvalidDate.
Proof.
  assert ("garbage" <> "") as H1 by discriminate.
  assert (match_rfc2822 "garbage" = None) as H2 by reflexivity.
  assert (iso_date_part "garbage" <> "") as H3 by (vm_compute; discriminate).
  assert (Number (iso_year_text "garbage") = JNaN) as H4 by reflexivity.
  repeat (split; [assumption |]).
  exact (proj2 (proj2 (WireFacts.parseLocalDate_fallback eastern))
           "garbage" H1 H2 H3 H4).
Defined.

(** 'constructor' is no pill of the table, but the table inherits
    it: the filter throws. "Johnny Brenda's, Fishtown" holds the
    keyword [fishtown] with a capital: the event passes. *)
Lemma neighborhood_predicate_witness :
  currentNeighborhood (select_neighborhood "constructor" calendar) <> "all"
  /\ inherited_name "constructor"
  /\ allEvents (select_neighborhood "constructor" calendar) <> []
  /\ applyFilters eastern (select_neighborhood "constructor" calendar)
     = Throw (NotAFunction "keywords.some")
  /\ currentNeighborhood (select_neighborhood "Fishtown" calendar) <> "all"
  /\ NEIGHBORHOOD_KEYWORDS !! "Fishtown"
     = Some ["fishtown"; "frankford ave"; "johnny brenda"]
  /\ spelled_as "fishtown" "Fishtown" = true
  /\ substring_of "Fishtown" "Johnny Brenda's, Fishtown"
  /\ matchesNeighborhood (select_neighborhood "Fishtown" calendar) jazz_night
     = Ok true.
Proof.
  assert (currentNeighborhood (select_neighborhood "constructor" calendar)
          <> "all") as H1 by (simpl; discriminate).
  assert (inherited_name "constructor") as H2
    by (split; [vm_compute; reflexivity | left]).
  assert (allEvents (select_neighborhood "constructor" calendar) <> []) as H3
    by (simpl; discriminate).
  assert (currentNeighborhood (select_neighborhood "Fishtown" calendar) <> "all")
    as H4 by (simpl; discriminate).
  assert (NEIGHBORHOOD_KEYWORDS !! "Fishtown"
          = Some ["fishtown"; "frankford ave"; "johnny brenda"]) as H5
    by (vm_compute; reflexivity).
  assert (spelled_as "fishtown" "Fishtown" = true) as H6 by reflexivity.
  assert (substring_of "Fishtown" "Johnny Brenda's, Fishtown") as H7
    by (exists "Johnny Brenda's, ", ""; reflexivity).
  split; [exact H1 |]. split; [exact H2 |]. split; [exact H3 |].
  split.
  { exact (proj1 (proj2 (proj1
      (FilterFacts.neighborhood_predicate eastern
         (select_neighborhood "constructor" calendar) H1) H2) H3)). }
  split; [exact H4 |]. split; [exact H5 |]. split; [exact H6 |].
  split; [exact H7 |].
  exact (proj2 (proj2 (proj2
    (FilterFacts.neighborhood_predicate eastern
       (select_neighborhood "Fishtown" calendar) H4)) _ H5)
    "fishtown" "Fishtown" "Johnny Brenda's, Fishtown" jazz_night
    (or_introl eq_refl) H6 eq_refl H7).
Defined.

(** The first event of the sample calendar, which starts
    ["2026-03-01T00:00:00"], and its group. *)
Lemma renderGroupedByDay_partition_witness :
  filteredEvents calendar !! 0%nat = Some jazz_night
  /\ ev_start_date jazz_night
     = Some (iso_encode false (WireForms.at_midnight mar1_midnight))
  /\ eventKey eastern jazz_night = "2026-03-01"
  /\ exists g, g ∈ renderGroupedByDay eastern calendar
       /\ dg_key g = "2026-03-01"
       /\ createEventRow eastern jazz_night 0 ∈ dg_rows g.
Proof.
  assert (filteredEvents calendar !! 0%nat = Some jazz_night) as H0
    by reflexivity.
  assert (ev_start_date jazz_night
          = Some (iso_encode false (WireForms.at_midnight mar1_midnight)))
    as H1 by reflexivity.
  assert (stamp_ok (WireForms.at_midnight mar1_midnight)) as Hok
    by (unfold stamp_ok; simpl; lia).
  assert (calendar_ok (WireForms.at_midnight mar1_midnight)) as Hcal
    by (split; vm_compute; discriminate).
  assert (clock_ok (WireForms.at_midnight mar1_midnight)) as Hclock
    by (unfold clock_ok; simpl; lia).
  assert (1000 <= st_year (WireForms.at_midnight mar1_midnight)) as Hy
    by (simpl; lia).
  assert (zone_faithful_at eastern
            (stamp_local_time (WireForms.at_midnight mar1_midnight))) as Hz.
  { apply eastern_faithful. vm_compute. discriminate. }
  pose proof (GroupingFacts.renderGroupedByDay_partition eastern calendar)
    as (_ & _ & _ & Hone & _ & Hkey).
  pose proof (Hkey jazz_night (WireForms.at_midnight mar1_midnight)
                (or_introl (ex_intro _ false H1)) Hok Hcal Hclock Hy Hz)
    as Hk.
  split; [exact H0 |]. split; [exact H1 |]. split; [exact Hk |].
  destruct (Hone 0%nat jazz_night H0) as (g & Hg & Hgk & Hr & _).
  exists g. split; [exact Hg |]. split; [| exact Hr].
  exact (eq_trans Hgk Hk).
Defined.

Lemma mar1_ok : stamp_ok mar1_midnight /\ clock_ok mar1_midnight.
Proof. unfold stamp_ok, clock_ok. simpl. lia. Defined.

(** A set that starts at 00:00:45 is shown as "Time TBD". *)
Lemma createEventRow_time_or_tbd_witness :
  ev_start_date late_set = Some (iso_encode false mar1_midnight)
  /\ zone_faithful_at eastern (stamp_local_time mar1_midnight)
  /\ row_time (createEventRow eastern late_set 0) = EventTimeTbd.
Proof.
  assert (ev_start_date late_set = Some (iso_encode false mar1_midnight))
    as H0 by reflexivity.
  assert (zone_faithful_at eastern (stamp_local_time mar1_midnight)) as Hz.
  { apply eastern_faithful. vm_compute. discriminate. }
  split; [exact H0 |]. split; [exact Hz |].
  exact (proj2 (proj2
    (RenderFacts.createEventRow_time_or_tbd eastern late_set 0%nat))
      false mar1_midnight H0 (proj1 mar1_ok) (proj2 mar1_ok) Hz
      eq_refl eq_refl).
Defined.


(** The event list is fetched and cached; the script is passed on. *)
Lemma onFetch_cache_first_witness :
  caches_match installed "/events/upcoming" = None
  /\ online "/events/upcoming" = Some "{events}"
  /\ events_bearing "/events/upcoming" = true
  /\ (onFetch online "/events/upcoming" installed).2
     = cache_put CACHE_NAME "/events/upcoming" "{events}" installed.
Proof.
  assert (caches_match installed "/events/upcoming" = None) as H1
    by reflexivity.
  assert (online "/events/upcoming" = Some "{events}") as H2 by reflexivity.
  assert (events_bearing "/events/upcoming" = true) as H3 by reflexivity.
  split; [exact H1 |]. split; [exact H2 |]. split; [exact H3 |].
  exact (proj1 (proj2 (proj1 (proj2
    (WorkerFacts.onFetch_cache_first online "/events/upcoming" installed))
      H1 "{events}" H2)) H3).
Defined.

Import Controls EventForm Calendar WireForms Markup Accounts WorkerLife Session.

(** The edit form of an event at 11:12:34 shows 11:12, and reads back
    as 11:12:00. *)
Lemma toDatetimeLocal_round_trip_witness :
  100 <= YearFromTime (local_of_utc eastern late_morning)
  /\ zone_faithful_at eastern (minute_floor (local_of_utc eastern late_morning))
  /\ toDatetimeLocal eastern (DateValue late_morning) = "2026-02-18T11:12"
  /\ local_fields eastern (parseLocalDate eastern (Some "2026-02-18T11:12"))
     = [Some 2026; Some 1; Some 18; Some 11; Some 12; Some 0].
Proof.
  assert (100 <= YearFromTime (local_of_utc eastern late_morning)) as H1
    by (vm_compute; discriminate).
  assert (zone_faithful_at eastern
            (minute_floor (local_of_utc eastern late_morning))) as H2.
  { apply eastern_faithful. vm_compute. discriminate. }
  split; [exact H1 |]. split; [exact H2 |]. split; [reflexivity |].
  exact (proj1 (proj2
    (DateTheorems.toDatetimeLocal_round_trip eastern late_morning H1 H2))).
Defined.

(** 18 February comes before 1 March, and so do their keys. *)
Lemma dateKey_chronological_witness :
  1000 <= YearFromTime (local_of_utc eastern late_morning) <= 9999
  /\ 1000 <= YearFromTime (local_of_utc eastern mar1_utc) <= 9999
  /\ Day (local_of_utc eastern late_morning) <= Day (local_of_utc eastern mar1_utc)
  /\ String.le (dateKey eastern (DateValue late_morning))
               (dateKey eastern (DateValue mar1_utc)).
Proof.
  assert (1000 <= YearFromTime (local_of_utc eastern late_morning) <= 9999)
    as H1 by (split; vm_compute; discriminate).
  assert (1000 <= YearFromTime (local_of_utc eastern mar1_utc) <= 9999)
    as H2 by (split; vm_compute; discriminate).
  assert (Day (local_of_utc eastern late_morning)
          <= Day (local_of_utc eastern mar1_utc)) as H3
    by (vm_compute; discriminate).
  split; [exact H1 |]. split; [exact H2 |]. split; [exact H3 |].
  exact (proj2 (proj1
    (DateTheorems.dateKey_chronological eastern late_morning mar1_utc H1 H2))
    H3).
Defined.

(** A [+00:00] after 18 February 2026, 19:30:00 changes nothing. *)
Lemma parseLocalDate_zone_suffix_witness :
  stamp_ok feb18
  /\ parseLocalDate eastern (Some "2026-02-18T19:30:00+00:00")
     = parseLocalDate eastern (Some "2026-02-18T19:30:00").
Proof.
  split; [exact feb18_ok |].
  exact (proj1 (proj2
    (DateTheorems.parseLocalDate_zone_suffix eastern false feb18 "00:00"
       feb18_ok))).
Defined.

(** ["2026-03-01T00:00:45-05:00"]: the seconds are lost with the
    offset. *)
Lemma parseLocalDate_minus_offset_witness :
  stamp_ok mar1_midnight /\ 0 <= 5 <= 99 /\ 0 <= 0 <= 99
  /\ parseLocalDate eastern (Some "2026-03-01T00:00:45-05:00")
     = stamp_date eastern (on_the_minute mar1_midnight).
Proof.
  assert (0 <= 5 <= 99) as H5 by lia.
  assert (0 <= 0 <= 99) as H0 by lia.
  split; [exact (proj1 mar1_ok) |]. split; [exact H5 |]. split; [exact H0 |].
  exact (proj1
    (DateTheorems.parseLocalDate_minus_offset eastern false mar1_midnight 5 0
       (proj1 mar1_ok) H5 H0)).
Defined.

(** Any weekday will do, also one that is none. *)
Lemma parseLocalDate_rfc_words_witness :
  word3 "Day" /\ word3 "Feb" /\ stamp_ok feb18
  /\ parseLocalDate eastern (Some "Day, 18 Feb 2026 19:30:00 GMT")
     = stamp_date eastern feb18.
Proof.
  assert (word3 "Day") as H1 by (split; reflexivity).
  assert (word3 "Feb") as H2 by (split; reflexivity).
  split; [exact H1 |]. split; [exact H2 |]. split; [exact feb18_ok |].
  exact (proj1
    (DateTheorems.parseLocalDate_rfc_words eastern "Day" "Feb" false feb18
       H1 H2 feb18_ok) eq_refl).
Defined.

(** The street fair of 1 March. *)
Lemma date_only_event_witness :
  ev_start_date street_fair = Some (iso_date mar1_midnight)
  /\ stamp_ok mar1_midnight /\ calendar_ok mar1_midnight
  /\ 1000 <= st_year mar1_midnight
  /\ zone_faithful_at eastern (stamp_local_time (at_midnight mar1_midnight))
  /\ eventKey eastern street_fair = "2026-03-01"
  /\ row_time (createEventRow eastern street_fair 0) = EventTimeTbd.
Proof.
  assert (ev_start_date street_fair = Some (iso_date mar1_midnight)) as H1
    by reflexivity.
  assert (calendar_ok mar1_midnight) as H2 by (split; vm_compute; discriminate).
  assert (1000 <= st_year mar1_midnight) as H3 by (simpl; lia).
  assert (zone_faithful_at eastern
            (stamp_local_time (at_midnight mar1_midnight))) as H4.
  { apply eastern_faithful. vm_compute. discriminate. }
  split; [exact H1 |]. split; [exact (proj1 mar1_ok) |]. split; [exact H2 |].
  split; [exact H3 |]. split; [exact H4 |].
  exact (proj2
    (DateTheorems.date_only_event eastern street_fair 0 mar1_midnight
       H1 (proj1 mar1_ok) H2 H3 H4)).
Defined.

(** The pop-up market, whose start cannot be read. *)
Lemma invalid_date_event_witness :
  parseLocalDate eastern (ev_start_date pop_up) = InvalidDate
  /\ eventKey eastern pop_up = "NaN-NaN-NaN"
  /\ String.le (dateKey eastern (DateValue mar1_utc)) (eventKey eastern pop_up).
Proof.
  assert (parseLocalDate eastern (ev_start_date pop_up) = InvalidDate) as H1
    by reflexivity.
  split; [exact H1 |].
  destruct (DateTheorems.invalid_date_event eastern pop_up 0 calendar H1)
    as (Hk & Hle & _).
  split; [exact Hk | exact (Hle mar1_utc)].
Defined.

(** The open mic has no start: it is listed under today, 18 February. *)
Lemma undated_event_today_witness :
  filteredEvents (initial_state [jazz_night; open_mic]) !! 1%nat = Some open_mic
  /\ (ev_start_date open_mic = None \/ ev_start_date open_mic = Some "")
  /\ eventKey eastern open_mic = todayKey eastern.
Proof.
  assert (filteredEvents (initial_state [jazz_night; open_mic]) !! 1%nat
          = Some open_mic) as H1 by reflexivity.
  assert (ev_start_date open_mic = None \/ ev_start_date open_mic = Some "")
    as H2 by (left; reflexivity).
  split; [exact H1 |]. split; [exact H2 |].
  exact (proj1
    (DateTheorems.undated_event_today eastern
       (initial_state [jazz_night; open_mic]) 1 open_mic H1 H2)).
Defined.

(** After a search for "jazz", "clear" shows both events again. *)
Lemma filter_controls_forget_search_witness :
  handleSearch eastern "jazz" weekend
  = Ok (set_filteredEvents [jazz_night] weekend)
  /\ clearFilters eastern (set_filteredEvents [jazz_night] weekend)
     = clearFilters eastern weekend.
Proof.
  assert (handleSearch eastern "jazz" weekend
          = Ok (set_filteredEvents [jazz_night] weekend)) as H1
    by reflexivity.
  split; [exact H1 |].
  exact (proj2 (proj2 (proj2 (proj2
    (ControlTheorems.filter_controls_forget_search eastern "jazz" weekend
       (set_filteredEvents [jazz_night] weekend) H1))))).
Defined.

Lemma escapeHtml_injective_witness :
  escapeHtml (Some "Tom & Jerry's") = escapeHtml (Some "Tom & Jerry's")
  /\ "Tom & Jerry's" = "Tom & Jerry's".
Proof.
  split; [reflexivity |].
  exact (MarkupTheorems.escapeHtml_injective "Tom & Jerry's" "Tom & Jerry's"
           eq_refl).
Defined.

Lemma stripHtml_plain_text_witness :
  lacks "<" "Bring a song" = true /\ lacks "&" "Bring a song" = true
  /\ single_spaced "Bring a song" = true
  /\ stripHtml (ev_description open_mic) = "Bring a song".
Proof.
  split; [reflexivity |]. split; [reflexivity |]. split; [reflexivity |].
  exact (proj1
    (StripTheorems.stripHtml_plain_text "Bring a song" eq_refl eq_refl eq_refl)).
Defined.

(** A visitor toggles a bookmark, signs in, toggles two saves and
    signs out. *)
Lemma session_invariants_witness :
  mirror_synced visitor /\ anonymous_without_saves visitor
  /\ mirror_synced
       (w_app (perform_all picky_server
                 [ToggleBookmark 1; LogIn ada; ToggleSave 2; ToggleSave 3; LogOut]
                 (start visitor []))).
Proof.
  assert (mirror_synced visitor) as H1 by reflexivity.
  assert (anonymous_without_saves visitor) as H2 by (intros _; reflexivity).
  split; [exact H1 |]. split; [exact H2 |].
  exact (proj1
    (AccountTheorems.session_invariants picky_server
       [ToggleBookmark 1; LogIn ada; ToggleSave 2; ToggleSave 3; LogOut]
       (start visitor []) H1 H2)).
Defined.

(** The event list, once fetched, is served from the cache when the
    network is gone. *)
Lemma cached_response_is_final_witness :
  (forall name rq rs (c : SimpleCaches), caches_match c rq = None ->
     caches_match (cache_put name rq rs c) rq = Some rs)
  /\ caches_match installed "/events/upcoming" = None
  /\ online "/events/upcoming" = Some "{events}"
  /\ events_bearing "/events/upcoming" = true
  /\ onFetch (fun _ => None) "/events/upcoming"
       (onFetch online "/events/upcoming" installed).2
     = (Some "{events}", (onFetch online "/events/upcoming" installed).2).
Proof.
  assert (forall name rq rs (c : SimpleCaches), caches_match c rq = None ->
            caches_match (cache_put name rq rs c) rq = Some rs) as H1
    by exact LifeFacts.simple_put_match.
  split; [exact H1 |]. split; [reflexivity |]. split; [reflexivity |].
  split; [reflexivity |].
  exact (proj2
    (LifeTheorems.cached_response_is_final online (fun _ => None)
       "/events/upcoming" installed "{events}" H1 eq_refl eq_refl eq_refl)).
Defined.

(** A signed-in user takes event 3 off the saves: a [DELETE] goes
    out, and until the answer is there nothing has changed; a
    confirming answer removes the id, a lost connection changes
    nothing. *)
Lemma toggleSave_by_identity_witness :
  exists resume,
    toggleSave_start 3 (start member [3])
    = (Awaiting {| rq_method := DELETE; rq_url := "/profile/saves/3";
                   rq_body := None |} resume, start member [3])
    /\ savedEventIds
         (w_app (resume (Responded (Some {| success := true; event_ids := [] |}))
                        (start member [3])).2) = []
    /\ w_app (resume NetworkFailure (start member [3])).2 = member.
Proof.
  set (w := start member ([3] : list Z)).
  pose proof (SavesFacts.toggleSave_by_identity picky_server 3 w) as H.
  cbn [w member currentUser w_app start set_savedEventIds set_currentUser] in H.
  destruct H as ((resume & Hstart & _ & Hresume) & _).
  exists resume. split; [exact Hstart |]. split.
  - exact (proj1 (proj2
      (Hresume (Responded (Some {| success := true; event_ids := [] |})) w))).
  - exact (proj1 (proj2 (proj2 (Hresume NetworkFailure w))) eq_refl).
Defined.

(** The visitor takes the bookmark off event 2: the mirror holds
    ["[1,3]"], and [loadBookmarks] reads the set back from it. *)
Lemma toggleBookmark_flips_membership_witness :
  NoDup (bookmarkedIds visitor)
  /\ bookmarkedIds (w_app (toggleBookmark 2 (start visitor tt)).2) = [1; 3]
  /\ localStorage (w_app (toggleBookmark 2 (start visitor tt)).2) !! BOOKMARKS_KEY
     = Some "[1,3]"
  /\ ids_of_json "[1,3]" = Some [1; 3]
  /\ bookmarkedIds
       <$> loadBookmarks
             (set_bookmarkedIds [] (w_app (toggleBookmark 2 (start visitor tt)).2))
     = Some [1; 3].
Proof.
  set (w1 := (toggleBookmark 2 (start visitor tt)).2).
  assert (NoDup (bookmarkedIds visitor)) as Hnd
    by exact (bool_decide_unpack (NoDup [1; 2; 3]) I).
  assert (bookmarkedIds (w_app w1) = [1; 3]) as Hids by reflexivity.
  assert (localStorage (w_app w1) !! BOOKMARKS_KEY = Some "[1,3]") as Hraw
    by (vm_compute; reflexivity).
  pose proof (BookmarkFacts.toggleBookmark_flips_membership 2 (start visitor tt))
    as (_ & _ & _ & _ & _ & _ & (raw & Hmirror & Hparse) & Hload).
  fold w1 in Hmirror, Hparse, Hload.
  split; [exact Hnd |]. split; [exact Hids |]. split; [exact Hraw |].
  split.
  - rewrite Hraw in Hmirror. injection Hmirror as <-.
    rewrite Hids in Hparse. exact Hparse.
  - rewrite (Hload Hnd (set_bookmarkedIds [] (w_app w1)) eq_refl).
    rewrite Hids. reflexivity.
Defined.

End Witnesses.
